(** * simple-color-palette: the colour engine and the palette document

    A shallow embedding of [index.js].  JavaScript numbers are IEEE-754
    binary64 values and are modelled by Rocq's primitive [float]s, so that
    every rounding, comparison and division below is the one the engine
    performs.  Strings are sequences of 8-bit code units.  Thrown errors are
    values of a small error monad.  The built-ins the source calls
    ([Math.round], [Math.min], [Math.max], [Number.isInteger], the int32
    bit operators, [JSON.parse], [JSON.stringify], [parseInt]) are written
    out after ECMA-262; [Math.pow] (the [**] operator), whose result ECMA-262
    leaves implementation-approximated, is a field of the [Engine] class. *)

From Stdlib Require Import ZArith List String Ascii Bool Floats Lia.
From Stdlib Require Import Reals Lra.
Import ListNotations.

#[local] Set Warnings "-inexact-float,-register-all".
#[local] Open Scope string_scope.
#[local] Open Scope Z_scope.

(** ** Numbers *)

Module Number.

(** The Number value of a mathematical integer (exact below 2^53). *)
Definition of_Z (z : Z) : float :=
  match z with
  | Z0 => PrimFloat.zero
  | Zpos _ => PrimFloat.of_uint63 (Uint63.of_Z z)
  | Zneg p => PrimFloat.opp (PrimFloat.of_uint63 (Uint63.of_Z (Zpos p)))
  end.

(** [truncate x]: the integer part of a finite [x], rounding toward zero;
    0 for NaN, the infinities and the zeros (ECMA-262 [truncate] as used
    by [ToInt32]). *)
Definition truncate (x : float) : Z :=
  match Prim2SF x with
  | S754_finite s m e =>
      let a := if 0 <=? e then Z.shiftl (Zpos m) e else Z.shiftr (Zpos m) (- e) in
      if s then - a else a
  | _ => 0
  end.

(** [Number.isInteger]. *)
Definition isInteger (x : float) : bool :=
  match Prim2SF x with
  | S754_zero _ => true
  | S754_finite _ m e => (0 <=? e) || (Zpos m mod 2 ^ (- e) =? 0)
  | _ => false
  end.

(** [ToInt32]: wrap the integer part modulo 2^32 into [-2^31, 2^31). *)
Definition ToInt32 (x : float) : Z :=
  let k := truncate x mod 2 ^ 32 in
  if 2 ^ 31 <=? k then k - 2 ^ 32 else k.

(** [(x >> k) & mask] and [x & mask]: the int32 result as a Number. *)
Definition sar_and (x : float) (k mask : Z) : float :=
  of_Z (Z.land (Z.shiftr (ToInt32 x) k) mask).

Definition and (x : float) (mask : Z) : float :=
  of_Z (Z.land (ToInt32 x) mask).

(** [Math.round]: the nearest integer, ties toward +infinity; the sign
    of a zero result is the sign of the argument. *)
Definition Math_round (x : float) : float :=
  match Prim2SF x with
  | S754_finite s m e =>
      if 0 <=? e then x
      else
        let n := if s then Zneg m else Zpos m in
        let r := Z.shiftr (2 * n + 2 ^ (- e)) (- e + 1) in
        if r =? 0 then (if s then PrimFloat.neg_zero else PrimFloat.zero)
        else of_Z r
  | _ => x
  end.

Definition is_neg_zero (x : float) : bool :=
  match Prim2SF x with S754_zero true => true | _ => false end.

(** [Math.min] and [Math.max] of two arguments: NaN if either is NaN,
    and -0 is smaller than +0. *)
Definition Math_min (a b : float) : float :=
  if PrimFloat.is_nan a || PrimFloat.is_nan b then PrimFloat.nan
  else if PrimFloat.ltb a b then a
  else if PrimFloat.ltb b a then b
  else if is_neg_zero b then b else a.

Definition Math_max (a b : float) : float :=
  if PrimFloat.is_nan a || PrimFloat.is_nan b then PrimFloat.nan
  else if PrimFloat.ltb a b then b
  else if PrimFloat.ltb b a then a
  else if is_neg_zero a then b else a.

(** Strict equality [===] of two numbers, and its negation [!==]. *)
Definition strict_eq (a b : float) : bool := PrimFloat.eqb a b.
Definition strict_neq (a b : float) : bool := negb (PrimFloat.eqb a b).

(** The Number value of the decimal [m * 10^e10] ([m >= 0], sign [s]):
    the nearest binary64, ties to even, as a numeric literal denotes. *)
Definition of_decimal (s : bool) (m : Z) (e10 : Z) : float :=
  match m with
  | Zpos p =>
      if 0 <=? e10
      then SF2Prim (binary_normalize prec emax
                      (if s then - (m * 10 ^ e10) else m * 10 ^ e10) 0 s)
      else
        match 10 ^ (- e10) with
        | Zpos d => SF2Prim (SFdiv prec emax (S754_finite s p 0) (S754_finite false d 0))
        | _ => PrimFloat.nan
        end
  | _ => if s then PrimFloat.neg_zero else PrimFloat.zero
  end.

(** [Number.parseInt(s, 16)] on a string without sign, prefix or leading
    white space: the value of the longest run of hexadecimal digits, NaN
    when there is none. *)
Fixpoint hex_run (s : string) (acc : Z) (n : nat) : Z * nat :=
  match s with
  | String c r =>
      let k := Z.of_nat (nat_of_ascii c) in
      if (48 <=? k) && (k <=? 57) then hex_run r (16 * acc + (k - 48)) (S n)
      else if (97 <=? k) && (k <=? 102) then hex_run r (16 * acc + (k - 87)) (S n)
      else if (65 <=? k) && (k <=? 70) then hex_run r (16 * acc + (k - 55)) (S n)
      else (acc, n)
  | EmptyString => (acc, n)
  end.

Definition parseInt16 (s : string) : float :=
  match hex_run s 0 0 with
  | (_, O) => PrimFloat.nan
  | (v, _) => of_decimal false v 0
  end.

End Number.

(** ** Strings *)

Module Str.

Definition eqb_ascii (a b : ascii) : bool := Ascii.eqb a b.

(** The double-quote character, and a string holding just it. *)
Definition dquote_char : ascii := ascii_of_nat 34.
Definition dquote : string := String dquote_char EmptyString.

Definition code (c : ascii) : Z := Z.of_nat (nat_of_ascii c).
Definition chr (z : Z) : ascii := ascii_of_nat (Z.to_nat z).

Definition is_digit (c : ascii) : bool := (48 <=? code c) && (code c <=? 57).

(** [\da-f] under the [i] flag. *)
Definition is_hex_digit (c : ascii) : bool :=
  is_digit c || ((97 <=? code c) && (code c <=? 102))
             || ((65 <=? code c) && (code c <=? 70)).

Definition hex_value (c : ascii) : Z :=
  if is_digit c then code c - 48
  else if (97 <=? code c) && (code c <=? 102) then code c - 87
  else code c - 55.

(** White space and line terminators that [trim] strips (the 8-bit ones). *)
Definition is_space (c : ascii) : bool :=
  ((9 <=? code c) && (code c <=? 13)) || (code c =? 32).

Fixpoint trimStart (s : string) : string :=
  match s with
  | String c r => if is_space c then trimStart r else s
  | EmptyString => s
  end.

Fixpoint rev_append (s acc : string) : string :=
  match s with
  | String c r => rev_append r (String c acc)
  | EmptyString => acc
  end.

Definition rev (s : string) : string := rev_append s EmptyString.

Definition trim (s : string) : string := rev (trimStart (rev (trimStart s))).

Definition startsWith (s : string) (c : ascii) : bool :=
  match s with String d _ => eqb_ascii c d | EmptyString => false end.

(** [s.slice(1)]. *)
Definition slice1 (s : string) : string :=
  match s with String _ r => r | EmptyString => EmptyString end.

Fixpoint forallb (p : ascii -> bool) (s : string) : bool :=
  match s with
  | String c r => p c && forallb p r
  | EmptyString => true
  end.

(** [[...s].map(x => x + x).join('')]. *)
Fixpoint double_each (s : string) : string :=
  match s with
  | String c r => String c (String c (double_each r))
  | EmptyString => EmptyString
  end.

(** The decimal digits of a natural number, most significant first,
    with at least one digit. *)
Fixpoint digits_aux (fuel : nat) (z : Z) (acc : string) : string :=
  match fuel with
  | O => acc
  | S f =>
      let acc' := String (chr (48 + z mod 10)) acc in
      if z / 10 =? 0 then acc' else digits_aux f (z / 10) acc'
  end.

Definition of_Z (z : Z) : string :=
  digits_aux (S (Z.to_nat (Z.log2 z))) z EmptyString.

Fixpoint repeat (c : ascii) (n : nat) : string :=
  match n with O => EmptyString | S k => String c (repeat c k) end.

Fixpoint take (n : nat) (s : string) : string :=
  match n, s with
  | S k, String c r => String c (take k r)
  | _, _ => EmptyString
  end.

Fixpoint drop (n : nat) (s : string) : string :=
  match n, s with
  | S k, String _ r => drop k r
  | _, _ => s
  end.

End Str.

(** ** Values, thrown errors *)

Inductive errorClass := TypeError | PlainError | SyntaxError.

(** The outcome of a call: a result, or a thrown error with its message. *)
Inductive result (A : Type) :=
| Ok (a : A)
| Throw (cls : errorClass) (message : string).
Arguments Ok {A} a.
Arguments Throw {A} cls message.

Definition bind {A B} (r : result A) (k : A -> result B) : result B :=
  match r with
  | Ok a => k a
  | Throw c m => Throw c m
  end.

Notation "x <- r ;; k" := (bind r (fun x => k))
  (at level 61, r at next level, right associativity).

(** Run [f] on the elements in order, stopping at the first throw
    ([for (const x of xs) f(x)]). *)
Fixpoint for_of {A} (f : A -> result unit) (xs : list A) : result unit :=
  match xs with
  | [] => Ok tt
  | x :: r => _ <- f x ;; for_of f r
  end.

(** [xs.map(f)] with a callback that may throw. *)
Fixpoint map_result {A B} (f : A -> result B) (xs : list A) : result (list B) :=
  match xs with
  | [] => Ok []
  | x :: r => y <- f x ;; ys <- map_result f r ;; Ok (y :: ys)
  end.

(** The JavaScript values the program handles: what [JSON.parse] can
    return, and [undefined]. *)
Inductive value :=
| Undefined
| Null
| Bool (b : bool)
| Num (n : float)
| Str (s : string)
| Arr (elements : list value)
| Obj (fields : list (string * value)).

Module Value.

(** [typeof v === 'number']. *)
Definition is_number (v : value) : bool :=
  match v with Num _ => true | _ => false end.

(** [Array.isArray]. *)
Definition isArray (v : value) : bool :=
  match v with Arr _ => true | _ => false end.

(** ToBoolean. *)
Definition truthy (v : value) : bool :=
  match v with
  | Undefined | Null => false
  | Bool b => b
  | Num n => negb (PrimFloat.is_nan n || PrimFloat.is_zero n)
  | Str s => negb (String.eqb s EmptyString)
  | Arr _ | Obj _ => true
  end.

(** The number held by a value whose type is number (applied only behind
    a [typeof] test). *)
Definition number (v : value) : float :=
  match v with Num n => n | _ => PrimFloat.nan end.

(** [xs[i]] on an array: [undefined] past the end. *)
Definition nth (i : nat) (xs : list value) : value := List.nth i xs Undefined.

Fixpoint lookup (k : string) (fields : list (string * value)) : value :=
  match fields with
  | [] => Undefined
  | (k', v) :: r => if String.eqb k k' then v else lookup k r
  end.

(** Write a property: an existing key keeps its place. *)
Fixpoint set (k : string) (v : value) (fields : list (string * value))
  : list (string * value) :=
  match fields with
  | [] => [(k, v)]
  | (k', v') :: r => if String.eqb k k' then (k, v) :: r else (k', v') :: set k v r
  end.

(** [v.k] for one of the property names the source reads ([colors],
    [components], [name]), none of which a prototype of a parsed value
    defines: reading from [null] or [undefined] throws, a plain object
    answers with its own property, and everything else with [undefined]. *)
Definition get (v : value) (k : string) : result value :=
  match v with
  | Undefined =>
      Throw TypeError ("Cannot read properties of undefined (reading '" ++ k ++ "')")
  | Null =>
      Throw TypeError ("Cannot read properties of null (reading '" ++ k ++ "')")
  | Obj fields => Ok (lookup k fields)
  | _ => Ok Undefined
  end.

End Value.

(** ** Number to text *)

Module NumberToString.

(** [x < 10^n] for the positive real [m * 2^e], exactly. *)
Definition below_pow10 (m e n : Z) : bool :=
  m * 2 ^ Z.max e 0 * 10 ^ Z.max (- n) 0 <? 2 ^ Z.max (- e) 0 * 10 ^ Z.max n 0.

(** The least [n] from [n0] on with [m * 2^e < 10^n]. *)
Fixpoint find_n (fuel : nat) (m e n0 : Z) : Z :=
  match fuel with
  | O => n0
  | S f => if below_pow10 m e n0 then n0 else find_n f m e (n0 + 1)
  end.

(** The two [k]-digit candidates around [m * 2^e / 10^(n-k)] and which of
    them is nearer: [(lo, hi, c)] with [c] comparing the remainder to one
    half. *)
Definition candidates (m e n k : Z) : Z * Z * comparison :=
  let num := m * 2 ^ Z.max e 0 * 10 ^ Z.max (k - n) 0 in
  let den := 2 ^ Z.max (- e) 0 * 10 ^ Z.max (n - k) 0 in
  (num / den, num / den + 1, (2 * (num mod den)) ?= den).

Definition round_trips (x : float) (s n k : Z) : bool :=
  PrimFloat.eqb (Number.of_decimal false s (n - k)) x.

(** The digits [s], their count [k] and the exponent [n] of Number::toString:
    the smallest [k] for which some [s * 10^(n-k)] reads back as [x], and
    for that [k] the [s] nearest to [x] (the even one on a tie). *)
Fixpoint shortest (fuel : nat) (x : float) (m e n k : Z) : Z * Z * Z :=
  let '(lo, hi, c) := candidates m e n k in
  let ok_lo := round_trips x lo n k in
  let ok_hi := round_trips x hi n k in
  let pick_lo := (lo, n, k) in
  let pick_hi := if hi =? 10 ^ k then (10 ^ (k - 1), n + 1, k) else (hi, n, k) in
  match fuel with
  | O => pick_lo
  | S f =>
      if ok_lo && ok_hi then
        match c with
        | Lt => pick_lo
        | Gt => pick_hi
        | Eq => if Z.even lo then pick_lo else pick_hi
        end
      else if ok_lo then pick_lo
      else if ok_hi then pick_hi
      else shortest f x m e n (k + 1)
  end.

(** The text of [s] ([k] digits) scaled by [10^(n-k)], as
    Number::toString lays it out. *)
Definition layout (s n k : Z) : string :=
  let ds := Str.of_Z s in
  if (k <=? n) && (n <=? 21) then
    ds ++ Str.repeat "0" (Z.to_nat (n - k))
  else if (0 <? n) && (n <=? 21) then
    Str.take (Z.to_nat n) ds ++ "." ++ Str.drop (Z.to_nat n) ds
  else if (-6 <? n) && (n <=? 0) then
    "0." ++ Str.repeat "0" (Z.to_nat (- n)) ++ ds
  else
    let e := n - 1 in
    let es := (if e <? 0 then "-" else "+") ++ Str.of_Z (Z.abs e) in
    if k =? 1 then ds ++ "e" ++ es
    else Str.take 1 ds ++ "." ++ Str.drop 1 ds ++ "e" ++ es.

(** Number::toString, radix 10. *)
Definition toString (x : float) : string :=
  match Prim2SF x with
  | S754_nan => "NaN"
  | S754_zero _ => "0"
  | S754_infinity s => if s then "-Infinity" else "Infinity"
  | S754_finite sg m e =>
      let n := find_n 700 (Zpos m) e (-324) in
      let '(s, n', k) := shortest 17 (PrimFloat.abs x) (Zpos m) e n 1 in
      (if sg then "-" else "") ++ layout s n' k
  end.

End NumberToString.

(** ** JSON text *)

Module JSON.

Definition newline : string := String (ascii_of_nat 10) EmptyString.

(** *** [JSON.parse] *)

(** A parse either yields a result and the rest of the input, or stops at
    the part of the input it could not read. *)
Inductive parsed (A : Type) :=
| POk (a : A) (rest : string)
| PFail (at_ : string).
Arguments POk {A} a rest.
Arguments PFail {A} at_.

Definition is_ws (c : ascii) : bool :=
  let n := Str.code c in (n =? 32) || (n =? 9) || (n =? 10) || (n =? 13).

Fixpoint skip_ws (s : string) : string :=
  match s with
  | String c r => if is_ws c then skip_ws r else s
  | EmptyString => s
  end.

Fixpoint strip_prefix (p s : string) : option string :=
  match p, s with
  | EmptyString, _ => Some s
  | String a p', String b s' => if Ascii.eqb a b then strip_prefix p' s' else None
  | _, _ => None
  end.

(** A run of decimal digits: its value on top of [acc], its length, the rest. *)
Fixpoint digits (s : string) (acc : Z) (n : Z) : Z * Z * string :=
  match s with
  | String c r =>
      if Str.is_digit c then digits r (10 * acc + (Str.code c - 48)) (n + 1)
      else (acc, n, s)
  | EmptyString => (acc, n, s)
  end.

Definition parse_exponent (s : string) : parsed Z :=
  match s with
  | String c r =>
      if (Str.code c =? 101) || (Str.code c =? 69) then
        let '(sg, r1) :=
          match r with
          | String d r' =>
              if Str.code d =? 45 then (true, r')
              else if Str.code d =? 43 then (false, r')
              else (false, r)
          | EmptyString => (false, r)
          end in
        let '(v, n, r2) := digits r1 0 0 in
        if n =? 0 then PFail r1 else POk (if sg then - v else v) r2
      else POk 0 s
  | EmptyString => POk 0 s
  end.

Definition parse_fraction (s : string) (int : Z) : parsed (Z * Z) :=
  match s with
  | String c r =>
      if Str.code c =? 46 then
        let '(v, n, r1) := digits r int 0 in
        if n =? 0 then PFail r else POk (v, n) r1
      else POk (int, 0) s
  | EmptyString => POk (int, 0) s
  end.

(** The digits of a number after its sign [sg]. *)
Definition parse_unsigned (sg : bool) (s1 : string) : parsed value :=
  match s1 with
  | String c r =>
      if Str.is_digit c then
        let '(int, s2) :=
          if Str.code c =? 48 then (0, r)
          else let '(v, _, r') := digits s1 0 0 in (v, r') in
        match parse_fraction s2 int with
        | PFail a => PFail a
        | POk (m, nfrac) s3 =>
            match parse_exponent s3 with
            | PFail a => PFail a
            | POk e s4 => POk (Num (Number.of_decimal sg m (e - nfrac))) s4
            end
        end
      else PFail s1
  | EmptyString => PFail s1
  end.

Definition parse_number (s : string) : parsed value :=
  match s with
  | String c r => if Str.code c =? 45 then parse_unsigned true r else parse_unsigned false s
  | EmptyString => PFail s
  end.

(** The UTF-8 bytes of a code unit given by a [\u] escape. *)
Definition utf8 (z : Z) (acc : string) : string :=
  if z <? 128 then String (Str.chr z) acc
  else if z <? 2048 then
    String (Str.chr (192 + z / 64)) (String (Str.chr (128 + z mod 64)) acc)
  else
    String (Str.chr (224 + z / 4096))
      (String (Str.chr (128 + (z / 64) mod 64)) (String (Str.chr (128 + z mod 64)) acc)).

(** The characters of a string literal after its opening quote. *)
Fixpoint parse_string (s : string) : parsed string :=
  match s with
  | EmptyString => PFail s
  | String c r =>
      if Str.code c =? 34 then POk EmptyString r
      else if Str.code c <? 32 then PFail s
      else if Str.code c =? 92 then
        match r with
        | String e r1 =>
            let simple (ch : Z) :=
              match parse_string r1 with
              | POk t rest => POk (String (Str.chr ch) t) rest
              | PFail a => PFail a
              end in
            let n := Str.code e in
            if (n =? 34) || (n =? 92) || (n =? 47) then simple n
            else if n =? 98 then simple 8
            else if n =? 102 then simple 12
            else if n =? 110 then simple 10
            else if n =? 114 then simple 13
            else if n =? 116 then simple 9
            else if n =? 117 then
              match r1 with
              | String h1 (String h2 (String h3 (String h4 r2))) =>
                  if Str.is_hex_digit h1 && Str.is_hex_digit h2
                     && Str.is_hex_digit h3 && Str.is_hex_digit h4 then
                    match parse_string r2 with
                    | POk t rest =>
                        POk (utf8 (4096 * Str.hex_value h1 + 256 * Str.hex_value h2
                                   + 16 * Str.hex_value h3 + Str.hex_value h4) t) rest
                    | PFail a => PFail a
                    end
                  else PFail r1
              | _ => PFail r1
              end
            else PFail r
        | EmptyString => PFail r
        end
      else
        match parse_string r with
        | POk t rest => POk (String c t) rest
        | PFail a => PFail a
        end
  end.

Definition expect (c : Z) (s : string) : parsed unit :=
  match s with
  | String d r => if Str.code d =? c then POk tt r else PFail s
  | EmptyString => PFail s
  end.

(** A JSON value, the elements of an array after [[] or [,], and the
    members of an object after [{] or [,].  [fuel] bounds the nesting of
    calls; twice the length of the text is enough. *)
Fixpoint parse_value (fuel : nat) (s : string) : parsed value :=
  match fuel with
  | O => PFail s
  | S f =>
      let s := skip_ws s in
      match s with
      | EmptyString => PFail s
      | String c r =>
          let n := Str.code c in
          if n =? 123 then
            match skip_ws r with
            | String d r' =>
                if Str.code d =? 125 then POk (Obj []) r' else parse_members f (skip_ws r) []
            | EmptyString => PFail EmptyString
            end
          else if n =? 91 then
            match skip_ws r with
            | String d r' =>
                if Str.code d =? 93 then POk (Arr []) r' else parse_elements f (skip_ws r) []
            | EmptyString => PFail EmptyString
            end
          else if n =? 34 then
            match parse_string r with
            | POk t rest => POk (Str t) rest
            | PFail a => PFail a
            end
          else if (n =? 45) || Str.is_digit c then parse_number s
          else
            match strip_prefix "true" s, strip_prefix "false" s, strip_prefix "null" s with
            | Some rest, _, _ => POk (Bool true) rest
            | _, Some rest, _ => POk (Bool false) rest
            | _, _, Some rest => POk Null rest
            | _, _, _ => PFail s
            end
      end
  end
with parse_elements (fuel : nat) (s : string) (acc : list value) : parsed value :=
  match fuel with
  | O => PFail s
  | S f =>
      match parse_value f s with
      | PFail a => PFail a
      | POk v rest =>
          match skip_ws rest with
          | String d r =>
              if Str.code d =? 44 then parse_elements f r (v :: acc)
              else if Str.code d =? 93 then POk (Arr (List.rev (v :: acc))) r
              else PFail (skip_ws rest)
          | EmptyString => PFail EmptyString
          end
      end
  end
with parse_members (fuel : nat) (s : string) (acc : list (string * value)) : parsed value :=
  match fuel with
  | O => PFail s
  | S f =>
      match expect 34 (skip_ws s) with
      | PFail a => PFail a
      | POk _ r0 =>
          match parse_string r0 with
          | PFail a => PFail a
          | POk k r1 =>
              match expect 58 (skip_ws r1) with
              | PFail a => PFail a
              | POk _ r2 =>
                  match parse_value f r2 with
                  | PFail a => PFail a
                  | POk v rest =>
                      match skip_ws rest with
                      | String d r =>
                          if Str.code d =? 44 then parse_members f r (Value.set k v acc)
                          else if Str.code d =? 125 then POk (Obj (Value.set k v acc)) r
                          else PFail (skip_ws rest)
                      | EmptyString => PFail EmptyString
                      end
                  end
              end
          end
      end
  end.

(** The message of the [SyntaxError] for a parse that stopped at [at_],
    in V8's wording. *)
Definition syntax_error_message (text at_ : string) : string :=
  match at_ with
  | EmptyString => "Unexpected end of JSON input"
  | String c _ =>
      "Unexpected token '" ++ String c EmptyString ++ "', "
        ++ Str.dquote ++ text ++ Str.dquote ++ " is not valid JSON"
  end.

Definition parse (text : string) : result value :=
  match parse_value (2 * String.length text + 2) text with
  | PFail a => Throw SyntaxError (syntax_error_message text a)
  | POk v rest =>
      match skip_ws rest with
      | EmptyString => Ok v
      | String _ _ =>
          Throw SyntaxError
            ("Unexpected non-whitespace character after JSON at position "
               ++ Str.of_Z (Z.of_nat (String.length text - String.length (skip_ws rest))))
      end
  end.

(** *** [JSON.stringify] *)

Definition hex_digit (z : Z) : ascii :=
  if z <? 10 then Str.chr (48 + z) else Str.chr (87 + z).

Fixpoint escape (s : string) : string :=
  match s with
  | EmptyString => EmptyString
  | String c r =>
      let n := Str.code c in
      let bs (ch : Z) := String (Str.chr 92) (String (Str.chr ch) (escape r)) in
      if (n =? 34) || (n =? 92) then bs n
      else if n =? 8 then bs 98
      else if n =? 12 then bs 102
      else if n =? 10 then bs 110
      else if n =? 13 then bs 114
      else if n =? 9 then bs 116
      else if n <? 32 then
        String (Str.chr 92) (String (Str.chr 117) (String "0" (String "0"
          (String (hex_digit (n / 16)) (String (hex_digit (n mod 16)) (escape r))))))
      else String c (escape r)
  end.

(** QuoteJSONString. *)
Definition quote (s : string) : string := Str.dquote ++ escape s ++ Str.dquote.

Fixpoint join (sep : string) (parts : list string) : string :=
  match parts with
  | [] => EmptyString
  | [x] => x
  | x :: r => x ++ sep ++ join sep r
  end.

(** The brackets around the serialised parts of an array or an object. *)
Definition wrap (open_ close_ indent gap : string) (parts : list string) : string :=
  match parts with
  | [] => open_ ++ close_
  | _ =>
      if String.eqb gap EmptyString then open_ ++ join "," parts ++ close_
      else
        open_ ++ newline ++ (indent ++ gap)
          ++ join ("," ++ newline ++ (indent ++ gap)) parts
          ++ newline ++ indent ++ close_
  end.

(** SerializeJSONProperty: [None] stands for [undefined]. *)
Fixpoint serialize (gap : string) (v : value) (indent : string) : option string :=
  match v with
  | Undefined => None
  | Null => Some "null"
  | Bool b => Some (if b then "true" else "false")
  | Num n => Some (if PrimFloat.is_finite n then NumberToString.toString n else "null")
  | Str s => Some (quote s)
  | Arr l =>
      let parts :=
        (fix go (l : list value) : list string :=
           match l with
           | [] => []
           | x :: r =>
               match serialize gap x (indent ++ gap) with
               | Some t => t
               | None => "null"
               end :: go r
           end) l in
      Some (wrap "[" "]" indent gap parts)
  | Obj fs =>
      let parts :=
        (fix go (fs : list (string * value)) : list string :=
           match fs with
           | [] => []
           | (k, x) :: r =>
               match serialize gap x (indent ++ gap) with
               | Some t =>
                   (quote k ++ ":" ++ (if String.eqb gap EmptyString then "" else " ") ++ t)
                     :: go r
               | None => go r
               end
           end) fs in
      Some (wrap "{" "}" indent gap parts)
  end.

(** [JSON.stringify(v, undefined, gap)] for a [v] whose [toJSON] calls
    have already been made. *)
Definition stringify (v : value) (gap : string) : option string :=
  serialize gap v EmptyString.

End JSON.

(** ** The host's exponentiation *)

(** [Math.pow] is implementation-approximated (ECMA-262, Number::exponentiate);
    what every engine guarantees are its special cases, of which the
    program meets two: a NaN base and an infinite base. *)
Class Engine := {
  Math_pow : float -> float -> float;
  Math_pow_nan : forall e,
    PrimFloat.is_nan e = false -> PrimFloat.is_zero e = false ->
    Math_pow PrimFloat.nan e = PrimFloat.nan;
  Math_pow_infinity : forall e,
    PrimFloat.ltb PrimFloat.zero e = true ->
    Math_pow PrimFloat.infinity e = PrimFloat.infinity
}.

(** A reference engine, for running the program on concrete inputs:
    [pow b e = exp (e * ln b)] with the logarithm and the exponential summed
    from their series after range reduction (relative error around 1e-14),
    and the special cases of Number::exponentiate. *)
Module ReferenceEngine.

#[local] Open Scope float_scope.

Definition ln2 : float := 0x1.62e42fefa39efp-1.

(** [sum_{i < n} z^(2i+1) / (2i+1)], Horner style from the last term. *)
Fixpoint atanh_series (n : nat) (z2 : float) (k : float) : float :=
  match n with
  | O => 0
  | S n' => 1 / k + z2 * atanh_series n' z2 (k + 2)
  end.

Definition ln (x : float) : float :=
  let (m, e) := Z.frexp x in
  let '(m, e) := if m <? 0x1.6a09e667f3bcdp-1 then (m * 2, (e - 1)%Z) else (m, e) in
  let z := (m - 1) / (m + 1) in
  2 * z * atanh_series 14 (z * z) 1 + Number.of_Z e * ln2.

(** [sum_{i < n} r^i / i!]. *)
Fixpoint exp_series (n : nat) (r : float) (k : float) : float :=
  match n with
  | O => 1
  | S n' => 1 + r / k * exp_series n' r (k + 1)
  end.

Definition exp (y : float) : float :=
  if 710 <? y then infinity
  else if y <? -746 then 0
  else
    let k := Number.Math_round (y / ln2) in
    let r := y - k * ln2 in
    Z.ldexp (exp_series 20 r 1) (Number.truncate k).

Definition pow (b e : float) : float :=
  if PrimFloat.is_nan e then nan
  else if PrimFloat.is_zero e then 1
  else if PrimFloat.is_nan b then nan
  else if b =? infinity then (if 0 <? e then infinity else 0)
  else if PrimFloat.is_zero b then (if 0 <? e then 0 else infinity)
  else if 0 <? b then exp (e * ln b)
  else if Number.isInteger e then
    (if Z.even (Number.truncate e) then exp (e * ln (- b)) else - exp (e * ln (- b)))
  else nan.

Lemma pow_nan e :
  PrimFloat.is_nan e = false -> PrimFloat.is_zero e = false -> pow nan e = nan.
Proof. intros He Hz. unfold pow. now rewrite He, Hz. Qed.

Lemma pow_infinity e : (0 <? e) = true -> pow infinity e = infinity.
Proof.
  intros He. unfold pow.
  assert (Hn : PrimFloat.is_nan e = false).
  { unfold PrimFloat.is_nan. rewrite eqb_spec. rewrite ltb_spec in He.
    destruct (Prim2SF e) as [ [] | [] | | [] m x]; try discriminate; try reflexivity;
      cbn; now rewrite Z.compare_refl, Pos.compare_cont_refl. }
  assert (Hz : PrimFloat.is_zero e = false).
  { unfold PrimFloat.is_zero. rewrite eqb_spec. rewrite ltb_spec in He.
    destruct (Prim2SF e) as [ [] | [] | | [] m x]; try discriminate; reflexivity. }
  now rewrite Hn, Hz, He.
Qed.

End ReferenceEngine.

Definition reference_engine : Engine := {|
  Math_pow := ReferenceEngine.pow;
  Math_pow_nan := ReferenceEngine.pow_nan;
  Math_pow_infinity := ReferenceEngine.pow_infinity
|}.

(** ** index.js *)

#[local] Open Scope float_scope.

Definition roundToFourDecimals (number : float) : float :=
  let multiplier := 10_000 in
  Number.Math_round (number * multiplier) / multiplier.

Definition sRGBToLinear `{Engine} (srgb : float) : float :=
  if srgb <=? 0.040_45 then srgb / 12.92
  else Math_pow ((srgb + 0.055) / 1.055) 2.4.

Definition linearToSRGB `{Engine} (linear : float) : float :=
  if linear <=? 0.003_130_8 then linear * 12.92
  else Math_pow linear (1 / 2.4) * 1.055 - 0.055.

Definition clampOpacity (value : float) : float :=
  Number.Math_max 0 (Number.Math_min 1 value).

Arguments roundToFourDecimals : simpl never.
Arguments clampOpacity : simpl never.
Arguments sRGBToLinear : simpl never.
Arguments linearToSRGB : simpl never.
Arguments Number.strict_neq : simpl never.

Definition validateColorComponent (color : value) : result unit :=
  components <- Value.get color "components" ;;
  match components with
  | Arr l =>
      if negb (List.length l =? 3)%nat && negb (List.length l =? 4)%nat then
        Throw PlainError "Components must have 3 or 4 values"
      else
        for_of (fun component =>
                  if negb (Value.is_number component) || (Value.number component <? 0)
                  then Throw PlainError "Component values must be numbers"
                  else Ok tt) l
  | _ => Throw TypeError "Components must be an array"
  end.

Definition validatePalette (palette : value) : result unit :=
  colors <- Value.get palette "colors" ;;
  match colors with
  | Arr l => for_of validateColorComponent l
  | _ => Throw TypeError "Colors must be an array"
  end.

Definition validateComponent (v : value) (name : string) : result unit :=
  if negb (Value.is_number v) then
    Throw TypeError (name ++ " component must be a number")
  else Ok tt.

(** The property list [{red, green, blue, opacity, name, isLinear}] a
    [Color] is constructed from, and the snapshot [{red, green, blue,
    opacity}] the [components] getters return. *)
Module Options.
Record t := make {
  name : value;
  red : value;
  green : value;
  blue : value;
  opacity : value;
  isLinear : bool
}.

(** The literal [{red, green, blue, opacity}]. *)
Definition rgba (r g b o : float) : t :=
  make Undefined (Num r) (Num g) (Num b) (Num o) false.
End Options.

Module Components.
Record t := make {
  red : float;
  green : float;
  blue : float;
  opacity : float
}.
End Components.

Module Color.

(** The state of an instance: the public [name] and the private fields
    [#linearRed], [#linearGreen], [#linearBlue], [#opacity]. *)
Record t := make {
  name : value;
  linearRed : float;
  linearGreen : float;
  linearBlue : float;
  opacity : float
}.

Section WithEngine.
Context `{Engine}.

Definition constructor (o : Options.t) : result t :=
  let red := Options.red o in
  let green := Options.green o in
  let blue := Options.blue o in
  let opacity := match Options.opacity o with Undefined => Num 1 | v => v end in
  let isLinear := Options.isLinear o in
  _ <- validateComponent red "Red" ;;
  _ <- validateComponent green "Green" ;;
  _ <- validateComponent blue "Blue" ;;
  _ <- validateComponent opacity "Opacity" ;;
  let convert (v : value) :=
    if isLinear then Value.number v else sRGBToLinear (Value.number v) in
  Ok {| name := Options.name o;
        linearRed := roundToFourDecimals (convert red);
        linearGreen := roundToFourDecimals (convert green);
        linearBlue := roundToFourDecimals (convert blue);
        opacity := roundToFourDecimals (clampOpacity (Value.number opacity)) |}.

Definition fromHexNumber (hex : float) : result t :=
  if negb (Number.isInteger hex) || (hex <? 0) then
    Throw PlainError "Invalid hex value"
  else
    if hex <=? 0xF_FF then
      constructor (Options.rgba (Number.sar_and hex 8 0xF / 15)
                                (Number.sar_and hex 4 0xF / 15)
                                (Number.and hex 0xF / 15) 1)
    else if hex <=? 0xFF_FF then
      constructor (Options.rgba (Number.sar_and hex 12 0xF / 15) (Number.sar_and hex 8 0xF / 15)
                                (Number.sar_and hex 4 0xF / 15) (Number.and hex 0xF / 15))
    else if hex <=? 0xFF_FF_FF then
      constructor (Options.rgba (Number.sar_and hex 16 0xFF / 255) (Number.sar_and hex 8 0xFF / 255)
                                (Number.and hex 0xFF / 255) 1)
    else if hex <=? 0xFF_FF_FF_FF then
      constructor (Options.rgba (Number.sar_and hex 24 0xFF / 255) (Number.sar_and hex 16 0xFF / 255)
                                (Number.sar_and hex 8 0xFF / 255) (Number.and hex 0xFF / 255))
    else Throw PlainError "Invalid hex value".

(** [/^[\da-f]{6}([\da-f]{2})?$/i.test(s)]. *)
Definition hex_pattern (s : string) : bool :=
  ((String.length s =? 6)%nat || (String.length s =? 8)%nat)
  && Str.forallb Str.is_hex_digit s.

Definition fromHexString (hex : string) : result t :=
  let string := Str.trim hex in
  let withoutHash :=
    if Str.startsWith string "#" then Str.slice1 string else string in
  let expanded :=
    if (String.length withoutHash =? 3)%nat || (String.length withoutHash =? 4)%nat
    then Str.double_each withoutHash
    else withoutHash in
  if negb (hex_pattern expanded) then
    Throw PlainError "Invalid hex color format"
  else
    let value := Number.parseInt16 expanded in
    fromHexNumber value.

Definition get_red (c : t) : float := linearToSRGB (linearRed c).

Definition set_red (c : t) (v : value) : result t :=
  if negb (Value.is_number v) then
    Throw TypeError "Red component must be a number"
  else
    Ok {| name := name c; linearRed := sRGBToLinear (Value.number v);
          linearGreen := linearGreen c; linearBlue := linearBlue c;
          opacity := opacity c |}.

Definition get_green (c : t) : float := linearToSRGB (linearGreen c).

Definition set_green (c : t) (v : value) : result t :=
  if negb (Value.is_number v) then
    Throw TypeError "Green component must be a number"
  else
    Ok {| name := name c; linearRed := linearRed c;
          linearGreen := sRGBToLinear (Value.number v);
          linearBlue := linearBlue c; opacity := opacity c |}.

Definition get_blue (c : t) : float := linearToSRGB (linearBlue c).

Definition set_blue (c : t) (v : value) : result t :=
  if negb (Value.is_number v) then
    Throw TypeError "Blue component must be a number"
  else
    Ok {| name := name c; linearRed := linearRed c;
          linearGreen := linearGreen c;
          linearBlue := sRGBToLinear (Value.number v); opacity := opacity c |}.

Definition get_opacity (c : t) : float := opacity c.

Definition components (c : t) : Components.t :=
  {| Components.red := get_red c;
     Components.green := get_green c;
     Components.blue := get_blue c;
     Components.opacity := get_opacity c |}.

End WithEngine.

Definition set_opacity (c : t) (v : value) : result t :=
  if negb (Value.is_number v) then
    Throw TypeError "Opacity must be a number"
  else
    Ok {| name := name c; linearRed := linearRed c;
          linearGreen := linearGreen c; linearBlue := linearBlue c;
          opacity := clampOpacity (Value.number v) |}.

Definition linearComponents (c : t) : Components.t :=
  {| Components.red := linearRed c;
     Components.green := linearGreen c;
     Components.blue := linearBlue c;
     Components.opacity := opacity c |}.

(** The [components] array [toJSON] builds. *)
Definition json_components (c : t) : list float :=
  ([ roundToFourDecimals (linearRed c);
     roundToFourDecimals (linearGreen c);
     roundToFourDecimals (linearBlue c) ]
   ++ (if Number.strict_neq (opacity c) 1
       then [roundToFourDecimals (opacity c)] else []))%list.

Definition toJSON (c : t) : value :=
  Obj (("components", Arr (map Num (json_components c)))
       :: (if Value.truthy (name c) then [("name", name c)] else [])).

End Color.

Module ColorPalette.

Record t := make {
  name : value;
  colors : list Color.t
}.

(** [new ColorPalette({colors, name})] on a list of [Color]s: the array
    and instance checks hold by typing, and the list is copied. *)
Definition constructor (colors : list Color.t) (name : value) : t :=
  {| name := name; colors := colors |}.

(** [toJSON], with the [toJSON] of each colour that [JSON.stringify]
    calls in turn. *)
Definition toJSON (p : t) : value :=
  Obj ((if Value.truthy (name p) then [("name", name p)] else [])
       ++ [("colors", Arr (map Color.toJSON (colors p)))])%list.

Definition tab : string := String (ascii_of_nat 9) EmptyString.

Definition serialize (p : t) : string :=
  match JSON.stringify (toJSON p) tab with
  | Some text => text
  | None => EmptyString
  end.

(** The callback [color => {...}] that [deserialize] maps over the entries. *)
Definition revive `{Engine} (color : value) : result Color.t :=
  components <- Value.get color "components" ;;
  let xs := match components with Arr l => l | _ => [] end in
  let red := Value.nth 0 xs in
  let green := Value.nth 1 xs in
  let blue := Value.nth 2 xs in
  let opacity := match Value.nth 3 xs with Undefined => Num 1 | v => v end in
  name <- Value.get color "name" ;;
  Color.constructor
    {| Options.name := name;
       Options.red := Num (roundToFourDecimals (Value.number red));
       Options.green := Num (roundToFourDecimals (Value.number green));
       Options.blue := Num (roundToFourDecimals (Value.number blue));
       Options.opacity := Num (roundToFourDecimals (Value.number opacity));
       Options.isLinear := true |}.

Definition deserialize `{Engine} (data : string) : result t :=
  parsed <- JSON.parse data ;;
  _ <- validatePalette parsed ;;
  entries <- Value.get parsed "colors" ;;
  colors <- map_result revive (match entries with Arr l => l | _ => [] end) ;;
  name <- Value.get parsed "name" ;;
  Ok (constructor colors name).

End ColorPalette.


(** ** The decoding of hex colours in the words of the specification *)

(** The 4-bit and the 8-bit field of [z] that starts at bit [k], as a
    channel value. *)
Definition nibble (z k : Z) : float := Number.of_Z ((z / 2 ^ k) mod 16)%Z / 15.
Definition byte (z k : Z) : float := Number.of_Z ((z / 2 ^ k) mod 256)%Z / 255.

(** "A non-negative integer, dispatched by magnitude". *)
Definition hexNumberSpec (h : float) : option Options.t :=
  let z := Number.truncate h in
  if negb (Number.isInteger h) || (h <? 0) then None
  else if h <=? 0xF_FF then
    Some (Options.rgba (nibble z 8) (nibble z 4) (nibble z 0) 1)
  else if h <=? 0xFF_FF then
    Some (Options.rgba (nibble z 12) (nibble z 8) (nibble z 4) (nibble z 0))
  else if h <=? 0xFF_FF_FF then
    Some (Options.rgba (byte z 16) (byte z 8) (byte z 0) 1)
  else if h <=? 0xFF_FF_FF_FF then
    Some (Options.rgba (byte z 24) (byte z 16) (byte z 8) (byte z 0))
  else None.

(** The inputs [fromHexNumber] has no colour for. *)
Definition invalid_hex (h : float) : Prop :=
  Number.isInteger h = false \/ (h <? 0) = true \/ (0xFF_FF_FF_FF <? h) = true.

(** The byte written by two hex digits, as a channel value. *)
Definition pair255 (hi lo : ascii) : float :=
  Number.of_Z (16 * Str.hex_value hi + Str.hex_value lo)%Z / 255.

(** "3 -> RGB with each digit doubled to form a byte, 4 -> RGB+alpha doubled,
    6 -> RGB as bytes, 8 -> RGBA as bytes": the digits are grouped by their
    position in the string. *)
Definition hexStringSpec (hex : string) : option Options.t :=
  let digits := if Str.startsWith hex "#" then Str.slice1 hex else hex in
  if negb (Str.forallb Str.is_hex_digit digits) then None
  else
    match list_ascii_of_string digits with
    | [r; g; b] => Some (Options.rgba (pair255 r r) (pair255 g g) (pair255 b b) 1)
    | [r; g; b; a] =>
        Some (Options.rgba (pair255 r r) (pair255 g g) (pair255 b b) (pair255 a a))
    | [r1; r2; g1; g2; b1; b2] =>
        Some (Options.rgba (pair255 r1 r2) (pair255 g1 g2) (pair255 b1 b2) 1)
    | [r1; r2; g1; g2; b1; b2; a1; a2] =>
        Some (Options.rgba (pair255 r1 r2) (pair255 g1 g2) (pair255 b1 b2) (pair255 a1 a2))
    | _ => None
    end.

(** What the clamp leaves of a non-finite opacity. *)
Definition clamped_nonfinite (x : float) : float :=
  if PrimFloat.is_nan x then nan else if 0 <? x then 1 else 0.

(** ** Documents and their texts *)

(** [JSON.stringify(v)], as the tests build their inputs. *)
Definition stringified (v : value) : string :=
  match JSON.stringify v EmptyString with Some t => t | None => "undefined" end.

(** [hay.includes(needle)]. *)
Fixpoint includes (needle hay : string) : bool :=
  match JSON.strip_prefix needle hay with
  | Some _ => true
  | None => match hay with String _ r => includes needle r | EmptyString => false end
  end.

(** White space, and texts that start with something else. *)
Definition blank (s : string) : bool := Str.forallb JSON.is_ws s.

Definition solid (s : string) : bool :=
  match s with
  | String c _ => negb (JSON.is_ws c)
  | EmptyString => false
  end.

(** What may follow a value: anything that cannot continue a number. *)
Definition number_char (c : ascii) : bool :=
  let n := Str.code c in
  Str.is_digit c || (n =? 46)%Z || (n =? 101)%Z || (n =? 69)%Z || (n =? 43)%Z || (n =? 45)%Z.

Definition delimited (r : string) : bool :=
  match r with
  | String c _ => negb (number_char c)
  | EmptyString => true
  end.

(** A number whose text reads back as the number. *)
Definition number_text_ok (x : float) : bool :=
  match JSON.parse_number (NumberToString.toString x) with
  | JSON.POk (Num y) EmptyString => PrimFloat.Leibniz.eqb y x
  | _ => false
  end.
Arguments number_text_ok : simpl never.

Fixpoint distinct (ks : list string) : bool :=
  match ks with
  | [] => true
  | k :: r => negb (existsb (String.eqb k) r) && distinct r
  end.

(** A value [JSON.stringify] prints without loss: no [undefined], finite
    numbers whose text reads back, objects without repeated keys. *)
Fixpoint clean (v : value) : bool :=
  match v with
  | Undefined => false
  | Null | Bool _ | Str _ => true
  | Num n => PrimFloat.is_finite n && number_text_ok n
  | Arr l =>
      (fix all (l : list value) : bool :=
         match l with [] => true | x :: r => clean x && all r end) l
  | Obj fs =>
      (fix all (fs : list (string * value)) : bool :=
         match fs with [] => true | (_, x) :: r => clean x && all r end) fs
      && distinct (map fst fs)
  end.

(** The nesting of parser calls a value needs. *)
Fixpoint depth (v : value) : nat :=
  match v with
  | Arr l =>
      S ((fix dl (l : list value) : nat :=
            match l with [] => O | x :: r => S (Nat.max (depth x) (dl r)) end) l)
  | Obj fs =>
      S ((fix dl (fs : list (string * value)) : nat :=
            match fs with [] => O | (_, x) :: r => S (Nat.max (depth x) (dl r)) end) fs)
  | _ => 1
  end.

Fixpoint depths (ds : list nat) : nat :=
  match ds with [] => O | d :: r => S (Nat.max d (depths r)) end.

(** Induction on values, through the lists they nest. *)
Fixpoint value_induction (P : value -> Prop)
    (HU : P Undefined) (HN : P Null) (HB : forall b, P (Bool b))
    (Hn : forall n, P (Num n)) (HS : forall s, P (Str s))
    (HA : forall l, Forall P l -> P (Arr l))
    (HO : forall fs, Forall (fun kv => P (snd kv)) fs -> P (Obj fs))
    (v : value) {struct v} : P v :=
  match v with
  | Undefined => HU
  | Null => HN
  | Bool b => HB b
  | Num n => Hn n
  | Str s => HS s
  | Arr l =>
      HA l ((fix go (l : list value) : Forall P l :=
               match l with
               | [] => Forall_nil P
               | x :: r => Forall_cons x (value_induction P HU HN HB Hn HS HA HO x) (go r)
               end) l)
  | Obj fs =>
      HO fs ((fix go (fs : list (string * value)) : Forall (fun kv => P (snd kv)) fs :=
                match fs with
                | [] => Forall_nil _
                | kv :: r =>
                    Forall_cons kv (value_induction P HU HN HB Hn HS HA HO (snd kv)) (go r)
                end) fs)
  end.

(** The texts of the elements and of the members. *)
Definition element_text (gap indent : string) (x : value) : string :=
  match JSON.serialize gap x indent with Some t => t | None => "null" end.

Definition member_text (gap indent : string) (kv : string * value) : string :=
  JSON.quote (fst kv) ++ ":" ++ (if String.eqb gap EmptyString then EmptyString else " ")
    ++ element_text gap indent (snd kv).

(** The text of a member whose value has the text [snd it], with [sp]
    after the colon. *)
Definition member (sp : string) (it : (string * value) * string) : string :=
  JSON.quote (fst (fst it)) ++ ":" ++ sp ++ snd it.

(** [t] is the text of a value: it starts with neither white space nor a
    closing bracket. *)
Definition starts_value (t : string) : bool :=
  match t with
  | String c _ => negb (JSON.is_ws c) && negb (Str.code c =? 93)%Z
  | EmptyString => false
  end.

(** [t] reads back as [v], whatever follows it. *)
Definition reads (v : value) (t : string) : Prop :=
  forall fuel rest,
    (depth v <= fuel)%nat -> delimited rest = true ->
    JSON.parse_value fuel (t ++ rest) = JSON.POk v rest.

(** The texts [ts] separated by [sep], then [tail]. *)
Fixpoint seq_text (sep : string) (ts : list string) (tail : string) : string :=
  match ts with
  | [] => tail
  | [t] => t ++ tail
  | t :: r => t ++ sep ++ seq_text sep r tail
  end.

(** The white space [wrap] puts after the opening bracket and before the
    closing one. *)
Definition lead (indent gap : string) : string :=
  if String.eqb gap EmptyString then EmptyString else JSON.newline ++ (indent ++ gap).

Definition trail (indent gap : string) : string :=
  if String.eqb gap EmptyString then EmptyString else JSON.newline ++ indent.

(** [v] prints to a text that reads back as [v]. *)
Definition printable (gap indent : string) (v : value) : Prop :=
  exists t,
    JSON.serialize gap v indent = Some t
    /\ starts_value t = true
    /\ reads v t
    /\ (depth v <= 2 * String.length t)%nat.

(** ** Palettes that survive the round trip *)

(** A stored number the document keeps as it is: finite, not negative,
    with at most four decimals, and printed with digits that read back. *)
Definition stable (x : float) : bool :=
  PrimFloat.is_finite x && (0 <=? x) && negb (Number.is_neg_zero x)
  && PrimFloat.Leibniz.eqb (roundToFourDecimals x) x
  && number_text_ok x.



Definition black : Color.t := Color.make Undefined 0 0 0 1.

(** The palette of the repository's round-trip test. *)
Definition traffic : ColorPalette.t :=
  ColorPalette.constructor
    [ {| Color.name := Str "Red"; Color.linearRed := 1; Color.linearGreen := 0;
         Color.linearBlue := 0; Color.opacity := 1 |};
      {| Color.name := Str "Green"; Color.linearRed := 0; Color.linearGreen := 1;
         Color.linearBlue := 0; Color.opacity := 0.5 |} ]
    (Str "Test").


(** ** Further parts of the model *)

(** [ColorPalette.createColor]. *)
Definition createColor `{Engine} (options : Options.t) : result Color.t :=
  Color.constructor options.

(** What a caller may pass for [colors]: a value that holds no [Color], a
    [Color] instance, or an array of such arguments. *)
Module Argument.

Inductive t :=
| Plain (v : value)
| Instance (c : Color.t)
| Items (l : list t).

(** [Array.isArray]. *)
Definition isArray (a : t) : bool :=
  match a with
  | Items _ | Plain (Arr _) => true
  | _ => false
  end.

(** The elements of an array. *)
Definition elements (a : t) : list t :=
  match a with
  | Items l => l
  | Plain (Arr l) => map Plain l
  | _ => []
  end.

(** [a instanceof Color]. *)
Definition instanceofColor (a : t) : bool :=
  match a with Instance _ => true | _ => false end.

(** The [Color]s among the elements, in their order. *)
Definition instances (l : list t) : list Color.t :=
  flat_map (fun a => match a with Instance c => [c] | _ => [] end) l.

End Argument.

(** [new ColorPalette({colors, name})] on arguments of any kind: the
    default of [colors], the two checks, and the copy of the array. *)
Definition newColorPalette (colors : Argument.t) (name : value) : result ColorPalette.t :=
  let colors :=
    match colors with Argument.Plain Undefined => Argument.Items [] | a => a end in
  if negb (Argument.isArray colors) then
    Throw TypeError "The `colors` must be an array"
  else
    _ <- for_of (fun color =>
                   if negb (Argument.instanceofColor color)
                   then Throw TypeError "Each color must be an instance of Color"
                   else Ok tt) (Argument.elements colors) ;;
    Ok {| ColorPalette.name := name;
          ColorPalette.colors := Argument.instances (Argument.elements colors) |}.

(** [Object.keys]. *)
Definition keys (v : value) : list string :=
  match v with Obj fs => map fst fs | _ => [] end.

(** ** What the properties are stated with *)

(** What [deserialize] makes of an entry with the name [name] and the
    components [r], [g], [b] and [o]. *)
Definition decoded (name : value) (r g b o : float) : Color.t :=
  {| Color.name := name;
     Color.linearRed := roundToFourDecimals (roundToFourDecimals r);
     Color.linearGreen := roundToFourDecimals (roundToFourDecimals g);
     Color.linearBlue := roundToFourDecimals (roundToFourDecimals b);
     Color.opacity := roundToFourDecimals (clampOpacity (roundToFourDecimals o)) |}.

(** The entry [e] of a document is read as the colour [c]: three or four
    numbers, the opacity 1 when there are three. *)
Definition decodes (e : value) (c : Color.t) : Prop :=
  exists name r g b o alpha,
    Value.get e "name" = Ok name
    /\ Value.get e "components" = Ok (Arr (Num r :: Num g :: Num b :: alpha))
    /\ ((alpha = [] /\ o = 1) \/ alpha = [Num o])
    /\ c = decoded name r g b o.

(** A colour one of whose serialised components is below zero. *)
Definition negative_component (c : Color.t) : bool :=
  existsb (fun x => x <? 0) (Color.json_components c).

(** Strings of ASCII characters: on these a code unit is a character, and
    [trim] and [length] are as the model has them. *)
Definition ascii_only (s : string) : bool :=
  Str.forallb (fun c => (Str.code c <? 128)%Z) s.

(** White space only. *)
Definition spaces (s : string) : bool := Str.forallb Str.is_space s.

(** The strings [fromHexString] has a colour for: hex digits, 3, 4, 6 or
    8 of them, after an optional [#] and inside optional white space. *)
Definition well_formed_hex (hex : string) : bool :=
  let string := Str.trim hex in
  let digits := if Str.startsWith string "#" then Str.slice1 string else string in
  Str.forallb Str.is_hex_digit digits
  && ((String.length digits =? 3)%nat || (String.length digits =? 4)%nat
      || (String.length digits =? 6)%nat || (String.length digits =? 8)%nat).

(** [s.toLowerCase()] on the letters A to Z. *)
Definition lower (c : ascii) : ascii :=
  if (65 <=? Str.code c)%Z && (Str.code c <=? 90)%Z then Str.chr (Str.code c + 32) else c.

Fixpoint toLowerCase (s : string) : string :=
  match s with
  | String c r => String (lower c) (toLowerCase r)
  | EmptyString => EmptyString
  end.

(** The digit a character stands for in [parseInt], if any. *)
Definition hex_digit_value (c : ascii) : option Z :=
  let k := Z.of_nat (nat_of_ascii c) in
  if (48 <=? k)%Z && (k <=? 57)%Z then Some (k - 48)%Z
  else if (97 <=? k)%Z && (k <=? 102)%Z then Some (k - 87)%Z
  else if (65 <=? k)%Z && (k <=? 70)%Z then Some (k - 55)%Z
  else None.

(** The integer a string of hex digits denotes, on top of [acc]. *)
Fixpoint hex_number (s : string) (acc : Z) : Z :=
  match s with
  | String c r => hex_number r (16 * acc + Str.hex_value c)%Z
  | EmptyString => acc
  end.

(** The colour [fromHexNumber] constructs for the integer [n] between 0
    and 0xFFFFFFFF: the layout goes by the magnitude of [n]. *)
Definition hexInteger (n : Z) : Options.t :=
  if (n <=? 0xFFF)%Z then
    Options.rgba (nibble n 8) (nibble n 4) (nibble n 0) 1
  else if (n <=? 0xFFFF)%Z then
    Options.rgba (nibble n 12) (nibble n 8) (nibble n 4) (nibble n 0)
  else if (n <=? 0xFFFFFF)%Z then
    Options.rgba (byte n 16) (byte n 8) (byte n 0) 1
  else
    Options.rgba (byte n 24) (byte n 16) (byte n 8) (byte n 0).

(** The binary64 representation of a positive integer below 2^53. *)
Definition normal (p : positive) : spec_float :=
  S754_finite false
    (match (53 - Zpos (digits2_pos p))%Z with Zpos k => Pos.iter xO p k | _ => p end)
    (Zpos (digits2_pos p) - 53)%Z.

(** [r / 10000] times 10000 rounds back to the integer [r]. *)
Definition on_grid (r : Z) : bool :=
  PrimFloat.Leibniz.eqb (Number.Math_round (Number.of_Z r / 10_000 * 10_000)) (Number.of_Z r).

(** [p] holds of the [n] integers from [z] on. *)
Fixpoint all_from (p : Z -> bool) (z : Z) (n : nat) : bool :=
  match n with
  | O => true
  | S k => p z && all_from p (z + 1)%Z k
  end.

(** A palette with a colour outside the sRGB gamut: its linear red is
    below zero. *)
Definition wide_gamut : ColorPalette.t :=
  ColorPalette.constructor
    [ {| Color.name := Str "Wide"; Color.linearRed := -0.0387; Color.linearGreen := 0;
         Color.linearBlue := 0; Color.opacity := 1 |} ]
    Undefined.

(** The name a document keeps: a falsy name is left out and comes back as
    [undefined]. *)
Definition kept_name (v : value) : value := if Value.truthy v then v else Undefined.

(** A colour whose four stored numbers the document keeps. *)
Definition channels_ok (c : Color.t) : bool :=
  stable (Color.linearRed c) && stable (Color.linearGreen c)
  && stable (Color.linearBlue c)
  && stable (Color.opacity c) && (Color.opacity c <=? 1).

(** The colour with the name the document keeps. *)
Definition renamed (c : Color.t) : Color.t :=
  {| Color.name := kept_name (Color.name c);
     Color.linearRed := Color.linearRed c;
     Color.linearGreen := Color.linearGreen c;
     Color.linearBlue := Color.linearBlue c;
     Color.opacity := Color.opacity c |}.

(** A palette whose name and whose colour's name are empty. *)
Definition unnamed : ColorPalette.t :=
  ColorPalette.constructor
    [ {| Color.name := Str EmptyString; Color.linearRed := 1; Color.linearGreen := 0;
         Color.linearBlue := 0; Color.opacity := 0.5 |} ]
    (Str EmptyString).

(** A number from 0 to 1. *)
Definition in_unit (x : float) : bool := (0 <=? x) && (x <=? 1).

(** An opacity as the data model has it, or NaN. *)
Definition opacity_valid (o : float) : Prop := o = nan \/ in_unit o = true.

(** The colours a program can come to hold: those the constructor, the
    two hex factories and [deserialize] return, and those the setters make
    of them. *)
Inductive reachable `{Engine} : Color.t -> Prop :=
| by_constructor o c : Color.constructor o = Ok c -> reachable c
| by_fromHexNumber h c : Color.fromHexNumber h = Ok c -> reachable c
| by_fromHexString s c : Color.fromHexString s = Ok c -> reachable c
| by_deserialize data p c :
    ColorPalette.deserialize data = Ok p -> In c (ColorPalette.colors p) -> reachable c
| by_set_red c v c' : reachable c -> Color.set_red c v = Ok c' -> reachable c'
| by_set_green c v c' : reachable c -> Color.set_green c v = Ok c' -> reachable c'
| by_set_blue c v c' : reachable c -> Color.set_blue c v = Ok c' -> reachable c'
| by_set_opacity c v c' : reachable c -> Color.set_opacity c v = Ok c' -> reachable c'.

(** The message of a read of a property of [null] or [undefined]. *)
Definition property_access_error (message : string) : Prop :=
  exists k,
    message = "Cannot read properties of undefined (reading '" ++ k ++ "')"
    \/ message = "Cannot read properties of null (reading '" ++ k ++ "')".

(** The errors of the validation of a document. *)
Definition validation_error (cls : errorClass) (message : string) : Prop :=
  (cls = TypeError
   /\ (message = "Colors must be an array" \/ message = "Components must be an array"
       \/ property_access_error message))
  \/ (cls = PlainError
      /\ (message = "Components must have 3 or 4 values"
          \/ message = "Component values must be numbers")).


(** ** Further definitions for the claims *)

#[local] Close Scope float_scope.

(** *** The real numbers of binary64 *)

(** The real number a binary64 number denotes (0 for NaN and the
    infinities). *)
Definition SF2R (f : spec_float) : R :=
  match f with
  | S754_finite s m e =>
      ((if s then (- IZR (Zpos m)) else IZR (Zpos m)) * powerRZ 2 e)%R
  | _ => 0%R
  end.

(** The real number of a Number. *)
Definition to_R (x : float) : R := SF2R (Prim2SF x).

(** A finite number that is not negative. *)
Definition nonneg_finite (f : spec_float) : Prop :=
  f = S754_zero false \/ exists m e, f = S754_finite false m e.

(** The engine's power of [a] and [b] is a finite number within a relative
    1e-10 of the exact power. *)
Definition accurate `{Engine} (a b : float) : Prop :=
  nonneg_finite (Prim2SF (Math_pow a b))
  /\ (Rabs (to_R (Math_pow a b) - Rpower (to_R a) (to_R b))
      <= Rpower (to_R a) (to_R b) / 10 ^ 10)%R.

(** *** Validation *)

(** A component the validation refuses: not a number, or a number below 0. *)
Definition refused (v : value) : Prop :=
  ~ exists n, v = Num n /\ (n <? 0)%float = false.

(** *** Four decimals *)

(** A number with at most four decimals, as the program makes them: the
    quotient by 10000 of an integer. *)
Definition four_decimals (x : float) : Prop :=
  exists i, Number.isInteger i = true /\ x = (i / 10_000)%float.

(** *** What the round trip keeps *)

(** The number a document gives back for [x]: the text of -0 is "0". *)
Definition settle (x : float) : float := if Number.is_neg_zero x then 0%float else x.












#[local] Open Scope float_scope.

(** * Properties *)

(** ** Comparisons of binary64 numbers *)

Section FloatFacts.

Lemma SFcompare_antisym x y :
  SFcompare y x = option_map CompOpp (SFcompare x y).
Proof.
  destruct x as [ [] | [] | | [] mx ex], y as [ [] | [] | | [] my ey]; cbn; try reflexivity;
    rewrite (Z.compare_antisym ex ey); destruct (ex ?= ey)%Z; cbn; try reflexivity;
    replace (Pos.compare_cont Eq my mx) with (CompOpp (Pos.compare_cont Eq mx my))
      by apply (Pos.compare_cont_antisym mx my Eq);
    destruct (Pos.compare_cont Eq mx my); reflexivity.
Qed.

Lemma SFcompare_refl x : x <> S754_nan -> SFcompare x x = Some Eq.
Proof.
  destruct x as [ [] | [] | | [] m e]; cbn; try congruence; intros _;
    now rewrite Z.compare_refl, Pos.compare_cont_refl.
Qed.

Lemma SFcompare_eq x y :
  SFcompare x y = Some Eq ->
  x = y \/ (exists s t, x = S754_zero s /\ y = S754_zero t).
Proof.
  destruct x as [ sx | [] | | [] mx ex], y as [ sy | [] | | [] my ey]; cbn;
    try discriminate; try (now left); try (right; now eauto);
    destruct (Z.compare_spec ex ey) as [->| |]; try discriminate;
    destruct (Pos.compare_cont Eq mx my) eqn:Hm; try discriminate;
    apply Pos.compare_eq in Hm; subst; now left.
Qed.

Lemma ltb_compare x y : (x <? y) = match SFcompare (Prim2SF x) (Prim2SF y) with Some Lt => true | _ => false end.
Proof. now rewrite ltb_spec. Qed.

Lemma is_nan_spec x : PrimFloat.is_nan x = match Prim2SF x with S754_nan => true | _ => false end.
Proof.
  unfold PrimFloat.is_nan. rewrite eqb_spec. unfold SFeqb.
  destruct (Prim2SF x) eqn:E; try reflexivity; now rewrite SFcompare_refl by congruence.
Qed.

End FloatFacts.

(** A comparison of two floats, read on their specifications. *)
Ltac float_spec :=
  unfold Number.strict_neq, Number.strict_eq, PrimFloat.is_zero in *;
  rewrite ?is_nan_spec, ?ltb_spec, ?leb_spec, ?eqb_spec in *;
  unfold SFltb, SFleb, SFeqb in *.

Lemma clamp_above v : (1 <? v) = true -> clampOpacity v = 1.
Proof.
  intros H. unfold clampOpacity, Number.Math_min, Number.Math_max.
  rewrite H.
  replace (PrimFloat.is_nan 1) with false by reflexivity.
  replace (PrimFloat.is_nan v) with false.
  2:{ float_spec. destruct (Prim2SF v); try reflexivity. discriminate. }
  reflexivity.
Qed.

Ltac sf_const c :=
  let v := eval vm_compute in (Prim2SF c) in change (Prim2SF c) with v in *.

Ltac sf_destruct v :=
  float_spec; sf_const 0; sf_const 1;
  destruct (Prim2SF v) as [ [] | [] | | [] ? ?] eqn:?;
  cbv beta iota delta [SFcompare] in *;
  try discriminate; try reflexivity.

Lemma clamp_below v : (v <? 0) = true -> clampOpacity v = 0.
Proof.
  intros H. unfold clampOpacity, Number.Math_min, Number.Math_max.
  replace (PrimFloat.is_nan 1) with false by reflexivity.
  replace (PrimFloat.is_nan 0) with false by reflexivity.
  assert (Hn : PrimFloat.is_nan v = false) by (sf_destruct v).
  assert (H1 : (1 <? v) = false) by (sf_destruct v).
  assert (H2 : (v <? 1) = true) by (sf_destruct v).
  assert (H3 : (0 <? v) = false) by (sf_destruct v).
  now rewrite Hn, H1, H2; cbn; rewrite Hn, H3, H.
Qed.

Lemma eqb_one v : (v =? 1) = true -> v = 1.
Proof.
  intros H. apply Prim2SF_inj. rewrite eqb_spec in H. unfold SFeqb in H.
  destruct (SFcompare (Prim2SF v) (Prim2SF 1)) as [[]|] eqn:E; try discriminate.
  apply SFcompare_eq in E. destruct E as [E|(s & t & _ & E)]; [exact E|].
  vm_compute in E. discriminate.
Qed.

Lemma clamp_inside v :
  (0 <=? v) = true -> (v <=? 1) = true ->
  clampOpacity v = if Number.is_neg_zero v then 0 else v.
Proof.
  intros H0 H1. unfold clampOpacity, Number.Math_min, Number.Math_max.
  replace (PrimFloat.is_nan 1) with false by reflexivity.
  replace (PrimFloat.is_nan 0) with false by reflexivity.
  assert (Hn : PrimFloat.is_nan v = false) by (sf_destruct v).
  assert (H2 : (1 <? v) = false).
  { float_spec. rewrite (SFcompare_antisym (Prim2SF v)).
    destruct (SFcompare (Prim2SF v) (Prim2SF 1)) as [[]|]; try discriminate; reflexivity. }
  rewrite Hn, H2. cbn [orb].
  assert (Hmin : (if v <? 1 then v else if Number.is_neg_zero v then v else 1) = v).
  { destruct (v <? 1) eqn:H3; [reflexivity|].
    destruct (Number.is_neg_zero v); [reflexivity|].
    symmetry. apply eqb_one. float_spec.
    destruct (SFcompare (Prim2SF v) (Prim2SF 1)) as [[]|]; try discriminate; reflexivity. }
  rewrite Hmin, Hn.
  assert (H4 : (v <? 0) = false).
  { float_spec. rewrite (SFcompare_antisym (Prim2SF 0)).
    destruct (SFcompare (Prim2SF 0) (Prim2SF v)) as [[]|]; try discriminate; reflexivity. }
  rewrite H4.
  replace (Number.is_neg_zero 0) with false by reflexivity.
  destruct (0 <? v) eqn:H5.
  - replace (Number.is_neg_zero v) with false; [reflexivity|].
    unfold Number.is_neg_zero. sf_destruct v.
  - (* v is a zero *)
    unfold Number.is_neg_zero. 
    assert (Hz : Prim2SF v = S754_zero true \/ Prim2SF v = S754_zero false).
    { sf_destruct v; auto. }
    destruct Hz as [Hz|Hz]; rewrite Hz; [reflexivity|].
    apply Prim2SF_inj. now rewrite Hz.
Qed.

(** ** The int32 operators *)

Section Int32.
Open Scope Z_scope.

Lemma land_shiftr_wrap z k j :
  0 <= k -> 0 <= j -> k + j <= 32 ->
  Z.land (Z.shiftr (let w := z mod 2 ^ 32 in if 2 ^ 31 <=? w then w - 2 ^ 32 else w) k)
         (2 ^ j - 1)
  = (z / 2 ^ k) mod 2 ^ j.
Proof.
  intros Hk Hj Hkj. cbv zeta.
  assert (Hw : exists q, (if 2 ^ 31 <=? z mod 2 ^ 32 then z mod 2 ^ 32 - 2 ^ 32 else z mod 2 ^ 32)
                         = z + q * 2 ^ 32).
  { destruct (2 ^ 31 <=? z mod 2 ^ 32).
    - exists (- (z / 2 ^ 32) - 1). rewrite (Z.mod_eq z (2 ^ 32)) by lia. ring.
    - exists (- (z / 2 ^ 32)). rewrite (Z.mod_eq z (2 ^ 32)) by lia. ring. }
  destruct Hw as [q ->].
  replace (2 ^ j - 1) with (Z.ones j) by (rewrite Z.ones_equiv; lia).
  rewrite Z.land_ones, Z.shiftr_div_pow2 by lia.
  replace (2 ^ 32) with (2 ^ (32 - k) * 2 ^ k) by (rewrite <- Z.pow_add_r by lia; f_equal; lia).
  rewrite Z.mul_assoc, Z.div_add by lia.
  replace (2 ^ (32 - k)) with (2 ^ (32 - k - j) * 2 ^ j)
    by (rewrite <- Z.pow_add_r by lia; f_equal; lia).
  rewrite Z.mul_assoc. apply Z_mod_plus_full.
Qed.

Lemma sar_and_spec h k j :
  0 <= k -> 0 <= j -> k + j <= 32 ->
  Number.sar_and h k (2 ^ j - 1) = Number.of_Z ((Number.truncate h / 2 ^ k) mod 2 ^ j).
Proof.
  intros. unfold Number.sar_and, Number.ToInt32. f_equal. now apply land_shiftr_wrap.
Qed.

Lemma and_spec h j :
  0 <= j <= 32 ->
  Number.and h (2 ^ j - 1) = Number.of_Z ((Number.truncate h / 2 ^ 0) mod 2 ^ j).
Proof.
  intros. unfold Number.and. rewrite <- (Z.shiftr_0_r (Number.ToInt32 h)).
  apply (sar_and_spec h 0 j); lia.
Qed.

Lemma sar_and_nibble h k :
  0 <= k <= 28 -> Number.sar_and h k 0xF = Number.of_Z ((Number.truncate h / 2 ^ k) mod 16).
Proof. intros. apply (sar_and_spec h k 4); lia. Qed.

Lemma sar_and_byte h k :
  0 <= k <= 24 -> Number.sar_and h k 0xFF = Number.of_Z ((Number.truncate h / 2 ^ k) mod 256).
Proof. intros. apply (sar_and_spec h k 8); lia. Qed.

Lemma and_nibble h : Number.and h 0xF = Number.of_Z ((Number.truncate h / 2 ^ 0) mod 16).
Proof. apply (and_spec h 4); lia. Qed.

Lemma and_byte h : Number.and h 0xFF = Number.of_Z ((Number.truncate h / 2 ^ 0) mod 256).
Proof. apply (and_spec h 8); lia. Qed.

End Int32.

(** ** Hex numbers *)

Section Hex.
Context `{Engine}.

Lemma constructor_rgba r g b o :
  Color.constructor (Options.rgba r g b o)
  = Ok {| Color.name := Undefined;
          Color.linearRed := roundToFourDecimals (sRGBToLinear r);
          Color.linearGreen := roundToFourDecimals (sRGBToLinear g);
          Color.linearBlue := roundToFourDecimals (sRGBToLinear b);
          Color.opacity := roundToFourDecimals (clampOpacity o) |}.
Proof. reflexivity. Qed.

Lemma compare_cont_Z a b : Pos.compare_cont Eq a b = (Zpos a ?= Zpos b)%Z.
Proof. reflexivity. Qed.

(* Case analysis on every integer comparison of the goal, dropping the
   cases the arithmetic excludes. *)
Ltac cmp_props :=
  repeat match goal with
    | |- context [Z.compare ?a ?b] =>
        destruct (Z.compare_spec a b); cbv beta iota; try (exfalso; lia)
    | |- context [Pos.compare_cont Eq ?a ?b] => rewrite (compare_cont_Z a b)
    end.

Lemma above_all h :
  (0xFF_FF_FF_FF <? h) = true ->
  (h <=? 0xF_FF) = false /\ (h <=? 0xFF_FF) = false
  /\ (h <=? 0xFF_FF_FF) = false /\ (h <=? 0xFF_FF_FF_FF) = false.
Proof.
  float_spec.
  sf_const 0xF_FF; sf_const 0xFF_FF; sf_const 0xFF_FF_FF; sf_const 0xFF_FF_FF_FF.
  destruct (Prim2SF h) as [ [] | [] | | [] m e];
    cbv beta iota delta [SFcompare]; try discriminate; try tauto.
  cmp_props; intros Hh; try discriminate Hh; repeat split; reflexivity.
Qed.

Lemma below_some h :
  (h <=? 0xF_FF) = true \/ (h <=? 0xFF_FF) = true
  \/ (h <=? 0xFF_FF_FF) = true \/ (h <=? 0xFF_FF_FF_FF) = true ->
  (0xFF_FF_FF_FF <? h) = false.
Proof.
  intros Hh. destruct (0xFF_FF_FF_FF <? h) eqn:E; [|reflexivity].
  apply above_all in E. destruct E as (E1 & E2 & E3 & E4).
  rewrite E1, E2, E3, E4 in Hh. intuition discriminate.
Qed.

Lemma not_below_max h :
  Number.isInteger h = true -> (h <=? 0xFF_FF_FF_FF) = false ->
  (0xFF_FF_FF_FF <? h) = true.
Proof.
  unfold Number.isInteger. intros Hi Hh. float_spec.
  rewrite (SFcompare_antisym (Prim2SF h)).
  destruct (Prim2SF h) eqn:E; try discriminate;
    destruct (SFcompare _ (Prim2SF 0xFF_FF_FF_FF)) as [[]|] eqn:C;
    try discriminate; try reflexivity; discriminate.
Qed.

Lemma fromHexNumber_invalid_iff h :
  Color.fromHexNumber h = Throw PlainError "Invalid hex value" <-> invalid_hex h.
Proof.
  unfold invalid_hex, Color.fromHexNumber.
  destruct (Number.isInteger h) eqn:Hi; cbn [negb orb]; [|intuition].
  destruct (h <? 0) eqn:Hneg; [intuition|].
  destruct (h <=? 0xF_FF) eqn:H1;
    [|destruct (h <=? 0xFF_FF) eqn:H2;
      [|destruct (h <=? 0xFF_FF_FF) eqn:H3;
        [|destruct (h <=? 0xFF_FF_FF_FF) eqn:H4]]];
    rewrite ?constructor_rgba.
  1-4: split; [discriminate|];
       intros [?|[?|Hc]]; try discriminate;
       rewrite below_some in Hc by tauto; discriminate.
  split; [|reflexivity]. intros _. right; right. now apply not_below_max.
Qed.
End Hex.

Lemma hexNumberSpec_rgba h o :
  hexNumberSpec h = Some o -> exists r g b a, o = Options.rgba r g b a.
Proof.
  unfold hexNumberSpec.
  destruct (negb (Number.isInteger h) || (h <? 0)); [discriminate|].
  destruct (h <=? 0xF_FF); [intros [= <-]; eauto|].
  destruct (h <=? 0xFF_FF); [intros [= <-]; eauto|].
  destruct (h <=? 0xFF_FF_FF); [intros [= <-]; eauto|].
  destruct (h <=? 0xFF_FF_FF_FF); [intros [= <-]; eauto|discriminate].
Qed.

Lemma fromHexNumber_refines `{Engine} h :
  Color.fromHexNumber h
  = match hexNumberSpec h with
    | Some o => Color.constructor o
    | None => Throw PlainError "Invalid hex value"
    end.
Proof.
  unfold Color.fromHexNumber, hexNumberSpec, nibble, byte.
  destruct (negb (Number.isInteger h) || (h <? 0)); [reflexivity|].
  rewrite !sar_and_nibble, !sar_and_byte, and_nibble, and_byte by lia.
  destruct (h <=? 0xF_FF); [reflexivity|].
  destruct (h <=? 0xFF_FF); [reflexivity|].
  destruct (h <=? 0xFF_FF_FF); [reflexivity|].
  destruct (h <=? 0xFF_FF_FF_FF); reflexivity.
Qed.

(** C9: [Color.fromHexNumber h] throws the error "Invalid hex value" if
    and only if [h] is not an integer, is negative or is greater than
    0xFFFFFFFF.  On every other [h] it returns the colour constructed from
    the fields the specification names: three nibbles over 15 up to 0xFFF,
    four nibbles up to 0xFFFF, three bytes over 255 up to 0xFFFFFF and four
    bytes up to 0xFFFFFFFF. *)
Theorem fromHexNumber_spec `{Engine} h :
  (Color.fromHexNumber h = Throw PlainError "Invalid hex value" <-> invalid_hex h)
  /\ (hexNumberSpec h = None <-> invalid_hex h)
  /\ Color.fromHexNumber h
     = match hexNumberSpec h with
       | Some o => Color.constructor o
       | None => Throw PlainError "Invalid hex value"
       end
  /\ (~ invalid_hex h -> exists c, Color.fromHexNumber h = Ok c).
Proof.
  pose proof (fromHexNumber_refines h) as Heq.
  pose proof (fromHexNumber_invalid_iff h) as Hiff.
  assert (Hnone : hexNumberSpec h = None <-> invalid_hex h).
  { split.
    - intros E. apply Hiff. rewrite Heq, E. reflexivity.
    - intros Hi. apply Hiff in Hi. rewrite Heq in Hi.
      destruct (hexNumberSpec h) as [o|] eqn:E; [|reflexivity].
      destruct (hexNumberSpec_rgba h o E) as (r & g & b & a & ->).
      rewrite constructor_rgba in Hi. discriminate. }
  split; [exact Hiff | split; [exact Hnone | split; [exact Heq |]]].
  intros Hn. rewrite Heq. destruct (hexNumberSpec h) as [o|] eqn:E.
  - destruct (hexNumberSpec_rgba h o E) as (r & g & b & a & ->).
    rewrite constructor_rgba. eauto.
  - exfalso. apply Hn, Hnone. reflexivity.
Qed.

(** ** Non-finite numbers *)

Lemma nonfinite_cases x :
  PrimFloat.is_finite x = false -> x = nan \/ x = infinity \/ x = neg_infinity.
Proof.
  unfold PrimFloat.is_finite, PrimFloat.is_infinity.
  rewrite is_nan_spec, eqb_spec, abs_spec. sf_const infinity.
  destruct (Prim2SF x) as [ s | [] | | s m e] eqn:E;
    cbv beta iota delta [SFabs SFeqb SFcompare negb orb]; try discriminate; intros _.
  - right; right. apply Prim2SF_inj. rewrite E. reflexivity.
  - right; left. apply Prim2SF_inj. rewrite E. reflexivity.
  - left. apply Prim2SF_inj. rewrite E. reflexivity.
Qed.

Section NonFinite.
Context `{Engine}.

Lemma sRGBToLinear_nonfinite x :
  PrimFloat.is_finite x = false -> sRGBToLinear x = x.
Proof.
  intros Hx. destruct (nonfinite_cases x Hx) as [-> | [-> | ->]]; unfold sRGBToLinear.
  - replace (nan <=? 0.040_45) with false by reflexivity.
    replace ((nan + 0.055) / 1.055) with nan by reflexivity.
    apply Math_pow_nan; reflexivity.
  - replace (infinity <=? 0.040_45) with false by reflexivity.
    replace ((infinity + 0.055) / 1.055) with infinity by reflexivity.
    apply Math_pow_infinity; reflexivity.
  - reflexivity.
Qed.

Lemma round_nonfinite x :
  PrimFloat.is_finite x = false -> roundToFourDecimals x = x.
Proof.
  intros Hx. destruct (nonfinite_cases x Hx) as [-> | [-> | ->]]; reflexivity.
Qed.

Lemma clamp_nonfinite x :
  PrimFloat.is_finite x = false ->
  roundToFourDecimals (clampOpacity x) = clamped_nonfinite x
  /\ clampOpacity x = clamped_nonfinite x.
Proof.
  intros Hx. destruct (nonfinite_cases x Hx) as [-> | [-> | ->]]; split; reflexivity.
Qed.

Lemma stringify_nonfinite x gap indent :
  PrimFloat.is_finite x = false -> JSON.serialize gap (Num x) indent = Some "null"%string.
Proof. intros Hx. cbn. now rewrite Hx. Qed.

End NonFinite.


(** ** [JSON.parse] reads what [JSON.stringify] prints *)

Section JsonText.
Close Scope float_scope.
Close Scope Z_scope.

(** *** Strings *)

Lemma append_assoc (a b c : string) : (a ++ b) ++ c = a ++ (b ++ c).
Proof. induction a as [|x a IH]; cbn; [reflexivity | now rewrite IH]. Qed.

Lemma append_nil_r (a : string) : a ++ "" = a.
Proof. induction a as [|x a IH]; cbn; [reflexivity | now rewrite IH]. Qed.

Lemma length_append (a b : string) :
  String.length (a ++ b) = (String.length a + String.length b)%nat.
Proof. induction a as [|x a IH]; cbn; [reflexivity | now rewrite IH]. Qed.

Lemma skip_ws_blank w s : blank w = true -> JSON.skip_ws (w ++ s) = JSON.skip_ws s.
Proof.
  induction w as [|c w IH]; cbn; [reflexivity|].
  rewrite andb_true_iff. intros [Hc Hw]. now rewrite Hc, IH.
Qed.

Lemma skip_ws_solid s : solid s = true -> JSON.skip_ws s = s.
Proof. destruct s as [|c s]; cbn; [discriminate|]. rewrite negb_true_iff. now intros ->. Qed.

Lemma skip_ws_solid_app s r : solid s = true -> JSON.skip_ws (s ++ r) = s ++ r.
Proof. destruct s as [|c s]; cbn; [discriminate|]. rewrite negb_true_iff. now intros ->. Qed.

Lemma blank_app a b : blank a = true -> blank b = true -> blank (a ++ b) = true.
Proof.
  unfold blank. induction a as [|c a IH]; cbn; [auto|].
  rewrite !andb_true_iff. intros [Hc Ha] Hb. auto.
Qed.

Lemma delimited_not c r (p : ascii -> bool) :
  delimited (String c r) = true -> (forall x, p x = true -> number_char x = true) -> p c = false.
Proof.
  cbn. rewrite negb_true_iff. intros Hc Hp. destruct (p c) eqn:E; [|reflexivity].
  apply Hp in E. congruence.
Qed.

(** *** Numbers *)

Lemma digits_app t r acc n :
  delimited r = true ->
  JSON.digits (t ++ r) acc n
  = let '(v, k, t') := JSON.digits t acc n in (v, k, t' ++ r).
Proof.
  intros Hr. revert acc n. induction t as [|c t IH]; intros acc n; cbn.
  - destruct r as [|c r]; cbn; [reflexivity|].
    assert (E : Str.is_digit c = false).
    { apply (delimited_not c r Str.is_digit Hr). intros x Hx. unfold number_char. now rewrite Hx. }
    now rewrite E.
  - destruct (Str.is_digit c); [apply IH | reflexivity].
Qed.

Lemma char_not_number c r (k : Z) :
  delimited (String c r) = true ->
  number_char (Str.chr k) = true -> (0 <= k < 256)%Z ->
  (Str.code c =? k)%Z = false.
Proof.
  cbn. rewrite negb_true_iff. intros Hc Hk Hb.
  destruct (Str.code c =? k)%Z eqn:E; [|reflexivity].
  apply Z.eqb_eq in E. rewrite <- E in Hk. unfold Str.chr, Str.code in Hk.
  rewrite Nat2Z.id, ascii_nat_embedding in Hk. congruence.
Qed.

Ltac not_number H k :=
  rewrite (char_not_number _ _ k H) by (try (vm_compute; reflexivity); lia).

Lemma parse_fraction_app s int x s' r :
  JSON.parse_fraction s int = JSON.POk x s' -> delimited r = true ->
  JSON.parse_fraction (s ++ r) int = JSON.POk x (s' ++ r).
Proof.
  intros Hp Hr. unfold JSON.parse_fraction in *. destruct s as [|c s]; cbn [append].
  - injection Hp as <- <-. destruct r as [|c r]; [reflexivity|].
    not_number Hr 46%Z. reflexivity.
  - destruct (Str.code c =? 46)%Z; [|now injection Hp as <- <-].
    rewrite (digits_app s r int 0 Hr).
    destruct (JSON.digits s int 0) as [[v n] r1].
    destruct (n =? 0)%Z; [discriminate|]. now injection Hp as <- <-.
Qed.

Lemma parse_exponent_app s e s' r :
  JSON.parse_exponent s = JSON.POk e s' -> delimited r = true ->
  JSON.parse_exponent (s ++ r) = JSON.POk e (s' ++ r).
Proof.
  intros Hp Hr. unfold JSON.parse_exponent in *. destruct s as [|c s]; cbn [append].
  - injection Hp as <- <-. destruct r as [|c r]; [reflexivity|].
    not_number Hr 101%Z. not_number Hr 69%Z. reflexivity.
  - destruct ((Str.code c =? 101)%Z || (Str.code c =? 69)%Z); [|now injection Hp as <- <-].
    destruct s as [|d s]; cbn [append].
    + cbn in Hp. discriminate.
    + destruct (Str.code d =? 45)%Z.
      * rewrite (digits_app s r 0 0 Hr).
        destruct (JSON.digits s 0 0) as [[v n] r1].
        destruct (n =? 0)%Z; [discriminate|]. now injection Hp as <- <-.
      * destruct (Str.code d =? 43)%Z.
        -- rewrite (digits_app s r 0 0 Hr).
           destruct (JSON.digits s 0 0) as [[v n] r1].
           destruct (n =? 0)%Z; [discriminate|]. now injection Hp as <- <-.
        -- change (String d (s ++ r)) with (String d s ++ r).
           rewrite (digits_app (String d s) r 0 0 Hr).
           destruct (JSON.digits (String d s) 0 0) as [[v n] r1].
           destruct (n =? 0)%Z; [discriminate|]. now injection Hp as <- <-.
Qed.

Lemma parse_unsigned_app sg s1 v t' r :
  JSON.parse_unsigned sg s1 = JSON.POk v t' -> delimited r = true ->
  JSON.parse_unsigned sg (s1 ++ r) = JSON.POk v (t' ++ r).
Proof.
  intros H1 Hr. unfold JSON.parse_unsigned in *.
  destruct s1 as [|c r0]; [discriminate|]. cbn [append].
  destruct (Str.is_digit c); [|discriminate].
  assert (Hint : forall int s2,
    match JSON.parse_fraction s2 int with
    | JSON.PFail a => JSON.PFail a
    | JSON.POk (m, nfrac) s3 =>
        match JSON.parse_exponent s3 with
        | JSON.PFail a => JSON.PFail a
        | JSON.POk e s4 => JSON.POk (Num (Number.of_decimal sg m (e - nfrac))) s4
        end
    end = JSON.POk v t' ->
    match JSON.parse_fraction (s2 ++ r) int with
    | JSON.PFail a => JSON.PFail a
    | JSON.POk (m, nfrac) s3 =>
        match JSON.parse_exponent s3 with
        | JSON.PFail a => JSON.PFail a
        | JSON.POk e s4 => JSON.POk (Num (Number.of_decimal sg m (e - nfrac))) s4
        end
    end = JSON.POk v (t' ++ r)).
  { intros int s2 H2.
    destruct (JSON.parse_fraction s2 int) as [[m nfrac] s3|] eqn:Ef; [|discriminate].
    rewrite (parse_fraction_app _ _ _ _ r Ef Hr).
    destruct (JSON.parse_exponent s3) as [e s4|] eqn:Ee; [|discriminate].
    rewrite (parse_exponent_app _ _ _ r Ee Hr).
    now injection H2 as <- <-. }
  destruct (Str.code c =? 48)%Z; [now apply Hint|].
  change (String c (r0 ++ r)) with (String c r0 ++ r).
  rewrite (digits_app (String c r0) r 0 0 Hr).
  destruct (JSON.digits (String c r0) 0 0) as [[v0 n0] r'].
  now apply Hint.
Qed.

Lemma parse_number_app t v t' r :
  JSON.parse_number t = JSON.POk v t' -> delimited r = true ->
  JSON.parse_number (t ++ r) = JSON.POk v (t' ++ r).
Proof.
  intros Hp Hr. unfold JSON.parse_number in *.
  destruct t as [|c t]; [discriminate|]. cbn [append].
  destruct (Str.code c =? 45)%Z.
  - now apply parse_unsigned_app.
  - change (String c (t ++ r)) with (String c t ++ r). now apply parse_unsigned_app.
Qed.

Lemma number_text_parses x r :
  number_text_ok x = true -> delimited r = true ->
  JSON.parse_number (NumberToString.toString x ++ r) = JSON.POk (Num x) r.
Proof.
  unfold number_text_ok. intros Hx Hr.
  destruct (JSON.parse_number (NumberToString.toString x)) as [[ | | |y| | | ] [|? ?]|] eqn:E;
    try discriminate.
  apply Leibniz.eqb_spec in Hx. subst y.
  now rewrite (parse_number_app _ _ _ r E Hr).
Qed.

Lemma parse_number_head t v t' :
  JSON.parse_number t = JSON.POk v t' ->
  exists c t0, t = String c t0 /\ ((Str.code c =? 45)%Z || Str.is_digit c) = true.
Proof.
  unfold JSON.parse_number, JSON.parse_unsigned. destruct t as [|c t]; [discriminate|].
  intros Hp. exists c, t. split; [reflexivity|].
  destruct (Str.code c =? 45)%Z; [reflexivity|]. cbn [orb].
  destruct (Str.is_digit c); [reflexivity | discriminate].
Qed.

(** *** String literals *)

Lemma chr_code c : Str.chr (Str.code c) = c.
Proof. unfold Str.chr, Str.code. now rewrite Nat2Z.id, ascii_nat_embedding. Qed.

Lemma code_chr k : (0 <= k < 256)%Z -> Str.code (Str.chr k) = k.
Proof.
  intros Hk. unfold Str.chr, Str.code. rewrite nat_ascii_embedding by lia. lia.
Qed.

Lemma code_eq c k : (Str.code c =? k)%Z = true -> c = Str.chr k.
Proof. intros E. apply Z.eqb_eq in E. now rewrite <- E, chr_code. Qed.

Lemma code_range c : (0 <= Str.code c < 256)%Z.
Proof. unfold Str.code. pose proof (nat_ascii_bounded c). lia. Qed.

Lemma hex_digit_ok k :
  (0 <= k < 16)%Z ->
  Str.is_hex_digit (JSON.hex_digit k) = true /\ Str.hex_value (JSON.hex_digit k) = k.
Proof.
  intros Hk.
  assert (E : (k = 0 \/ k = 1 \/ k = 2 \/ k = 3 \/ k = 4 \/ k = 5 \/ k = 6 \/ k = 7
              \/ k = 8 \/ k = 9 \/ k = 10 \/ k = 11 \/ k = 12 \/ k = 13 \/ k = 14
              \/ k = 15)%Z) by lia.
  repeat (destruct E as [-> | E]; [split; vm_compute; reflexivity|]).
  subst. split; vm_compute; reflexivity.
Qed.

(** One step of [parse_string] on a character that needs no escape. *)
Lemma parse_string_plain c s :
  (Str.code c =? 34)%Z = false -> (Str.code c <? 32)%Z = false ->
  (Str.code c =? 92)%Z = false ->
  JSON.parse_string (String c s)
  = match JSON.parse_string s with
    | JSON.POk t rest => JSON.POk (String c t) rest
    | JSON.PFail a => JSON.PFail a
    end.
Proof. intros H1 H2 H3. cbn [JSON.parse_string]. now rewrite H1, H2, H3. Qed.

(** One step on a two-character escape. *)
Lemma parse_string_simple e ch s :
  JSON.parse_string s = JSON.POk (fst ch) (snd ch) ->
  forall k,
  (let n := Str.code e in
   if (n =? 34) || (n =? 92) || (n =? 47) then Some n
   else if n =? 98 then Some 8
   else if n =? 102 then Some 12
   else if n =? 110 then Some 10
   else if n =? 114 then Some 13
   else if n =? 116 then Some 9
   else None)%Z = Some k ->
  JSON.parse_string (String (Str.chr 92) (String e s))
  = JSON.POk (String (Str.chr k) (fst ch)) (snd ch).
Proof.
  intros Hs k Hk. cbn [JSON.parse_string].
  replace (Str.code (Str.chr 92) =? 34)%Z with false by reflexivity.
  replace (Str.code (Str.chr 92) <? 32)%Z with false by reflexivity.
  replace (Str.code (Str.chr 92) =? 92)%Z with true by reflexivity.
  cbv zeta in Hk |- *.
  destruct ((Str.code e =? 34) || (Str.code e =? 92) || (Str.code e =? 47))%Z;
    [injection Hk as <-; now rewrite Hs|].
  destruct (Str.code e =? 98)%Z; [injection Hk as <-; now rewrite Hs|].
  destruct (Str.code e =? 102)%Z; [injection Hk as <-; now rewrite Hs|].
  destruct (Str.code e =? 110)%Z; [injection Hk as <-; now rewrite Hs|].
  destruct (Str.code e =? 114)%Z; [injection Hk as <-; now rewrite Hs|].
  destruct (Str.code e =? 116)%Z; [injection Hk as <-; now rewrite Hs|].
  discriminate.
Qed.

Lemma parse_string_u n s t rest :
  (0 <= n < 32)%Z ->
  JSON.parse_string s = JSON.POk t rest ->
  JSON.parse_string
    (String (Str.chr 92) (String (Str.chr 117) (String "0" (String "0"
       (String (JSON.hex_digit (n / 16)) (String (JSON.hex_digit (n mod 16)) s))))))
  = JSON.POk (String (Str.chr n) t) rest.
Proof.
  intros Hn Hs.
  destruct (hex_digit_ok (n / 16)) as [H1 V1];
    [split; [apply Z.div_pos; lia | apply Z.div_lt_upper_bound; lia]|].
  destruct (hex_digit_ok (n mod 16)) as [H2 V2]; [apply Z.mod_pos_bound; lia|].
  cbn [JSON.parse_string].
  replace (Str.code (Str.chr 92) =? 34)%Z with false by reflexivity.
  replace (Str.code (Str.chr 92) <? 32)%Z with false by reflexivity.
  replace (Str.code (Str.chr 92) =? 92)%Z with true by reflexivity.
  cbv zeta.
  replace (Str.code (Str.chr 117)) with 117%Z by reflexivity.
  cbn [Z.eqb Pos.eqb orb].
  replace (Str.is_hex_digit "0") with true by reflexivity.
  rewrite H1, H2, Hs. cbn [andb].
  replace (Str.hex_value "0") with 0%Z by reflexivity.
  rewrite V1, V2.
  replace (4096 * 0 + 256 * 0 + 16 * (n / 16) + n mod 16)%Z with n
    by (rewrite (Z.div_mod n 16) at 1 by lia; lia).
  unfold JSON.utf8. replace (n <? 128)%Z with true by (symmetry; apply Z.ltb_lt; lia).
  reflexivity.
Qed.

Lemma parse_string_escape s r :
  JSON.parse_string (JSON.escape s ++ Str.dquote ++ r) = JSON.POk s r.
Proof.
  induction s as [|c s IH].
  - reflexivity.
  - cbn [JSON.escape]. cbv zeta.
    pose proof (code_range c) as Hc.
    assert (Hsimple : forall k e,
      (let n := Str.code e in
       if (n =? 34) || (n =? 92) || (n =? 47) then Some n
       else if n =? 98 then Some 8
       else if n =? 102 then Some 12
       else if n =? 110 then Some 10
       else if n =? 114 then Some 13
       else if n =? 116 then Some 9
       else None)%Z = Some k ->
      Str.chr k = c ->
      JSON.parse_string
        (String (Str.chr 92) (String e (JSON.escape s)) ++ Str.dquote ++ r)
      = JSON.POk (String c s) r).
    { intros k e Hk <-. cbn [append].
      apply (parse_string_simple e (s, r) _ IH k Hk). }
    destruct ((Str.code c =? 34) || (Str.code c =? 92))%Z eqn:E1.
    { apply (Hsimple (Str.code c)); [|apply chr_code].
      cbv zeta. rewrite code_chr by lia.
      apply orb_true_iff in E1. destruct E1 as [E1|E1]; rewrite E1; [reflexivity|].
      now rewrite orb_true_r. }
    apply orb_false_iff in E1. destruct E1 as [E34 E92].
    destruct (Str.code c =? 8)%Z eqn:E8.
    { apply (Hsimple 8%Z); [reflexivity | symmetry; now apply code_eq]. }
    destruct (Str.code c =? 12)%Z eqn:E12.
    { apply (Hsimple 12%Z); [reflexivity | symmetry; now apply code_eq]. }
    destruct (Str.code c =? 10)%Z eqn:E10.
    { apply (Hsimple 10%Z); [reflexivity | symmetry; now apply code_eq]. }
    destruct (Str.code c =? 13)%Z eqn:E13.
    { apply (Hsimple 13%Z); [reflexivity | symmetry; now apply code_eq]. }
    destruct (Str.code c =? 9)%Z eqn:E9.
    { apply (Hsimple 9%Z); [reflexivity | symmetry; now apply code_eq]. }
    destruct (Str.code c <? 32)%Z eqn:E32.
    { cbn [append]. rewrite (parse_string_u (Str.code c) _ s r); [now rewrite chr_code| |exact IH].
      apply Z.ltb_lt in E32. lia. }
    cbn [append]. rewrite parse_string_plain by assumption. now rewrite IH.
Qed.

(** A quoted string reads back. *)
Lemma parse_quote s r :
  exists body, JSON.quote s ++ r = String Str.dquote_char body
               /\ JSON.parse_string body = JSON.POk s r.
Proof.
  exists (JSON.escape s ++ Str.dquote ++ r). split.
  - unfold JSON.quote. cbn. now rewrite append_assoc.
  - apply parse_string_escape.
Qed.

(** *** Documents that read back *)

Lemma depth_Arr l : depth (Arr l) = S (depths (map depth l)).
Proof. cbn [depth]. f_equal. induction l as [|x l IH]; cbn; [reflexivity | now rewrite IH]. Qed.

Lemma depth_Obj fs : depth (Obj fs) = S (depths (map (fun kv => depth (snd kv)) fs)).
Proof.
  cbn [depth]. f_equal. induction fs as [|[k x] fs IH]; cbn; [reflexivity | now rewrite IH].
Qed.

Lemma clean_Arr l : clean (Arr l) = forallb clean l.
Proof. cbn [clean]. induction l as [|x l IH]; cbn; [reflexivity | now rewrite IH]. Qed.

Lemma clean_Obj fs :
  clean (Obj fs) = forallb (fun kv => clean (snd kv)) fs && distinct (map fst fs).
Proof.
  cbn [clean]. f_equal. induction fs as [|[k x] fs IH]; cbn; [reflexivity | now rewrite IH].
Qed.

Lemma serialize_Arr gap l indent :
  JSON.serialize gap (Arr l) indent
  = Some (JSON.wrap "[" "]" indent gap (map (element_text gap (indent ++ gap)) l)).
Proof.
  cbn [JSON.serialize]. apply f_equal. apply f_equal.
  induction l as [|x l IH]; [reflexivity|]. cbn [map]. now rewrite <- IH.
Qed.

Lemma serialize_Obj gap fs indent :
  forallb (fun kv => clean (snd kv)) fs = true ->
  (forall kv, In kv fs -> exists t, JSON.serialize gap (snd kv) (indent ++ gap) = Some t) ->
  JSON.serialize gap (Obj fs) indent
  = Some (JSON.wrap "{" "}" indent gap (map (member_text gap (indent ++ gap)) fs)).
Proof.
  intros _ Hs. cbn [JSON.serialize]. apply f_equal. apply f_equal.
  induction fs as [|[k x] fs IH]; [reflexivity|]. cbn [map].
  destruct (Hs (k, x) (or_introl eq_refl)) as [t Ht]. cbn [snd] in Ht.
  unfold member_text, element_text. cbn [fst snd]. rewrite Ht.
  apply f_equal. apply IH. intros kv Hin. apply Hs. now right.
Qed.

Lemma join_seq sep ts tail : JSON.join sep ts ++ tail = seq_text sep ts tail.
Proof.
  induction ts as [|t [|t' r] IH]; cbn [JSON.join seq_text]; try reflexivity.
  cbn [JSON.join seq_text] in IH. now rewrite !append_assoc, IH.
Qed.

Lemma parse_value_skip f w s :
  blank w = true -> JSON.parse_value (S f) (w ++ s) = JSON.parse_value (S f) s.
Proof.
  intros Hw. cbn [JSON.parse_value]. now rewrite (skip_ws_blank w s Hw).
Qed.

Lemma starts_value_solid t : starts_value t = true -> solid t = true.
Proof. destruct t as [|c t]; cbn; [auto|]. now rewrite andb_true_iff. Qed.

Lemma blank_delimited w c rest :
  blank w = true -> number_char c = false -> delimited (w ++ String c rest) = true.
Proof.
  destruct w as [|d w]; cbn.
  - now intros _ ->.
  - rewrite andb_true_iff. intros [Hd _] _. unfold JSON.is_ws in Hd. cbv zeta in Hd.
    unfold number_char, Str.is_digit. cbv zeta.
    destruct (Str.code d =? 32)%Z eqn:E1; [apply Z.eqb_eq in E1; rewrite E1; reflexivity|].
    destruct (Str.code d =? 9)%Z eqn:E2; [apply Z.eqb_eq in E2; rewrite E2; reflexivity|].
    destruct (Str.code d =? 10)%Z eqn:E3; [apply Z.eqb_eq in E3; rewrite E3; reflexivity|].
    destruct (Str.code d =? 13)%Z eqn:E4; [apply Z.eqb_eq in E4; rewrite E4; reflexivity|].
    discriminate.
Qed.

Lemma list_eq_dec_nil {A} (l : list A) : {l = []} + {l <> []}.
Proof. destruct l; [now left | right; congruence]. Qed.

Lemma seq_text_one sep t tail : seq_text sep [t] tail = t ++ tail.
Proof. reflexivity. Qed.

Lemma seq_text_cons sep t ts tail :
  ts <> [] -> seq_text sep (t :: ts) tail = t ++ sep ++ seq_text sep ts tail.
Proof. destruct ts; [congruence | reflexivity]. Qed.

Lemma comma_sep w x : ("," ++ w) ++ x = String "," (w ++ x).
Proof. reflexivity. Qed.

Lemma map_not_nil {A B} (f : A -> B) (l : list A) : l <> [] -> map f l <> [].
Proof. destruct l; cbn; congruence. Qed.

Lemma parse_elements_S f s acc :
  JSON.parse_elements (S f) s acc
  = match JSON.parse_value f s with
    | JSON.PFail a => JSON.PFail a
    | JSON.POk v rest =>
        match JSON.skip_ws rest with
        | String d r =>
            if (Str.code d =? 44)%Z then JSON.parse_elements f r (v :: acc)
            else if (Str.code d =? 93)%Z then JSON.POk (Arr (List.rev (v :: acc))) r
            else JSON.PFail (JSON.skip_ws rest)
        | EmptyString => JSON.PFail EmptyString
        end
    end.
Proof. reflexivity. Qed.

Section Elements.
Variables (w wc rest : string).
Hypothesis (Hw : blank w = true) (Hwc : blank wc = true).

Lemma parse_elements_items (items : list (value * string)) :
  Forall (fun it => reads (fst it) (snd it)) items ->
  items <> [] ->
  forall f acc w0,
    blank w0 = true ->
    (depths (map (fun it => depth (fst it)) items) <= f)%nat ->
    JSON.parse_elements f
      (w0 ++ seq_text ("," ++ w) (map snd items) (wc ++ "]" ++ rest)) acc
    = JSON.POk (Arr (List.rev acc ++ map fst items)) rest.
Proof.
  induction items as [|[v t] items IH]; [congruence|].
  intros Hall _ f acc w0 Hw0 Hf.
  inversion Hall as [|? ? Hv Hrest]; subst. cbn [fst snd] in Hv.
  cbn [map depths fst snd] in Hf.
  destruct f as [|f]; [lia|].
  assert (Hdv : (depth v <= f)%nat) by lia.
  assert (Hf' : exists f', f = S f').
  { destruct f; [|eauto]. destruct v; cbn in Hdv; lia. }
  destruct Hf' as [f' ->].
  rewrite parse_elements_S, (parse_value_skip f' w0 _ Hw0).
  cbn [map fst snd].
  destruct (list_eq_dec_nil items) as [-> | Hne].
  - cbn [map]. rewrite seq_text_one.
    rewrite (Hv (S f') (wc ++ "]" ++ rest) Hdv)
      by (apply blank_delimited; [assumption | reflexivity]).
    rewrite (skip_ws_blank wc _ Hwc). cbn [append JSON.skip_ws].
    replace (JSON.is_ws "]") with false by reflexivity.
    replace (Str.code "]" =? 44)%Z with false by reflexivity.
    replace (Str.code "]" =? 93)%Z with true by reflexivity.
    cbn [List.rev]. reflexivity.
  - rewrite seq_text_cons by (now apply map_not_nil).
    rewrite (Hv (S f') _ Hdv) by reflexivity.
    rewrite comma_sep. cbn [JSON.skip_ws].
    replace (JSON.is_ws ",") with false by reflexivity.
    replace (Str.code "," =? 44)%Z with true by reflexivity.
    rewrite (IH Hrest Hne (S f') (v :: acc) w Hw) by lia.
    cbn [List.rev]. now rewrite <- app_assoc.
Qed.
End Elements.

Lemma distinct_NoDup ks : distinct ks = true -> NoDup ks.
Proof.
  induction ks as [|k ks IH]; cbn; [constructor|].
  rewrite andb_true_iff, negb_true_iff. intros [Hk Hks]. constructor; [|auto].
  intros Hin. assert (E : existsb (String.eqb k) ks = true).
  { apply existsb_exists. exists k. split; [assumption | apply String.eqb_refl]. }
  congruence.
Qed.

Lemma set_fresh k v acc :
  ~ In k (map fst acc) -> Value.set k v acc = (acc ++ [(k, v)])%list.
Proof.
  induction acc as [|[k' v'] acc IH]; cbn; [reflexivity|].
  intros Hn. destruct (String.eqb k k') eqn:E.
  - apply String.eqb_eq in E. subst. exfalso. apply Hn. now left.
  - rewrite IH; [reflexivity|]. intros Hin. apply Hn. now right.
Qed.

Lemma parse_members_S f s acc :
  JSON.parse_members (S f) s acc
  = match JSON.expect 34 (JSON.skip_ws s) with
    | JSON.PFail a => JSON.PFail a
    | JSON.POk _ r0 =>
        match JSON.parse_string r0 with
        | JSON.PFail a => JSON.PFail a
        | JSON.POk k r1 =>
            match JSON.expect 58 (JSON.skip_ws r1) with
            | JSON.PFail a => JSON.PFail a
            | JSON.POk _ r2 =>
                match JSON.parse_value f r2 with
                | JSON.PFail a => JSON.PFail a
                | JSON.POk v rest =>
                    match JSON.skip_ws rest with
                    | String d r =>
                        if (Str.code d =? 44)%Z
                        then JSON.parse_members f r (Value.set k v acc)
                        else if (Str.code d =? 125)%Z
                             then JSON.POk (Obj (Value.set k v acc)) r
                             else JSON.PFail (JSON.skip_ws rest)
                    | EmptyString => JSON.PFail EmptyString
                    end
                end
            end
        end
    end.
Proof. reflexivity. Qed.

Section Members.
Variables (w wc sp rest : string).
Hypothesis (Hw : blank w = true) (Hwc : blank wc = true) (Hsp : blank sp = true).

Lemma parse_member_head k t tail :
  exists body,
    member sp ((k, Undefined), t) ++ tail = String Str.dquote_char body
    /\ JSON.parse_string body = JSON.POk k (String ":" (sp ++ t ++ tail)).
Proof.
  destruct (parse_quote k (":" ++ sp ++ t ++ tail)) as (body & Hb & Hp).
  exists body. split; [|exact Hp].
  unfold member. cbn [fst snd]. rewrite <- Hb. now rewrite !append_assoc.
Qed.

Lemma parse_members_items (items : list ((string * value) * string)) :
  Forall (fun it => reads (snd (fst it)) (snd it)) items ->
  items <> [] ->
  forall f acc w0,
    blank w0 = true ->
    (depths (map (fun it => depth (snd (fst it))) items) <= f)%nat ->
    NoDup (map fst acc ++ map (fun it => fst (fst it)) items) ->
    JSON.parse_members f
      (w0 ++ seq_text ("," ++ w) (map (member sp) items) (wc ++ "}" ++ rest)) acc
    = JSON.POk (Obj (acc ++ map fst items)) rest.
Proof.
  induction items as [|[[k v] t] items IH]; [congruence|].
  intros Hall _ f acc w0 Hw0 Hf Hnd.
  inversion Hall as [|? ? Hv Hrest]; subst. cbn [fst snd] in Hv.
  cbn [map depths fst snd] in Hf.
  destruct f as [|f]; [lia|].
  assert (Hdv : (depth v <= f)%nat) by lia.
  assert (Hf' : exists f', f = S f').
  { destruct f; [|eauto]. destruct v; cbn in Hdv; lia. }
  destruct Hf' as [f' ->].
  assert (Hfresh : ~ In k (map fst acc)).
  { cbn [map fst] in Hnd. apply NoDup_remove_2 in Hnd. intros Hin. apply Hnd.
    apply in_or_app. now left. }
  assert (Hstep : forall tail,
    delimited tail = true ->
    JSON.parse_members (S (S f')) (w0 ++ member sp ((k, v), t) ++ tail) acc
    = match JSON.skip_ws tail with
      | String d r =>
          if (Str.code d =? 44)%Z
          then JSON.parse_members (S f') r (acc ++ [(k, v)])%list
          else if (Str.code d =? 125)%Z
               then JSON.POk (Obj (acc ++ [(k, v)])%list) r
               else JSON.PFail (JSON.skip_ws tail)
      | EmptyString => JSON.PFail EmptyString
      end).
  { intros tail Htail. rewrite parse_members_S, (skip_ws_blank w0 _ Hw0).
    destruct (parse_member_head k t tail) as (body & Hb & Hp).
    change (member sp (k, v, t)) with (member sp (k, Undefined, t)).
    rewrite Hb. cbn [JSON.skip_ws].
    replace (JSON.is_ws Str.dquote_char) with false by reflexivity.
    cbn [JSON.expect].
    replace (Str.code Str.dquote_char =? 34)%Z with true by reflexivity.
    rewrite Hp. cbn [JSON.skip_ws].
    replace (JSON.is_ws ":") with false by reflexivity.
    cbn [JSON.expect].
    replace (Str.code ":" =? 58)%Z with true by reflexivity.
    rewrite (parse_value_skip f' sp _ Hsp), (Hv (S f') tail Hdv Htail).
    now rewrite (set_fresh k v acc Hfresh). }
  cbn [map].
  destruct (list_eq_dec_nil items) as [-> | Hne].
  - cbn [map]. rewrite seq_text_one, Hstep
      by (apply blank_delimited; [assumption | reflexivity]).
    rewrite (skip_ws_blank wc _ Hwc). cbn [append JSON.skip_ws].
    replace (JSON.is_ws "}") with false by reflexivity.
    replace (Str.code "}" =? 44)%Z with false by reflexivity.
    replace (Str.code "}" =? 125)%Z with true by reflexivity.
    reflexivity.
  - rewrite seq_text_cons by (now apply map_not_nil).
    rewrite Hstep by reflexivity.
    rewrite comma_sep. cbn [JSON.skip_ws].
    replace (JSON.is_ws ",") with false by reflexivity.
    replace (Str.code "," =? 44)%Z with true by reflexivity.
    rewrite (IH Hrest Hne (S f') (acc ++ [(k, v)])%list w Hw).
    + now rewrite <- app_assoc.
    + lia.
    + rewrite map_app. cbn [map fst]. rewrite <- app_assoc. exact Hnd.
Qed.
End Members.

Lemma wrap_form o c indent gap parts :
  parts <> [] ->
  JSON.wrap o c indent gap parts
  = o ++ lead indent gap ++ JSON.join ("," ++ lead indent gap) parts ++ trail indent gap ++ c.
Proof.
  intros Hne. unfold JSON.wrap, lead, trail. destruct parts; [congruence|].
  destruct (String.eqb gap ""); reflexivity.
Qed.

Lemma wrap_seq o c indent gap parts rest :
  parts <> [] ->
  JSON.wrap o c indent gap parts ++ rest
  = o ++ lead indent gap
      ++ seq_text ("," ++ lead indent gap) parts (trail indent gap ++ c ++ rest).
Proof.
  intros Hne. rewrite (wrap_form _ _ _ _ _ Hne), <- join_seq. now rewrite !append_assoc.
Qed.

Lemma blank_newline : blank JSON.newline = true.
Proof. reflexivity. Qed.

Lemma blank_lead indent gap :
  blank indent = true -> blank gap = true -> blank (lead indent gap) = true.
Proof.
  intros Hi Hg. unfold lead. destruct (String.eqb gap ""); [reflexivity|].
  apply blank_app; [reflexivity | now apply blank_app].
Qed.

Lemma blank_trail indent gap : blank indent = true -> blank (trail indent gap) = true.
Proof.
  intros Hi. unfold trail. destruct (String.eqb gap ""); [reflexivity|].
  now apply blank_app.
Qed.

Lemma blank_space gap : blank (if String.eqb gap "" then "" else " ") = true.
Proof. destruct (String.eqb gap ""); reflexivity. Qed.

Lemma parse_value_array f r :
  JSON.parse_value (S f) (String "[" r)
  = match JSON.skip_ws r with
    | String d r' =>
        if (Str.code d =? 93)%Z then JSON.POk (Arr []) r'
        else JSON.parse_elements f (JSON.skip_ws r) []
    | EmptyString => JSON.PFail EmptyString
    end.
Proof. reflexivity. Qed.

Lemma parse_value_object f r :
  JSON.parse_value (S f) (String "{" r)
  = match JSON.skip_ws r with
    | String d r' =>
        if (Str.code d =? 125)%Z then JSON.POk (Obj []) r'
        else JSON.parse_members f (JSON.skip_ws r) []
    | EmptyString => JSON.PFail EmptyString
    end.
Proof. reflexivity. Qed.

Lemma parse_value_string f body :
  JSON.parse_value (S f) (String Str.dquote_char body)
  = match JSON.parse_string body with
    | JSON.POk t rest => JSON.POk (Str t) rest
    | JSON.PFail a => JSON.PFail a
    end.
Proof. reflexivity. Qed.

Lemma parse_value_number f c t :
  ((Str.code c =? 45)%Z || Str.is_digit c) = true ->
  JSON.parse_value (S f) (String c t) = JSON.parse_number (String c t).
Proof.
  intros Hc.
  assert (Hr : (Str.code c = 45 \/ 48 <= Str.code c <= 57)%Z).
  { apply orb_true_iff in Hc. destruct Hc as [Hc|Hc]; [left; now apply Z.eqb_eq|right].
    unfold Str.is_digit in Hc. apply andb_true_iff in Hc. lia. }
  cbn [JSON.parse_value JSON.skip_ws]. unfold JSON.is_ws. cbv zeta.
  replace (Str.code c =? 32)%Z with false by (symmetry; apply Z.eqb_neq; lia).
  replace (Str.code c =? 9)%Z with false by (symmetry; apply Z.eqb_neq; lia).
  replace (Str.code c =? 10)%Z with false by (symmetry; apply Z.eqb_neq; lia).
  replace (Str.code c =? 13)%Z with false by (symmetry; apply Z.eqb_neq; lia).
  cbn [orb].
  replace (Str.code c =? 123)%Z with false by (symmetry; apply Z.eqb_neq; lia).
  replace (Str.code c =? 91)%Z with false by (symmetry; apply Z.eqb_neq; lia).
  replace (Str.code c =? 34)%Z with false by (symmetry; apply Z.eqb_neq; lia).
  now rewrite Hc.
Qed.

Lemma starts_value_number c t :
  ((Str.code c =? 45)%Z || Str.is_digit c) = true -> starts_value (String c t) = true.
Proof.
  intros Hc.
  assert (Hr : (Str.code c = 45 \/ 48 <= Str.code c <= 57)%Z).
  { apply orb_true_iff in Hc. destruct Hc as [Hc|Hc]; [left; now apply Z.eqb_eq|right].
    unfold Str.is_digit in Hc. apply andb_true_iff in Hc. lia. }
  cbn [starts_value]. unfold JSON.is_ws. cbv zeta.
  replace (Str.code c =? 32)%Z with false by (symmetry; apply Z.eqb_neq; lia).
  replace (Str.code c =? 9)%Z with false by (symmetry; apply Z.eqb_neq; lia).
  replace (Str.code c =? 10)%Z with false by (symmetry; apply Z.eqb_neq; lia).
  replace (Str.code c =? 13)%Z with false by (symmetry; apply Z.eqb_neq; lia).
  replace (Str.code c =? 93)%Z with false by (symmetry; apply Z.eqb_neq; lia).
  reflexivity.
Qed.

(** Fuel: the nesting is at most twice the length of the text. *)
Lemma depths_join {A} (sep : string) (dep : A -> nat) (txt : A -> string) (l : list A) :
  (1 <= String.length sep)%nat ->
  Forall (fun a => (dep a <= 2 * String.length (txt a))%nat
                   /\ (1 <= String.length (txt a))%nat) l ->
  (depths (map dep l) <= 2 * String.length (JSON.join sep (map txt l)) + 1)%nat.
Proof.
  intros Hsep Hall. induction Hall as [|a l [Hd Ht] Hall IH]; cbn [map depths].
  - lia.
  - destruct l as [|b l].
    + cbn [map depths JSON.join]. lia.
    + cbn [map JSON.join]. cbn [map JSON.join] in IH.
      rewrite !length_append. lia.
Qed.

Lemma printable_text gap indent v t :
  JSON.serialize gap v indent = Some t -> printable gap indent v ->
  element_text gap indent v = t
  /\ starts_value t = true /\ reads v t /\ (depth v <= 2 * String.length t)%nat.
Proof.
  intros Ht (t' & Ht' & H). unfold element_text. rewrite Ht. rewrite Ht in Ht'.
  injection Ht' as <-. tauto.
Qed.

Lemma starts_value_length t : starts_value t = true -> (1 <= String.length t)%nat.
Proof. destruct t; cbn; [discriminate | lia]. Qed.

Lemma seq_text_head sep t ts tail :
  starts_value t = true ->
  exists d r, seq_text sep (t :: ts) tail = String d r
              /\ JSON.is_ws d = false /\ (Str.code d =? 93)%Z = false.
Proof.
  destruct t as [|d t]; [discriminate|]. cbn [starts_value].
  rewrite andb_true_iff, !negb_true_iff. intros [H1 H2].
  destruct ts as [|t2 ts]; cbn [seq_text append]; eauto.
Qed.

Lemma printable_leaf gap indent v t :
  JSON.serialize gap v indent = Some t ->
  starts_value t = true ->
  depth v = 1%nat ->
  (forall f rest, delimited rest = true ->
                  JSON.parse_value (S f) (t ++ rest) = JSON.POk v rest) ->
  printable gap indent v.
Proof.
  intros Ht Hs Hd Hr. exists t. repeat split; try assumption.
  - intros fuel rest Hf Hrest. rewrite Hd in Hf. destruct fuel as [|f]; [lia|]. now apply Hr.
  - rewrite Hd. apply starts_value_length in Hs. lia.
Qed.

Lemma one_char c x : String c "" ++ x = String c x.
Proof. reflexivity. Qed.

Section Printable.
Variables (gap : string).
Hypothesis (Hgap : blank gap = true).

Lemma printable_Num n indent :
  clean (Num n) = true -> printable gap indent (Num n).
Proof.
  cbn [clean]. rewrite andb_true_iff. intros [Hfin Hok].
  pose proof Hok as Hok'. unfold number_text_ok in Hok'.
  destruct (JSON.parse_number (NumberToString.toString n)) as [v t'|] eqn:E;
    [|discriminate].
  destruct (parse_number_head _ _ _ E) as (c & t0 & Ht & Hc).
  apply (printable_leaf gap indent (Num n) (NumberToString.toString n)).
  - cbn [JSON.serialize]. now rewrite Hfin.
  - rewrite Ht. now apply starts_value_number.
  - reflexivity.
  - intros f rest Hrest. rewrite <- (number_text_parses n rest Hok Hrest).
    rewrite Ht. cbn [append]. now apply parse_value_number.
Qed.

Lemma printable_Str s indent : printable gap indent (Str s).
Proof.
  apply (printable_leaf gap indent (Str s) (JSON.quote s)); try reflexivity.
  intros f rest Hrest. destruct (parse_quote s rest) as (body & Hb & Hp).
  now rewrite Hb, parse_value_string, Hp.
Qed.

Lemma printable_Arr l indent :
  blank indent = true ->
  Forall (printable gap (indent ++ gap)) l ->
  printable gap indent (Arr l).
Proof.
  intros Hind Hall.
  set (ind' := indent ++ gap) in *.
  assert (Hind' : blank ind' = true) by (now apply blank_app).
  set (parts := map (element_text gap ind') l).
  exists (JSON.wrap "[" "]" indent gap parts).
  split; [apply serialize_Arr|].
  destruct l as [|x l].
  { repeat split; try reflexivity.
    - intros fuel rest Hf _. destruct fuel; [cbn in Hf; lia | reflexivity].
    - cbn. lia. }
  set (items := map (fun v => (v, element_text gap ind' v)) (x :: l)).
  assert (Hfst : map fst items = x :: l).
  { unfold items. rewrite map_map. cbn [fst]. apply map_id. }
  assert (Hsnd : map snd items = parts).
  { unfold items, parts. rewrite map_map. reflexivity. }
  assert (Hdep : map (fun it => depth (fst it)) items = map depth (x :: l)).
  { unfold items. rewrite map_map. apply map_ext. reflexivity. }
  assert (Hne : parts <> []) by (unfold parts; cbn; congruence).
  assert (Hit : Forall (fun it => starts_value (snd it) = true /\ reads (fst it) (snd it)
                          /\ (depth (fst it) <= 2 * String.length (snd it))%nat) items).
  { unfold items. apply Forall_map. revert Hall. apply Forall_impl.
    intros v (t & Ht & H). cbn [fst snd]. unfold element_text. now rewrite Ht. }
  split; [|split].
  - rewrite (wrap_form _ _ _ _ _ Hne). reflexivity.
  - intros fuel rest Hf Hrest. rewrite depth_Arr in Hf.
    destruct fuel as [|f]; [lia|].
    rewrite (wrap_seq _ _ _ _ _ rest Hne), one_char.
    rewrite parse_value_array, (skip_ws_blank _ _ (blank_lead _ _ Hind Hgap)).
    assert (Hs0 : starts_value (element_text gap ind' x) = true).
    { destruct (Forall_inv Hall) as (t0 & Ht0 & Hs0 & _).
      unfold element_text. now rewrite Ht0. }
    destruct (seq_text_head ("," ++ lead indent gap) _ (map (element_text gap ind') l)
                (trail indent gap ++ "]" ++ rest) Hs0) as (d & r & Hd & Hws & H93).
    change (element_text gap ind' x :: map (element_text gap ind') l) with parts in Hd.
    rewrite Hd. cbn [JSON.skip_ws]. rewrite Hws, H93, <- Hd.
    change (seq_text ("," ++ lead indent gap) parts (trail indent gap ++ "]" ++ rest))
      with ("" ++ seq_text ("," ++ lead indent gap) parts (trail indent gap ++ "]" ++ rest)).
    rewrite <- Hsnd.
    rewrite (parse_elements_items (lead indent gap) (trail indent gap) rest
               (blank_lead _ _ Hind Hgap) (blank_trail _ _ Hind) items).
    + now rewrite Hfst.
    + revert Hit. apply Forall_impl. intros it H. tauto.
    + unfold items. cbn. congruence.
    + reflexivity.
    + rewrite Hdep. lia.
  - rewrite depth_Arr, (wrap_form _ _ _ _ _ Hne), !length_append.
    assert (Hj : (depths (map depth (x :: l))
                  <= 2 * String.length (JSON.join ("," ++ lead indent gap) parts) + 1)%nat).
    { apply depths_join; [cbn; lia|]. revert Hall. apply Forall_impl.
      intros v (t & Ht & Hs & _ & Hd). unfold element_text. rewrite Ht.
      split; [exact Hd | now apply starts_value_length]. }
    cbn [String.length]. lia.
Qed.

Lemma printable_Obj fs indent :
  blank indent = true ->
  Forall (fun kv => printable gap (indent ++ gap) (snd kv)) fs ->
  forallb (fun kv => clean (snd kv)) fs = true ->
  NoDup (map fst fs) ->
  printable gap indent (Obj fs).
Proof.
  intros Hind Hall Hclean Hnd.
  set (ind' := indent ++ gap) in *.
  assert (Hind' : blank ind' = true) by (now apply blank_app).
  set (sp := if String.eqb gap "" then "" else " ").
  assert (Hsp : blank sp = true) by apply blank_space.
  set (parts := map (member_text gap ind') fs).
  exists (JSON.wrap "{" "}" indent gap parts).
  split.
  { apply serialize_Obj; [exact Hclean|]. intros kv Hin.
    rewrite Forall_forall in Hall. destruct (Hall kv Hin) as (t & Ht & _). eauto. }
  destruct fs as [|[k x] fs].
  { repeat split; try reflexivity.
    - intros fuel rest Hf _. destruct fuel; [cbn in Hf; lia | reflexivity].
    - cbn. lia. }
  set (items := map (fun kv => (kv, element_text gap ind' (snd kv))) ((k, x) :: fs)).
  assert (Hfst : map fst items = (k, x) :: fs).
  { unfold items. rewrite map_map. cbn [fst]. apply map_id. }
  assert (Hsnd : map (member sp) items = parts).
  { unfold items, parts. rewrite map_map. reflexivity. }
  assert (Hdep : map (fun it => depth (snd (fst it))) items
                 = map (fun kv => depth (snd kv)) ((k, x) :: fs)).
  { unfold items. rewrite map_map. apply map_ext. reflexivity. }
  assert (Hkeys : map (fun it => fst (fst it)) items = map fst ((k, x) :: fs)).
  { unfold items. rewrite map_map. apply map_ext. reflexivity. }
  assert (Hne : parts <> []) by (unfold parts; cbn; congruence).
  assert (Hit : Forall (fun it => reads (snd (fst it)) (snd it)) items).
  { unfold items. apply Forall_map. revert Hall. apply Forall_impl.
    intros kv (t & Ht & _ & H & _). cbn [fst snd]. unfold element_text. now rewrite Ht. }
  split; [|split].
  - rewrite (wrap_form _ _ _ _ _ Hne). reflexivity.
  - intros fuel rest Hf Hrest. rewrite depth_Obj in Hf.
    destruct fuel as [|f]; [lia|].
    rewrite (wrap_seq _ _ _ _ _ rest Hne), one_char.
    rewrite parse_value_object, (skip_ws_blank _ _ (blank_lead _ _ Hind Hgap)).
    assert (Hhead : exists r,
               seq_text ("," ++ lead indent gap) parts (trail indent gap ++ "}" ++ rest)
               = String Str.dquote_char r).
    { unfold parts. cbn [map]. unfold member_text at 1. unfold JSON.quote.
      destruct (map (member_text gap ind') fs); cbn [seq_text];
        rewrite !append_assoc; cbn [fst append Str.dquote]; eauto. }
    destruct Hhead as [r Hd]. rewrite Hd. cbn [JSON.skip_ws].
    replace (JSON.is_ws Str.dquote_char) with false by reflexivity.
    replace (Str.code Str.dquote_char =? 125)%Z with false by reflexivity.
    rewrite <- Hd.
    change (seq_text ("," ++ lead indent gap) parts (trail indent gap ++ "}" ++ rest))
      with ("" ++ seq_text ("," ++ lead indent gap) parts (trail indent gap ++ "}" ++ rest)).
    rewrite <- Hsnd.
    rewrite (parse_members_items (lead indent gap) (trail indent gap) sp rest
               (blank_lead _ _ Hind Hgap) (blank_trail _ _ Hind) Hsp items).
    + cbn [app]. now rewrite Hfst.
    + exact Hit.
    + unfold items. cbn. congruence.
    + reflexivity.
    + rewrite Hdep. lia.
    + cbn [map app]. rewrite Hkeys. exact Hnd.
  - rewrite depth_Obj, (wrap_form _ _ _ _ _ Hne), !length_append.
    assert (Hj : (depths (map (fun kv => depth (snd kv)) ((k, x) :: fs))
                  <= 2 * String.length (JSON.join ("," ++ lead indent gap) parts) + 1)%nat).
    { apply depths_join; [cbn; lia|]. revert Hall. apply Forall_impl.
      intros kv (t & Ht & Hs & _ & Hd). unfold member_text, element_text. rewrite Ht.
      rewrite !length_append. apply starts_value_length in Hs. split; lia. }
    cbn [String.length]. lia.
Qed.

(** Every clean value prints to a text that reads back. *)
Lemma clean_printable v :
  clean v = true -> forall indent, blank indent = true -> printable gap indent v.
Proof.
  induction v as [ | |b|n|s|l IH|fs IH] using value_induction; intros Hc indent Hind.
  - discriminate.
  - apply (printable_leaf gap indent Null "null"); try reflexivity.
  - apply (printable_leaf gap indent (Bool b) (if b then "true" else "false"));
      destruct b; try reflexivity.
  - now apply printable_Num.
  - apply printable_Str.
  - rewrite clean_Arr in Hc. apply printable_Arr; [assumption|].
    rewrite forallb_forall in Hc. rewrite Forall_forall in IH |- *.
    intros x Hin. apply IH; [assumption | now apply Hc | now apply blank_app].
  - rewrite clean_Obj, andb_true_iff in Hc. destruct Hc as [Hc Hd].
    apply printable_Obj; try assumption; [|now apply distinct_NoDup].
    rewrite forallb_forall in Hc. rewrite Forall_forall in IH |- *.
    intros kv Hin. apply IH; [assumption | now apply Hc | now apply blank_app].
Qed.
End Printable.

(** [JSON.parse] undoes [JSON.stringify] on clean values. *)
Lemma parse_stringify v gap text :
  clean v = true -> blank gap = true ->
  JSON.stringify v gap = Some text ->
  JSON.parse text = Ok v.
Proof.
  intros Hc Hg Ht.
  destruct (clean_printable gap Hg v Hc "" eq_refl) as (t & Ht' & _ & Hr & Hd).
  unfold JSON.stringify in Ht. rewrite Ht in Ht'. injection Ht' as <-.
  unfold JSON.parse.
  rewrite <- (append_nil_r text) at 2.
  rewrite (Hr (2 * String.length text + 2)%nat "" ltac:(lia) eq_refl). reflexivity.
Qed.

End JsonText.


(** ** The round trip through the document *)

Lemma stable_spec x :
  stable x = true ->
  roundToFourDecimals x = x /\ (x <? 0) = false /\ (0 <=? x) = true
  /\ Number.is_neg_zero x = false /\ clean (Num x) = true.
Proof.
  unfold stable. rewrite !andb_true_iff, negb_true_iff, Leibniz.eqb_spec.
  intros [[[[Hf H0] Hz] Hr] Ht]. repeat split; auto.
  - float_spec. rewrite (SFcompare_antisym (Prim2SF 0)).
    destruct (SFcompare (Prim2SF 0) (Prim2SF x)) as [[]|]; try discriminate; reflexivity.
  - cbn [clean]. now rewrite Hf, Ht.
Qed.

Lemma strict_neq_one x : Number.strict_neq x 1 = false -> x = 1.
Proof. unfold Number.strict_neq. rewrite negb_false_iff. apply eqb_one. Qed.

Lemma colors_lookup_palette v cs :
  Value.lookup "colors"
    ((if Value.truthy v then [("name"%string, v)] else []) ++ [("colors"%string, cs)])%list
  = cs.
Proof. destruct (Value.truthy v); reflexivity. Qed.


(** [serialize] writes a text that [JSON.parse] reads as the document. *)
Lemma serialize_parses p :
  clean (ColorPalette.toJSON p) = true ->
  JSON.parse (ColorPalette.serialize p) = Ok (ColorPalette.toJSON p).
Proof.
  intros Hc. unfold ColorPalette.serialize.
  destruct (clean_printable ColorPalette.tab eq_refl _ Hc EmptyString eq_refl)
    as (t & Ht & _).
  unfold JSON.stringify. rewrite Ht.
  apply (parse_stringify _ ColorPalette.tab); [exact Hc | reflexivity | exact Ht].
Qed.



Section Claims.
Open Scope string_scope.
Open Scope float_scope.

(** ** The claims on single colours *)

(** C8: constructing a colour with [isLinear] true from red 0.12345, green
    0.1235, blue 0.12344 and opacity 0.12349 gives the linear components
    0.1235, 0.1235, 0.1234 and 0.1235.  The red input times 10000 is
    exactly 1234.5 in binary64, and [Math.round] takes this half up, to
    1235. *)
Theorem precision_rounding `{Engine} :
  (exists c,
      Color.constructor
        (Options.make Undefined (Num 0.123_45) (Num 0.1235) (Num 0.123_44) (Num 0.123_49) true)
      = Ok c
      /\ Color.linearComponents c = Components.make 0.1235 0.1235 0.1234 0.1235)
  /\ 0.123_45 * 10_000 = 1234.5
  /\ Number.Math_round 1234.5 = 1235
  /\ roundToFourDecimals 0.123_45 = 0.1235.
Proof.
  split; [eexists; split; [reflexivity|]|]; vm_compute; repeat split; reflexivity.
Qed.

(** C6: the [components] array of [toJSON] holds the three rounded linear
    channels, followed by the rounded opacity if and only if the stored
    opacity is not equal to 1: it has four elements exactly when the
    opacity differs from 1 and three exactly when it is 1. *)
Theorem toJSON_components_alpha (c : Color.t) :
  let rgb := [ roundToFourDecimals (Color.linearRed c);
               roundToFourDecimals (Color.linearGreen c);
               roundToFourDecimals (Color.linearBlue c) ] in
  Value.get (Color.toJSON c) "components"
  = Ok (Arr (map Num (if Color.opacity c =? 1 then rgb
                      else (rgb ++ [roundToFourDecimals (Color.opacity c)])%list)))
  /\ (List.length (Color.json_components c) = 4%nat <-> (Color.opacity c =? 1) = false)
  /\ (List.length (Color.json_components c) = 3%nat <-> (Color.opacity c =? 1) = true).
Proof.
  unfold Color.toJSON, Color.json_components, Number.strict_neq.
  cbn [Value.get Value.lookup String.eqb Ascii.eqb Bool.eqb].
  destruct (Color.opacity c =? 1); cbn [negb app List.length];
    repeat split; intros; try reflexivity; discriminate.
Qed.

Lemma fromHexString_number `{Engine} s h :
  (let string := Str.trim s in
   let withoutHash := if Str.startsWith string "#" then Str.slice1 string else string in
   let expanded :=
     if (String.length withoutHash =? 3)%nat || (String.length withoutHash =? 4)%nat
     then Str.double_each withoutHash else withoutHash in
   Color.hex_pattern expanded && PrimFloat.Leibniz.eqb (Number.parseInt16 expanded) h) = true ->
  Color.fromHexString s = Color.fromHexNumber h.
Proof.
  cbv zeta. rewrite andb_true_iff, Leibniz.eqb_spec. intros [Hp Hv].
  unfold Color.fromHexString. cbv zeta. now rewrite Hp, Hv.
Qed.

(** C2, a defect of the code: [fromHexString] hands the parsed integer
    to [fromHexNumber], which chooses the layout by the magnitude of the
    number and not by the count of digits.  "#0000FF" (and "00F", which is
    doubled to it) is the integer 255, read as the 12-bit colour 0FF: the
    code returns green 1 and blue 1 where the six digits say green 0 and
    blue 1.  "#0000000F" is read as a 12-bit colour with blue 1 and opacity
    1, where the eight digits say blue 0 and opacity 15/255. *)
Theorem fromHexString_leading_zero `{Engine} :
  Color.fromHexString "#0000FF" = Color.constructor (Options.rgba 0 1 1 1)
  /\ hexStringSpec "#0000FF" = Some (Options.rgba 0 0 1 1)
  /\ Color.fromHexString "00F" = Color.constructor (Options.rgba 0 1 1 1)
  /\ hexStringSpec "00F" = Some (Options.rgba 0 0 1 1)
  /\ Color.fromHexString "#0000000F" = Color.constructor (Options.rgba 0 0 1 1)
  /\ hexStringSpec "#0000000F" = Some (Options.rgba 0 0 0 (15 / 255))
  /\ Options.rgba 0 1 1 1 <> Options.rgba 0 0 1 1.
Proof.
  assert (Hn : forall h o, hexNumberSpec h = Some o ->
                           Color.fromHexNumber h = Color.constructor o).
  { intros h o E. now rewrite fromHexNumber_refines, E. }
  split; [|split; [|split; [|split; [|split; [|split]]]]].
  - rewrite (fromHexString_number "#0000FF" 255) by (vm_compute; reflexivity).
    apply Hn. vm_compute. reflexivity.
  - vm_compute. reflexivity.
  - rewrite (fromHexString_number "00F" 255) by (vm_compute; reflexivity).
    apply Hn. vm_compute. reflexivity.
  - vm_compute. reflexivity.
  - rewrite (fromHexString_number "#0000000F" 15) by (vm_compute; reflexivity).
    apply Hn. vm_compute. reflexivity.
  - vm_compute. reflexivity.
  - intros E. apply (f_equal (fun o => Value.number (Options.green o))) in E.
    vm_compute in E. discriminate.
Qed.

(** C3 as stated fails: after [red = 0.01] the stored linear red is
    0.01 / 12.92, which has more than four decimals. *)
Lemma setter_stores_unrounded :
  ~ (forall (E : Engine) (c c' : Color.t) (v : float),
        Color.set_red c (Num v) = Ok c' ->
        Color.linearRed c' = roundToFourDecimals (sRGBToLinear v)).
Proof.
  intros Hclaim.
  specialize (Hclaim reference_engine black
                {| Color.name := Undefined; Color.linearRed := 0.01 / 12.92;
                   Color.linearGreen := 0; Color.linearBlue := 0; Color.opacity := 1 |}
                0.01 ltac:(vm_compute; reflexivity)).
  vm_compute in Hclaim. discriminate.
Qed.



(** C10 as stated fails for the opacity: the constructor stores the
    opacity [Infinity] as 1. *)
Lemma infinite_opacity_is_clamped :
  ~ (forall (E : Engine) (x : float) (name : value) (r g b : float) (lin : bool) (c : Color.t),
        PrimFloat.is_finite x = false ->
        Color.constructor (Options.make name (Num r) (Num g) (Num b) (Num x) lin) = Ok c ->
        PrimFloat.is_finite (Color.opacity c) = false).
Proof.
  intros Hclaim.
  specialize (Hclaim reference_engine infinity Undefined 0 0 0 true
                {| Color.name := Undefined; Color.linearRed := 0; Color.linearGreen := 0;
                   Color.linearBlue := 0; Color.opacity := 1 |}
                ltac:(vm_compute; reflexivity) ltac:(vm_compute; reflexivity)).
  vm_compute in Hclaim. discriminate.
Qed.

(** ** The claims on palettes *)


Lemma negative_channel_error :
  ColorPalette.deserialize (H := reference_engine)
    (ColorPalette.serialize
       (ColorPalette.constructor
          [ {| Color.name := Undefined; Color.linearRed := -0.0387;
               Color.linearGreen := 0; Color.linearBlue := 0; Color.opacity := 1 |} ]
          Undefined))
  = Throw PlainError "Component values must be numbers".
Proof. vm_compute. reflexivity. Qed.

Lemma traffic_constructed :
  map_result (Color.constructor (H := reference_engine))
    [ Options.make (Str "Red") (Num 1) (Num 0) (Num 0) Undefined false;
      Options.make (Str "Green") (Num 0) (Num 1) (Num 0) (Num 0.5) false ]
  = Ok (ColorPalette.colors traffic).
Proof. vm_compute. reflexivity. Qed.

End Claims.


(** * Further properties of the code *)

(** ** Validation of documents *)

Section Validation.

Lemma for_of_ok {A} (f : A -> result unit) (l : list A) :
  for_of f l = Ok tt <-> Forall (fun x => f x = Ok tt) l.
Proof.
  induction l as [|x l IH]; cbn [for_of].
  - split; [constructor | reflexivity].
  - destruct (f x) as [[]|cls msg] eqn:E; cbn [bind].
    + rewrite IH. split; [now constructor | now inversion 1].
    + split; [discriminate | inversion 1; congruence].
Qed.

Lemma for_of_first_error {A} (f : A -> result unit) pre x post cls msg :
  Forall (fun y => f y = Ok tt) pre -> f x = Throw cls msg ->
  for_of f (pre ++ x :: post) = Throw cls msg.
Proof.
  intros Hpre Hx. induction Hpre as [|y pre Hy _ IH]; cbn [app for_of].
  - now rewrite Hx.
  - now rewrite Hy.
Qed.

Lemma component_check v :
  (if negb (Value.is_number v) || (Value.number v <? 0)
   then Throw PlainError "Component values must be numbers"
   else Ok tt) = Ok tt
  <-> exists n, v = Num n /\ (n <? 0) = false.
Proof.
  destruct v as [ | | |n| | | ]; cbn [Value.is_number Value.number negb orb];
    try (split; [discriminate | intros (n & E & _); discriminate]).
  destruct (n <? 0) eqn:E.
  - split; [discriminate | intros (m & [= <-] & Hm); congruence].
  - split; [eauto | reflexivity].
Qed.

Lemma accepted_components (color : value) :
  validateColorComponent color = Ok tt
  <-> exists l,
        Value.get color "components" = Ok (Arr l)
        /\ (List.length l = 3 \/ List.length l = 4)%nat
        /\ Forall (fun v => exists n, v = Num n /\ (n <? 0) = false) l.
Proof.
  unfold validateColorComponent.
  destruct (Value.get color "components") as [comps|cls msg]; cbn [bind];
    [|split; [discriminate | intros (l & E & _); discriminate]].
  destruct comps as [ | | | | | l | ];
    try (split; [discriminate | intros (l & [= E] & _); discriminate]).
  assert (Hlen : (negb (List.length l =? 3)%nat && negb (List.length l =? 4)%nat) = false
                 <-> (List.length l = 3 \/ List.length l = 4)%nat).
  { destruct (Nat.eqb_spec (List.length l) 3), (Nat.eqb_spec (List.length l) 4);
      cbn; intuition (try lia; try discriminate). }
  destruct (negb (List.length l =? 3)%nat && negb (List.length l =? 4)%nat).
  - split; [discriminate|]. intros (l' & [= <-] & Hl & _). apply Hlen in Hl. discriminate.
  - rewrite for_of_ok. split.
    + intros Hall. exists l. split; [reflexivity|]. split; [now apply Hlen|].
      revert Hall. apply Forall_impl. intros v. apply component_check.
    + intros (l' & [= <-] & _ & Hall). revert Hall. apply Forall_impl.
      intros v. apply component_check.
Qed.

(** X1: [validateColorComponent] accepts an entry exactly when its
    [components] property is an array of three or four elements, each of
    them a number that is not below zero.  Nothing else is checked: neither
    an upper bound nor the other properties of the entry. *)
Theorem validateColorComponent_accepts (color : value) :
  validateColorComponent color = Ok tt
  <-> exists l,
        Value.get color "components" = Ok (Arr l)
        /\ (List.length l = 3 \/ List.length l = 4)%nat
        /\ Forall (fun v => exists n, v = Num n /\ (n <? 0) = false) l.
Proof. apply accepted_components. Qed.

Lemma accepted_colors (palette : value) :
  validatePalette palette = Ok tt
  <-> exists l,
        Value.get palette "colors" = Ok (Arr l)
        /\ Forall (fun color => validateColorComponent color = Ok tt) l.
Proof.
  unfold validatePalette.
  destruct (Value.get palette "colors") as [colors|cls msg]; cbn [bind];
    [|split; [discriminate | intros (l & E & _); discriminate]].
  destruct colors as [ | | | | | l | ];
    try (split; [discriminate | intros (l & [= E] & _); discriminate]).
  rewrite for_of_ok. split; [eauto|]. now intros (l' & [= <-] & Hall).
Qed.

(** X2: [validatePalette] accepts a document exactly when its [colors]
    property is an array all of whose entries [validateColorComponent]
    accepts; otherwise the error of the first entry that fails is the one
    thrown. *)
Theorem validatePalette_accepts (palette : value) :
  (validatePalette palette = Ok tt
   <-> exists l,
         Value.get palette "colors" = Ok (Arr l)
         /\ Forall (fun color => validateColorComponent color = Ok tt) l)
  /\ (forall pre color post cls message,
         Value.get palette "colors" = Ok (Arr (pre ++ color :: post)) ->
         Forall (fun c => validateColorComponent c = Ok tt) pre ->
         validateColorComponent color = Throw cls message ->
         validatePalette palette = Throw cls message).
Proof.
  split; [apply accepted_colors|].
  unfold validatePalette.
  intros pre color post cls message -> Hpre Hc. cbn [bind].
  now apply for_of_first_error.
Qed.

End Validation.

Section Deserialize.
Context `{Engine}.

Lemma get_total e k v k' :
  Value.get e k = Ok v -> exists v', Value.get e k' = Ok v'.
Proof. destruct e; cbn; try discriminate; eauto. Qed.

Lemma revive_valid e :
  validateColorComponent e = Ok tt ->
  exists c, ColorPalette.revive e = Ok c /\ decodes e c.
Proof.
  intros Hv. apply accepted_components in Hv.
  destruct Hv as (l & Hget & Hlen & Hall).
  destruct (get_total e "components" _ "name" Hget) as [name Hname].
  assert (Hshape : exists r g b o alpha,
             l = Num r :: Num g :: Num b :: alpha
             /\ ((alpha = [] /\ o = 1) \/ alpha = [Num o])).
  { destruct l as [|v1 [|v2 [|v3 [|v4 [|v5 l]]]]]; cbn in Hlen; try lia.
    - inversion Hall as [|? ? (r & -> & _) H2]; subst.
      inversion H2 as [|? ? (g & -> & _) H3]; subst.
      inversion H3 as [|? ? (b & -> & _) _]; subst.
      exists r, g, b, 1, []. auto.
    - inversion Hall as [|? ? (r & -> & _) H2]; subst.
      inversion H2 as [|? ? (g & -> & _) H3]; subst.
      inversion H3 as [|? ? (b & -> & _) H4]; subst.
      inversion H4 as [|? ? (o & -> & _) _]; subst.
      exists r, g, b, o, [Num o]. auto. }
  destruct Hshape as (r & g & b & o & alpha & -> & Halpha).
  exists (decoded name r g b o). split.
  - unfold ColorPalette.revive. rewrite Hget, Hname. cbn [bind].
    destruct Halpha as [[-> ->] | ->]; reflexivity.
  - exists name, r, g, b, o, alpha. auto.
Qed.

Lemma revive_all_valid entries :
  Forall (fun e => validateColorComponent e = Ok tt) entries ->
  exists colors,
    map_result ColorPalette.revive entries = Ok colors /\ Forall2 decodes entries colors.
Proof.
  induction 1 as [|e entries He _ (colors & Hmap & Hdec)].
  - exists []. split; [reflexivity | constructor].
  - destruct (revive_valid e He) as (c & Hc & Hd).
    exists (c :: colors). split; [|now constructor].
    cbn [map_result]. rewrite Hc. cbn [bind]. now rewrite Hmap.
Qed.

(** X3: the outcome of [deserialize] is settled in three stages.  An
    error of [JSON.parse] is thrown on; so is an error of [validatePalette];
    and a document that passes the validation always gives a palette: its
    name is the [name] of the document as it is, and its colours are read
    from the entries one by one, in their order, each from its name and its
    three or four components (the opacity 1 for three), rounded to four
    decimals.  The constructor of [Color] never fails on a validated entry. *)
Theorem deserialize_outcome (data : string) :
  (forall cls message,
      JSON.parse data = Throw cls message ->
      ColorPalette.deserialize data = Throw cls message)
  /\ (forall doc cls message,
      JSON.parse data = Ok doc -> validatePalette doc = Throw cls message ->
      ColorPalette.deserialize data = Throw cls message)
  /\ (forall doc,
      JSON.parse data = Ok doc -> validatePalette doc = Ok tt ->
      exists entries name colors,
        Value.get doc "colors" = Ok (Arr entries)
        /\ Value.get doc "name" = Ok name
        /\ ColorPalette.deserialize data = Ok (ColorPalette.make name colors)
        /\ Forall2 decodes entries colors).
Proof.
  unfold ColorPalette.deserialize. split; [|split].
  - now intros cls message ->.
  - intros doc cls message -> Hv. cbn [bind]. now rewrite Hv.
  - intros doc -> Hv. cbn [bind]. rewrite Hv. cbn [bind].
    apply accepted_colors in Hv. destruct Hv as (entries & Hget & Hall).
    destruct (get_total doc "colors" _ "name" Hget) as [name Hname].
    destruct (revive_all_valid entries Hall) as (colors & Hmap & Hdec).
    exists entries, name, colors. rewrite Hget, Hname. cbn [bind]. rewrite Hmap.
    cbn [bind]. auto.
Qed.

End Deserialize.

(** ** Construction *)

Section Construction.
Context `{Engine}.

(** X4: the constructor of [Color] checks red, green, blue and opacity in
    this order and throws a [TypeError] naming the first that is not a
    number; an opacity that is [undefined] counts as 1, any other value that
    is not a number is refused; with four numbers a colour is returned, with
    the name as given.  [ColorPalette.createColor] is the constructor. *)
Theorem constructor_validation (name red green blue opacity : value) (isLinear : bool) :
  let o := Options.make name red green blue opacity isLinear in
  let given := match opacity with Undefined => Num 1 | v => v end in
  (Value.is_number red = false ->
     Color.constructor o = Throw TypeError "Red component must be a number")
  /\ (Value.is_number red = true -> Value.is_number green = false ->
     Color.constructor o = Throw TypeError "Green component must be a number")
  /\ (Value.is_number red = true -> Value.is_number green = true ->
      Value.is_number blue = false ->
     Color.constructor o = Throw TypeError "Blue component must be a number")
  /\ (Value.is_number red = true -> Value.is_number green = true ->
      Value.is_number blue = true -> Value.is_number given = false ->
     Color.constructor o = Throw TypeError "Opacity component must be a number")
  /\ (Value.is_number red = true -> Value.is_number green = true ->
      Value.is_number blue = true -> Value.is_number given = true ->
      exists c, Color.constructor o = Ok c /\ Color.name c = name)
  /\ Color.constructor (Options.make name red green blue Undefined isLinear)
     = Color.constructor (Options.make name red green blue (Num 1) isLinear)
  /\ createColor o = Color.constructor o.
Proof.
  cbv zeta. unfold createColor, Color.constructor, validateComponent.
  cbn [Options.red Options.green Options.blue Options.opacity Options.name Options.isLinear].
  repeat split.
  - now intros ->.
  - now intros -> ->.
  - now intros -> -> ->.
  - intros -> -> -> Ho. destruct opacity; try discriminate Ho; reflexivity.
  - intros -> -> -> Ho. destruct opacity; try discriminate Ho; cbn [negb bind];
      eexists; split; reflexivity.
Qed.

(** X5: each of the four setters throws a [TypeError] with its own message
    on a value that is not a number (a string of digits and [null]
    included), and accepts every number. *)
Theorem setters_type_check (c : Color.t) (v : value) :
  (Value.is_number v = false ->
     Color.set_red c v = Throw TypeError "Red component must be a number"
     /\ Color.set_green c v = Throw TypeError "Green component must be a number"
     /\ Color.set_blue c v = Throw TypeError "Blue component must be a number"
     /\ Color.set_opacity c v = Throw TypeError "Opacity must be a number")
  /\ (Value.is_number v = true ->
      exists c1 c2 c3 c4,
        Color.set_red c v = Ok c1 /\ Color.set_green c v = Ok c2
        /\ Color.set_blue c v = Ok c3 /\ Color.set_opacity c v = Ok c4).
Proof.
  unfold Color.set_red, Color.set_green, Color.set_blue, Color.set_opacity.
  split; intros ->; cbn [negb]; [repeat split|]. do 4 eexists. repeat split.
Qed.

End Construction.

(** X8: the object [toJSON] returns for a colour has the key
    [components], followed by [name] exactly when the name is truthy; the
    one for a palette has [name] first, exactly when the name is truthy, and
    then [colors], the colours' objects in their order.  A name that is the
    empty string is left out like a missing one. *)
Theorem toJSON_keys (c : Color.t) (p : ColorPalette.t) :
  keys (Color.toJSON c)
  = "components" :: (if Value.truthy (Color.name c) then ["name"] else [])
  /\ Value.get (Color.toJSON c) "name"
     = Ok (if Value.truthy (Color.name c) then Color.name c else Undefined)
  /\ keys (ColorPalette.toJSON p)
     = ((if Value.truthy (ColorPalette.name p) then ["name"] else []) ++ ["colors"])%list
  /\ Value.get (ColorPalette.toJSON p) "name"
     = Ok (if Value.truthy (ColorPalette.name p) then ColorPalette.name p else Undefined)
  /\ Value.get (ColorPalette.toJSON p) "colors"
     = Ok (Arr (map Color.toJSON (ColorPalette.colors p))).
Proof.
  unfold Color.toJSON, ColorPalette.toJSON, keys.
  destruct (Value.truthy (Color.name c)), (Value.truthy (ColorPalette.name p));
    repeat split; reflexivity.
Qed.

Lemma instances_map cs : Argument.instances (map Argument.Instance cs) = cs.
Proof.
  unfold Argument.instances. induction cs as [|c cs IH]; [reflexivity|].
  cbn [map flat_map app]. now rewrite IH.
Qed.

Lemma all_instances l :
  Forall (fun a => Argument.instanceofColor a = true) l ->
  l = map Argument.Instance (Argument.instances l).
Proof.
  induction 1 as [|a l Ha _ IH]; [reflexivity|].
  destruct a; try discriminate. unfold Argument.instances in *.
  cbn [map flat_map app]. now rewrite <- IH.
Qed.

(** X9: [new ColorPalette] takes a missing [colors] for the empty array
    and an array of [Color] instances as it is, in its order; anything that
    is not an array is refused with "The `colors` must be an array", and an
    array with an element that is not a [Color] with "Each color must be an
    instance of Color".  A palette that is returned holds the name given
    and exactly the elements of the array. *)
Theorem newColorPalette_checks (colors : Argument.t) (name : value) :
  (newColorPalette (Argument.Plain Undefined) name = Ok (ColorPalette.constructor [] name))
  /\ (forall cs, newColorPalette (Argument.Items (map Argument.Instance cs)) name
                 = Ok (ColorPalette.constructor cs name))
  /\ (colors <> Argument.Plain Undefined -> Argument.isArray colors = false ->
      newColorPalette colors name = Throw TypeError "The `colors` must be an array")
  /\ (Argument.isArray colors = true ->
      Exists (fun a => Argument.instanceofColor a = false) (Argument.elements colors) ->
      newColorPalette colors name = Throw TypeError "Each color must be an instance of Color")
  /\ (forall p, newColorPalette colors name = Ok p ->
                p = ColorPalette.constructor (ColorPalette.colors p) name
                /\ (colors = Argument.Plain Undefined /\ ColorPalette.colors p = []
                    \/ Argument.elements colors
                       = map Argument.Instance (ColorPalette.colors p))).
Proof.
  set (check := fun color =>
                  if negb (Argument.instanceofColor color)
                  then Throw TypeError "Each color must be an instance of Color"
                  else Ok tt).
  assert (Hcheck : forall l, for_of check l = Ok tt
                             <-> Forall (fun a => Argument.instanceofColor a = true) l).
  { intros l. rewrite for_of_ok.
    split; apply Forall_impl; intros a; unfold check;
      destruct (Argument.instanceofColor a); cbn; congruence. }
  assert (Hfail : forall l, Exists (fun a => Argument.instanceofColor a = false) l ->
                            for_of check l
                            = Throw TypeError "Each color must be an instance of Color").
  { induction 1 as [a l Ha | a l _ IH]; cbn [for_of]; unfold check at 1.
    - now rewrite Ha.
    - destruct (Argument.instanceofColor a); cbn [negb bind]; [exact IH | reflexivity]. }
  split; [reflexivity|]. split; [|split; [|split]].
  - intros cs. unfold newColorPalette. cbn [Argument.isArray negb Argument.elements].
    fold check.
    assert (E : for_of check (map Argument.Instance cs) = Ok tt).
    { apply Hcheck. apply Forall_forall. intros a Ha. apply in_map_iff in Ha.
      now destruct Ha as (c & <- & _). }
    rewrite E. cbn [bind Argument.elements]. now rewrite instances_map.
  - intros Hu Ha. unfold newColorPalette.
    destruct colors as [[ | | | | | | ]| |]; try congruence; try discriminate; reflexivity.
  - intros Ha Hex. unfold newColorPalette.
    destruct colors as [[ | | | | | l | ]| |l]; try discriminate;
      cbn [Argument.isArray negb]; fold check; now rewrite (Hfail _ Hex).
  - intros p. unfold newColorPalette. fold check.
    destruct colors as [[ | | | | | l | ]| |l]; try discriminate.
    + intros [= <-]. cbn. auto.
    + cbn [Argument.isArray negb].
      destruct (for_of check (Argument.elements (Argument.Plain (Arr l)))) as [[]|] eqn:E;
        [|discriminate].
      intros [= <-]. cbn [ColorPalette.colors]. split; [reflexivity|]. right.
      apply all_instances, Hcheck, E.
    + cbn [Argument.isArray negb].
      destruct (for_of check (Argument.elements (Argument.Items l))) as [[]|] eqn:E;
        [|discriminate].
      intros [= <-]. cbn [ColorPalette.colors]. split; [reflexivity|]. right.
      apply all_instances, Hcheck, E.
Qed.

(** ** The stored opacity *)

Lemma nan_unique v : PrimFloat.is_nan v = true -> v = nan.
Proof.
  rewrite is_nan_spec. intros Hv. apply Prim2SF_inj.
  destruct (Prim2SF v); try discriminate. reflexivity.
Qed.

Lemma SFcompare_none x y : SFcompare x y = None -> x = S754_nan \/ y = S754_nan.
Proof.
  destruct x as [ [] | [] | | [] mx ex], y as [ [] | [] | | [] my ey]; cbn;
    try discriminate; auto.
Qed.

(** Two numbers that are not NaN compare one way or the other. *)
Lemma ltb_or_leb x y :
  PrimFloat.is_nan x = false -> PrimFloat.is_nan y = false ->
  (y <? x) = true \/ (x <=? y) = true.
Proof.
  rewrite !is_nan_spec, ltb_spec, leb_spec. unfold SFltb, SFleb. intros Hx Hy.
  rewrite (SFcompare_antisym (Prim2SF x) (Prim2SF y)).
  destruct (SFcompare (Prim2SF x) (Prim2SF y)) as [[]|] eqn:E; cbn; auto.
  apply SFcompare_none in E. destruct E as [E|E]; rewrite E in *; discriminate.
Qed.

Lemma clamp_fixed o :
  (0 <=? o) = true -> (o <=? 1) = true -> Number.is_neg_zero o = false ->
  clampOpacity o = o.
Proof. intros H0 H1 Hz. rewrite (clamp_inside o H0 H1). now rewrite Hz. Qed.

Lemma clampOpacity_cases x :
  let o := clampOpacity x in
  (PrimFloat.is_nan x = true /\ o = nan)
  \/ ((0 <=? o) = true /\ (o <=? 1) = true /\ Number.is_neg_zero o = false).
Proof.
  cbv zeta. destruct (PrimFloat.is_nan x) eqn:Hn.
  - left. split; [reflexivity|]. apply nan_unique in Hn. now subst.
  - right.
    destruct (ltb_or_leb x 1 Hn eq_refl) as [H1|H1];
      [rewrite (clamp_above x H1); repeat split; reflexivity|].
    destruct (ltb_or_leb 0 x eq_refl Hn) as [H0|H0];
      [rewrite (clamp_below x H0); repeat split; reflexivity|].
    rewrite (clamp_inside x H0 H1).
    destruct (Number.is_neg_zero x) eqn:Hz; repeat split; auto.
Qed.

(** X6: after every assignment the opacity setter accepts, the stored
    opacity is NaN (only when NaN was assigned) or a number from 0 to 1 that
    is not the negative zero; clamping it again changes nothing, so
    assigning a colour its own opacity leaves the colour as it is. *)
Theorem stored_opacity_range (c c' : Color.t) (v : value) :
  Color.set_opacity c v = Ok c' ->
  let o := Color.opacity c' in
  ((v = Num nan /\ o = nan)
   \/ ((0 <=? o) = true /\ (o <=? 1) = true /\ Number.is_neg_zero o = false))
  /\ clampOpacity o = o
  /\ Color.set_opacity c' (Num o) = Ok c'.
Proof.
  unfold Color.set_opacity. destruct v as [ | | |x| | | ]; try discriminate.
  cbn [Value.is_number negb Value.number]. intros [= <-].
  cbn [Color.opacity Color.name Color.linearRed Color.linearGreen Color.linearBlue].
  cbv zeta.
  assert (Hfix : clampOpacity (clampOpacity x) = clampOpacity x).
  { destruct (clampOpacity_cases x) as [[Hn ->] | (H0 & H1 & Hz)]; [reflexivity|].
    now apply clamp_fixed. }
  split; [|split; [exact Hfix | now rewrite Hfix]].
  destruct (clampOpacity_cases x) as [[Hn Ho] | Hr]; [left | now right].
  apply nan_unique in Hn. now subst.
Qed.

(** X6 on the assignment of 2 to an opaque colour. *)
Lemma stored_opacity_range_witness :
  Color.set_opacity black (Num 2) = Ok black
  /\ clampOpacity (Color.opacity black) = Color.opacity black.
Proof.
  assert (H : Color.set_opacity black (Num 2) = Ok black) by reflexivity.
  split; [exact H|]. exact (proj1 (proj2 (stored_opacity_range black black (Num 2) H))).
Defined.

(** ** Hex strings *)

Section HexStrings.
Close Scope float_scope.
Close Scope Z_scope.

Lemma rev_append_app s a : Str.rev_append s a = Str.rev s ++ a.
Proof.
  unfold Str.rev. revert a. induction s as [|c s IH]; intros a; cbn [Str.rev_append].
  - reflexivity.
  - rewrite (IH (String c a)), (IH (String c "")), append_assoc. reflexivity.
Qed.

Lemma rev_cons c s : Str.rev (String c s) = Str.rev s ++ String c "".
Proof. unfold Str.rev at 1. cbn [Str.rev_append]. apply rev_append_app. Qed.

Lemma rev_app a b : Str.rev (a ++ b) = Str.rev b ++ Str.rev a.
Proof.
  induction a as [|c a IH]; cbn [append].
  - now rewrite append_nil_r.
  - now rewrite !rev_cons, IH, append_assoc.
Qed.

Lemma rev_involutive s : Str.rev (Str.rev s) = s.
Proof.
  induction s as [|c s IH]; [reflexivity|]. now rewrite rev_cons, rev_app, IH.
Qed.

Lemma forallb_app p a b : Str.forallb p (a ++ b) = Str.forallb p a && Str.forallb p b.
Proof.
  induction a as [|c a IH]; cbn [append Str.forallb]; [reflexivity|].
  now rewrite IH, andb_assoc.
Qed.

Lemma forallb_rev p s : Str.forallb p (Str.rev s) = Str.forallb p s.
Proof.
  induction s as [|c s IH]; [reflexivity|].
  rewrite rev_cons, forallb_app, IH. cbn [Str.forallb].
  now rewrite andb_true_r, andb_comm.
Qed.

Lemma length_rev s : String.length (Str.rev s) = String.length s.
Proof.
  induction s as [|c s IH]; [reflexivity|].
  rewrite rev_cons, length_append, IH. cbn [String.length]. lia.
Qed.

(** *** [trim] *)

Lemma trimStart_spaces a s : spaces a = true -> Str.trimStart (a ++ s) = Str.trimStart s.
Proof.
  unfold spaces. induction a as [|c a IH]; cbn [append Str.forallb Str.trimStart];
    [reflexivity|].
  rewrite andb_true_iff. intros [Hc Ha]. now rewrite Hc, IH.
Qed.

Lemma trimStart_all a : spaces a = true -> Str.trimStart a = "".
Proof.
  intros Ha. rewrite <- (append_nil_r a). now rewrite trimStart_spaces.
Qed.

Lemma trimStart_app s b :
  Str.trimStart (s ++ b)
  = if String.eqb (Str.trimStart s) "" then Str.trimStart b else Str.trimStart s ++ b.
Proof.
  induction s as [|c s IH]; cbn [append Str.trimStart]; [reflexivity|].
  destruct (Str.is_space c); [exact IH | reflexivity].
Qed.

Lemma spaces_rev a : spaces (Str.rev a) = spaces a.
Proof. apply forallb_rev. Qed.

Lemma trim_surrounded a s b :
  spaces a = true -> spaces b = true -> Str.trim (a ++ s ++ b) = Str.trim s.
Proof.
  intros Ha Hb. unfold Str.trim. rewrite (trimStart_spaces a _ Ha), trimStart_app.
  destruct (String.eqb (Str.trimStart s) "") eqn:E.
  - apply String.eqb_eq in E. rewrite E, (trimStart_all b Hb). reflexivity.
  - rewrite rev_app, trimStart_spaces; [reflexivity|]. now rewrite spaces_rev.
Qed.

(** *** Hex digits *)

Lemma hex_digit_not_space c : Str.is_hex_digit c = true -> Str.is_space c = false.
Proof.
  unfold Str.is_hex_digit, Str.is_digit, Str.is_space.
  rewrite !orb_true_iff, !andb_true_iff, !Z.leb_le. intros Hc.
  apply orb_false_iff. split.
  - apply andb_false_iff. destruct (Z.leb_spec (Str.code c) 13); [|now right].
    left. apply Z.leb_gt. lia.
  - apply Z.eqb_neq. lia.
Qed.

Lemma hex_digit_not_hash c : Str.is_hex_digit c = true -> Str.eqb_ascii "#" c = false.
Proof.
  intros Hc. unfold Str.eqb_ascii. apply Ascii.eqb_neq. intros <-. discriminate.
Qed.

Lemma trimStart_hex d : Str.forallb Str.is_hex_digit d = true -> Str.trimStart d = d.
Proof.
  destruct d as [|c d]; [reflexivity|]. cbn [Str.forallb Str.trimStart].
  rewrite andb_true_iff. intros [Hc _]. now rewrite (hex_digit_not_space c Hc).
Qed.

Lemma trim_hex d : Str.forallb Str.is_hex_digit d = true -> Str.trim d = d.
Proof.
  intros Hd. unfold Str.trim. rewrite (trimStart_hex d Hd).
  rewrite trimStart_hex by (now rewrite forallb_rev). apply rev_involutive.
Qed.

Lemma trim_hash_hex d :
  Str.forallb Str.is_hex_digit d = true -> Str.trim (String "#" d) = String "#" d.
Proof.
  intros Hd. unfold Str.trim. cbn [Str.trimStart].
  replace (Str.is_space "#") with false by reflexivity.
  rewrite rev_cons, trimStart_app, trimStart_hex by (now rewrite forallb_rev).
  destruct (String.eqb (Str.rev d) "") eqn:E.
  - apply String.eqb_eq in E. apply (f_equal Str.rev) in E. rewrite rev_involutive in E.
    subst d. reflexivity.
  - rewrite rev_app, rev_involutive. reflexivity.
Qed.

Lemma startsWith_hex d :
  Str.forallb Str.is_hex_digit d = true -> Str.startsWith d "#" = false.
Proof.
  destruct d as [|c d]; [reflexivity|]. cbn [Str.forallb Str.startsWith].
  rewrite andb_true_iff. intros [Hc _]. now apply hex_digit_not_hash.
Qed.

Lemma length_double_each w :
  String.length (Str.double_each w) = (2 * String.length w)%nat.
Proof. induction w as [|c w IH]; cbn [Str.double_each String.length]; lia. Qed.

Lemma forallb_double_each p w : Str.forallb p (Str.double_each w) = Str.forallb p w.
Proof.
  induction w as [|c w IH]; cbn [Str.double_each Str.forallb]; [reflexivity|].
  rewrite IH. now destruct (p c).
Qed.

(** The test of the pattern on the expanded digits. *)
Lemma hex_pattern_expanded digits :
  Color.hex_pattern
    (if (String.length digits =? 3)%nat || (String.length digits =? 4)%nat
     then Str.double_each digits else digits)
  = Str.forallb Str.is_hex_digit digits
    && ((String.length digits =? 3)%nat || (String.length digits =? 4)%nat
        || (String.length digits =? 6)%nat || (String.length digits =? 8)%nat).
Proof.
  unfold Color.hex_pattern.
  destruct (Nat.eqb_spec (String.length digits) 3) as [E3|N3];
    [cbn [orb]; rewrite length_double_each, forallb_double_each, E3; cbn;
     now rewrite andb_true_r|].
  destruct (Nat.eqb_spec (String.length digits) 4) as [E4|N4];
    [cbn [orb]; rewrite length_double_each, forallb_double_each, E4; cbn;
     now rewrite andb_true_r|].
  cbn [orb]. apply andb_comm.
Qed.

End HexStrings.

Section HexStringsEngine.
Context `{Engine}.

Lemma fromHexNumber_outcome h :
  (exists c, Color.fromHexNumber h = Ok c)
  \/ Color.fromHexNumber h = Throw PlainError "Invalid hex value".
Proof.
  rewrite fromHexNumber_refines. destruct (hexNumberSpec h) as [o|] eqn:E; [left | now right].
  destruct (hexNumberSpec_rgba h o E) as (r & g & b & a & ->).
  rewrite constructor_rgba. eauto.
Qed.

Lemma fromHexString_unfold hex :
  Color.fromHexString hex
  = let string := Str.trim hex in
    let digits := if Str.startsWith string "#" then Str.slice1 string else string in
    if well_formed_hex hex
    then Color.fromHexNumber
           (Number.parseInt16
              (if (String.length digits =? 3)%nat || (String.length digits =? 4)%nat
               then Str.double_each digits else digits))
    else Throw PlainError "Invalid hex color format".
Proof.
  unfold Color.fromHexString, well_formed_hex. cbv zeta.
  rewrite hex_pattern_expanded.
  destruct (Str.forallb _ _ && _); reflexivity.
Qed.

(** X10: on a string of ASCII characters, [fromHexString] throws "Invalid
    hex color format" exactly when the string, trimmed and without one
    leading [#], is not made of 3, 4, 6 or 8 hex digits; white space around
    the string makes no difference to the result. *)
Theorem fromHexString_format (hex : string) :
  ascii_only hex = true ->
  (Color.fromHexString hex = Throw PlainError "Invalid hex color format"
   <-> well_formed_hex hex = false)
  /\ (forall a b, spaces a = true -> spaces b = true ->
                  Color.fromHexString (a ++ hex ++ b) = Color.fromHexString hex).
Proof.
  intros _. split.
  - rewrite fromHexString_unfold. cbv zeta.
    destruct (well_formed_hex hex); [|tauto].
    split; [|discriminate]. intros E.
    destruct (fromHexNumber_outcome
                (Number.parseInt16
                   (if (String.length
                          (if Str.startsWith (Str.trim hex) "#"
                           then Str.slice1 (Str.trim hex) else Str.trim hex) =? 3)%nat
                       || (String.length
                             (if Str.startsWith (Str.trim hex) "#"
                              then Str.slice1 (Str.trim hex) else Str.trim hex) =? 4)%nat
                    then Str.double_each
                           (if Str.startsWith (Str.trim hex) "#"
                            then Str.slice1 (Str.trim hex) else Str.trim hex)
                    else if Str.startsWith (Str.trim hex) "#"
                         then Str.slice1 (Str.trim hex) else Str.trim hex)))
      as [[c Hc] | Hc]; rewrite Hc in E; discriminate.
  - intros a b Ha Hb. unfold Color.fromHexString. now rewrite (trim_surrounded a hex b Ha Hb).
Qed.

(** X11: for a string of hex digits the leading [#] is optional, and a
    string of 3 or 4 digits gives the colour of the string with each digit
    doubled. *)
Theorem fromHexString_digits (d : string) :
  Str.forallb Str.is_hex_digit d = true ->
  Color.fromHexString (String "#" d) = Color.fromHexString d
  /\ ((String.length d = 3 \/ String.length d = 4)%nat ->
      Color.fromHexString d = Color.fromHexString (Str.double_each d)).
Proof.
  intros Hd. split.
  - unfold Color.fromHexString.
    rewrite (trim_hash_hex d Hd), (trim_hex d Hd), (startsWith_hex d Hd). reflexivity.
  - intros Hlen.
    assert (Hdd : Str.forallb Str.is_hex_digit (Str.double_each d) = true)
      by (now rewrite forallb_double_each).
    unfold Color.fromHexString.
    rewrite (trim_hex d Hd), (trim_hex _ Hdd), (startsWith_hex d Hd), (startsWith_hex _ Hdd).
    rewrite length_double_each.
    destruct Hlen as [-> | ->]; reflexivity.
Qed.

End HexStringsEngine.

Section LowerCase.
Close Scope float_scope.
Close Scope Z_scope.

(** A fact about every character, checked on each of them. *)
Ltac each_char c := destruct c as [[] [] [] [] [] [] [] []]; reflexivity.

Lemma is_space_lower c : Str.is_space (lower c) = Str.is_space c.
Proof. each_char c. Qed.

Lemma is_hex_digit_lower c : Str.is_hex_digit (lower c) = Str.is_hex_digit c.
Proof. each_char c. Qed.

Lemma hash_lower c : Str.eqb_ascii "#" (lower c) = Str.eqb_ascii "#" c.
Proof. each_char c. Qed.

Lemma hex_run_step c r acc n :
  Number.hex_run (String c r) acc n
  = match hex_digit_value c with
    | Some v => Number.hex_run r (16 * acc + v)%Z (S n)
    | None => (acc, n)
    end.
Proof.
  cbn [Number.hex_run]. unfold hex_digit_value. cbv zeta.
  destruct ((48 <=? _)%Z && _); [reflexivity|].
  destruct ((97 <=? _)%Z && _); [reflexivity|].
  destruct ((65 <=? _)%Z && _); reflexivity.
Qed.

Lemma hex_digit_value_lower c : hex_digit_value (lower c) = hex_digit_value c.
Proof. each_char c. Qed.

Lemma hex_run_lower s acc n :
  Number.hex_run (toLowerCase s) acc n = Number.hex_run s acc n.
Proof.
  revert acc n. induction s as [|c s IH]; intros acc n; [reflexivity|].
  cbn [toLowerCase]. rewrite !hex_run_step, hex_digit_value_lower.
  destruct (hex_digit_value c); [apply IH | reflexivity].
Qed.

Lemma parseInt16_lower s : Number.parseInt16 (toLowerCase s) = Number.parseInt16 s.
Proof. unfold Number.parseInt16. now rewrite hex_run_lower. Qed.

Lemma lower_app a b : toLowerCase (a ++ b) = toLowerCase a ++ toLowerCase b.
Proof. induction a as [|c a IH]; cbn [append toLowerCase]; [reflexivity | now rewrite IH]. Qed.

Lemma rev_lower s : Str.rev (toLowerCase s) = toLowerCase (Str.rev s).
Proof.
  induction s as [|c s IH]; [reflexivity|].
  cbn [toLowerCase]. now rewrite !rev_cons, IH, lower_app.
Qed.

Lemma trimStart_lower s : Str.trimStart (toLowerCase s) = toLowerCase (Str.trimStart s).
Proof.
  induction s as [|c s IH]; [reflexivity|]. cbn [toLowerCase Str.trimStart].
  rewrite is_space_lower. destruct (Str.is_space c); [exact IH | reflexivity].
Qed.

Lemma trim_lower s : Str.trim (toLowerCase s) = toLowerCase (Str.trim s).
Proof. unfold Str.trim. now rewrite trimStart_lower, rev_lower, trimStart_lower, rev_lower. Qed.

Lemma startsWith_lower s : Str.startsWith (toLowerCase s) "#" = Str.startsWith s "#".
Proof. destruct s as [|c s]; [reflexivity|]. apply hash_lower. Qed.

Lemma slice1_lower s : Str.slice1 (toLowerCase s) = toLowerCase (Str.slice1 s).
Proof. destruct s; reflexivity. Qed.

Lemma length_lower s : String.length (toLowerCase s) = String.length s.
Proof. induction s as [|c s IH]; cbn [toLowerCase String.length]; congruence. Qed.

Lemma double_each_lower s : Str.double_each (toLowerCase s) = toLowerCase (Str.double_each s).
Proof. induction s as [|c s IH]; cbn [toLowerCase Str.double_each]; congruence. Qed.

Lemma forallb_hex_lower s :
  Str.forallb Str.is_hex_digit (toLowerCase s) = Str.forallb Str.is_hex_digit s.
Proof.
  induction s as [|c s IH]; cbn [toLowerCase Str.forallb]; [reflexivity|].
  now rewrite is_hex_digit_lower, IH.
Qed.

Lemma hex_pattern_lower s : Color.hex_pattern (toLowerCase s) = Color.hex_pattern s.
Proof. unfold Color.hex_pattern. now rewrite length_lower, forallb_hex_lower. Qed.

End LowerCase.

(** X12: [fromHexString] does not tell upper case from lower case: on a
    string of ASCII characters, the string in lower case has the result of
    the string itself. *)
Theorem fromHexString_case `{Engine} (hex : string) :
  ascii_only hex = true ->
  Color.fromHexString (toLowerCase hex) = Color.fromHexString hex.
Proof.
  intros _. unfold Color.fromHexString. cbv zeta. rewrite trim_lower, startsWith_lower.
  set (string := Str.trim hex).
  assert (E : (if Str.startsWith string "#"
               then Str.slice1 (toLowerCase string) else toLowerCase string)
              = toLowerCase (if Str.startsWith string "#"
                             then Str.slice1 string else string)).
  { destruct (Str.startsWith string "#"); [apply slice1_lower | reflexivity]. }
  rewrite E. set (withoutHash := if Str.startsWith string "#" then _ else _).
  rewrite length_lower.
  assert (E' : (if (String.length withoutHash =? 3)%nat || (String.length withoutHash =? 4)%nat
                then Str.double_each (toLowerCase withoutHash) else toLowerCase withoutHash)
               = toLowerCase
                   (if (String.length withoutHash =? 3)%nat
                       || (String.length withoutHash =? 4)%nat
                    then Str.double_each withoutHash else withoutHash)).
  { destruct (_ || _); [apply double_each_lower | reflexivity]. }
  rewrite E', hex_pattern_lower, parseInt16_lower. reflexivity.
Qed.

(** ** Integers as binary64 numbers *)

Section IntegerNumbers.
Close Scope float_scope.

Lemma digits2_size p : digits2_pos p = Pos.size p.
Proof. induction p as [p IH|p IH|]; cbn; congruence. Qed.

Lemma iter_xO_value p k : Zpos (Pos.iter xO p k) = Zpos p * 2 ^ Zpos k.
Proof.
  revert p. induction k as [|k IH] using Pos.peano_ind; intros p.
  - cbn [Pos.iter]. lia.
  - rewrite Pos.iter_succ, Pos2Z.inj_succ, Z.pow_succ_r by lia.
    change (Zpos (Pos.iter xO p k)~0) with (2 * Zpos (Pos.iter xO p k)). rewrite IH. ring.
Qed.

Lemma digits2_iter p k : digits2_pos (Pos.iter xO p k) = (digits2_pos p + k)%positive.
Proof.
  induction k as [|k IH] using Pos.peano_ind.
  - cbn [Pos.iter digits2_pos]. lia.
  - rewrite Pos.iter_succ. cbn [digits2_pos]. rewrite IH. lia.
Qed.

Lemma digits2_bounds p :
  2 ^ (Zpos (digits2_pos p) - 1) <= Zpos p < 2 ^ Zpos (digits2_pos p).
Proof.
  rewrite digits2_size.
  pose proof (Pos.size_gt p) as Hgt. pose proof (Pos.size_le p) as Hle.
  apply Pos2Z.pos_lt_pos in Hgt. apply Pos2Z.pos_le_pos in Hle.
  rewrite Pos2Z.inj_pow in Hgt, Hle.
  change (Zpos p~0) with (2 * Zpos p) in Hle.
  replace (2 ^ Zpos (Pos.size p)) with (2 * 2 ^ (Zpos (Pos.size p) - 1)) in Hle
    by (rewrite <- Z.pow_succ_r by lia; f_equal; lia).
  lia.
Qed.

Lemma digits_small p : Zpos p < 2 ^ 53 -> Zpos (digits2_pos p) <= 53.
Proof.
  intros Hp. pose proof (digits2_bounds p) as [Hlo _].
  destruct (Z.le_gt_cases (Zpos (digits2_pos p)) 53) as [H|H]; [exact H|].
  assert (2 ^ 53 <= 2 ^ (Zpos (digits2_pos p) - 1)) by (apply Z.pow_le_mono_r; lia).
  lia.
Qed.

Lemma binary_normalize_small p :
  Zpos p < 2 ^ 53 -> binary_normalize prec emax (Zpos p) 0 false = normal p.
Proof.
  intros Hp. pose proof (digits_small p Hp) as Hd.
  unfold binary_normalize, binary_round, normal.
  set (d := Zpos (digits2_pos p)) in *.
  assert (Hd1 : 1 <= d) by (unfold d; lia).
  assert (Hfexp : forall x, -1021 <= x -> fexp prec emax x = x - 53).
  { intros x Hx. unfold fexp, SpecFloat.emin, prec, emax. lia. }
  rewrite Hfexp by lia. unfold shl_align.
  replace (d + 0 - 53 - 0) with (- (53 - d)) by lia.
  assert (Haux : forall m e,
             Zpos (digits2_pos m) = 53 -> -1021 <= e <= 971 ->
             binary_round_aux prec emax false (Zpos m) e loc_Exact = S754_finite false m e).
  { intros m e Hm He. unfold binary_round_aux, shr_fexp. cbn [Zdigits2].
    rewrite Hm, Hfexp by lia. replace (53 + e - 53 - e) with 0 by lia.
    cbn [shr shr_record_of_loc shr_m loc_of_shr_record round_nearest_even Zdigits2].
    rewrite Hm, Hfexp by lia. replace (53 + e - 53 - e) with 0 by lia.
    cbn [shr shr_record_of_loc shr_m]. unfold prec, emax.
    replace (e <=? 1024 - 53) with true by (symmetry; apply Z.leb_le; lia). reflexivity. }
  destruct (53 - d) as [|k|k] eqn:Ek; cbn [Z.opp].
  - replace (d + 0 - 53) with 0 by lia. replace (d - 53) with 0 by lia.
    apply Haux; [unfold d in *; lia | lia].
  - replace (d + 0 - 53) with (d - 53) by lia. apply Haux; [|lia].
    rewrite digits2_iter. unfold d in *. lia.
  - lia.
Qed.

Lemma of_Z_pos p : Zpos p < 2 ^ 53 -> Prim2SF (Number.of_Z (Zpos p)) = normal p.
Proof.
  intros Hp. unfold Number.of_Z. rewrite of_uint63_spec.
  rewrite Uint63.of_Z_spec. rewrite Z.mod_small.
  - now apply binary_normalize_small.
  - split; [lia|]. apply Z.lt_trans with (2 ^ 53); [exact Hp | reflexivity].
Qed.

(** The mantissa and the exponent of [normal p]. *)
Lemma normal_shape p :
  Zpos p < 2 ^ 53 ->
  exists m k,
    normal p = S754_finite false m (- k)
    /\ k = 53 - Zpos (digits2_pos p) /\ 0 <= k /\ Zpos m = Zpos p * 2 ^ k.
Proof.
  intros Hp. pose proof (digits_small p Hp) as Hd. unfold normal.
  destruct (53 - Zpos (digits2_pos p)) as [|k|k] eqn:Ek.
  - exists p, 0. repeat split; try lia. f_equal. lia.
  - exists (Pos.iter xO p k), (Zpos k). repeat split; try lia.
    + f_equal. lia.
    + apply iter_xO_value.
  - lia.
Qed.

Lemma isInteger_of_Z n : 0 <= n < 2 ^ 53 -> Number.isInteger (Number.of_Z n) = true.
Proof.
  intros Hn. destruct n as [|p|p]; [reflexivity| |lia].
  unfold Number.isInteger. rewrite of_Z_pos by lia.
  destruct (normal_shape p) as (m & k & -> & _ & Hk & Hm); [lia|].
  rewrite Z.opp_involutive, Hm, Z_mod_mult. apply orb_true_r.
Qed.

Lemma truncate_of_Z n : 0 <= n < 2 ^ 53 -> Number.truncate (Number.of_Z n) = n.
Proof.
  intros Hn. destruct n as [|p|p]; [reflexivity| |lia].
  unfold Number.truncate. rewrite of_Z_pos by lia.
  destruct (normal_shape p) as (m & k & -> & _ & Hk & Hm); [lia|].
  rewrite Z.opp_involutive, Hm.
  destruct (Z.leb_spec 0 (- k)).
  - assert (k = 0) by lia. subst k. rewrite Z.shiftl_0_r. lia.
  - rewrite Z.shiftr_div_pow2 by lia. apply Z_div_mult. apply Z.lt_gt, Z.pow_pos_nonneg; lia.
Qed.

Lemma normal_compare p q :
  Zpos p < 2 ^ 53 -> Zpos q < 2 ^ 53 ->
  SFcompare (normal p) (normal q) = Some (Zpos p ?= Zpos q).
Proof.
  intros Hp Hq.
  destruct (normal_shape p Hp) as (mp & kp & -> & Ekp & Hkp & Hmp).
  destruct (normal_shape q Hq) as (mq & kq & -> & Ekq & Hkq & Hmq).
  pose proof (digits2_bounds p) as [Lp Up]. pose proof (digits2_bounds q) as [Lq Uq].
  cbv beta iota delta [SFcompare]. f_equal.
  destruct (Z.compare_spec (- kp) (- kq)) as [E|E|E].
  - assert (Ek : kq = kp) by lia.
    change (Pos.compare_cont Eq mp mq) with (Zpos mp ?= Zpos mq).
    rewrite Hmp, Hmq, Ek. symmetry. apply Zmult_compare_compat_r.
    apply Z.lt_gt, Z.pow_pos_nonneg; lia.
  - symmetry. apply Z.compare_lt_iff.
    assert (2 ^ Zpos (digits2_pos p) <= 2 ^ (Zpos (digits2_pos q) - 1))
      by (apply Z.pow_le_mono_r; lia).
    lia.
  - symmetry. apply Z.compare_gt_iff.
    assert (2 ^ Zpos (digits2_pos q) <= 2 ^ (Zpos (digits2_pos p) - 1))
      by (apply Z.pow_le_mono_r; lia).
    lia.
Qed.

Lemma of_Z_compare a b :
  0 <= a < 2 ^ 53 -> 0 <= b < 2 ^ 53 ->
  SFcompare (Prim2SF (Number.of_Z a)) (Prim2SF (Number.of_Z b)) = Some (a ?= b).
Proof.
  intros Ha Hb. destruct a as [|p|p], b as [|q|q]; try lia.
  - reflexivity.
  - rewrite of_Z_pos by lia. destruct (normal_shape q) as (m & k & -> & _); [lia|]. reflexivity.
  - rewrite of_Z_pos by lia. destruct (normal_shape p) as (m & k & -> & _); [lia|]. reflexivity.
  - rewrite !of_Z_pos by lia. apply normal_compare; lia.
Qed.

Lemma of_Z_leb a b :
  0 <= a < 2 ^ 53 -> 0 <= b < 2 ^ 53 ->
  PrimFloat.leb (Number.of_Z a) (Number.of_Z b) = (a <=? b).
Proof.
  intros Ha Hb. rewrite leb_spec. unfold SFleb. rewrite (of_Z_compare a b Ha Hb).
  unfold Z.leb. destruct (a ?= b); reflexivity.
Qed.

Lemma of_Z_ltb a b :
  0 <= a < 2 ^ 53 -> 0 <= b < 2 ^ 53 ->
  PrimFloat.ltb (Number.of_Z a) (Number.of_Z b) = (a <? b).
Proof.
  intros Ha Hb. rewrite ltb_spec. unfold SFltb. rewrite (of_Z_compare a b Ha Hb).
  unfold Z.ltb. destruct (a ?= b); reflexivity.
Qed.

Lemma of_decimal_integer v : 0 <= v < 2 ^ 53 -> Number.of_decimal false v 0 = Number.of_Z v.
Proof.
  intros Hv. destruct v as [|p|p]; [reflexivity| |lia].
  assert (E : Number.of_decimal false (Zpos p) 0
              = SF2Prim (binary_normalize prec emax (Zpos p * 10 ^ 0) 0 false)) by reflexivity.
  rewrite E. clear E. rewrite Z.pow_0_r, Z.mul_1_r.
  rewrite (binary_normalize_small p) by lia.
  rewrite <- (of_Z_pos p) by lia. apply SF2Prim_Prim2SF.
Qed.

End IntegerNumbers.

(** ** Hex strings as integers *)

Section HexIntegers.
Close Scope float_scope.

Lemma hex_digit_value_spec c :
  Str.is_hex_digit c = true ->
  hex_digit_value c = Some (Str.hex_value c) /\ 0 <= Str.hex_value c < 16.
Proof.
  destruct c as [[] [] [] [] [] [] [] []]; intros Hc; try discriminate Hc;
    (split; [reflexivity | vm_compute; split; [discriminate | reflexivity]]).
Qed.

Lemma hex_run_digits s acc n :
  Str.forallb Str.is_hex_digit s = true ->
  Number.hex_run s acc n = (hex_number s acc, (n + String.length s)%nat).
Proof.
  revert acc n. induction s as [|c s IH]; intros acc n; cbn [Str.forallb].
  - intros _. cbn. f_equal. lia.
  - rewrite andb_true_iff. intros [Hc Hs]. rewrite hex_run_step.
    destruct (hex_digit_value_spec c Hc) as [-> _]. rewrite (IH _ _ Hs).
    cbn [hex_number String.length]. f_equal. lia.
Qed.

Lemma hex_number_bounds s acc :
  Str.forallb Str.is_hex_digit s = true -> 0 <= acc ->
  acc * 16 ^ Z.of_nat (String.length s) <= hex_number s acc
  < (acc + 1) * 16 ^ Z.of_nat (String.length s).
Proof.
  revert acc. induction s as [|c s IH]; intros acc; cbn [Str.forallb].
  - intros _ Ha. cbn. lia.
  - rewrite andb_true_iff. intros [Hc Hs] Ha.
    destruct (hex_digit_value_spec c Hc) as [_ Hv].
    cbn [hex_number String.length]. rewrite Nat2Z.inj_succ, Z.pow_succ_r by lia.
    specialize (IH (16 * acc + Str.hex_value c) Hs ltac:(lia)).
    assert (0 < 16 ^ Z.of_nat (String.length s)) by (apply Z.pow_pos_nonneg; lia).
    nia.
Qed.

Lemma parseInt16_digits s :
  Str.forallb Str.is_hex_digit s = true ->
  (1 <= String.length s <= 8)%nat ->
  0 <= hex_number s 0 <= 0xFFFFFFFF
  /\ Number.parseInt16 s = Number.of_Z (hex_number s 0).
Proof.
  intros Hs Hlen. pose proof (hex_number_bounds s 0 Hs ltac:(lia)) as Hb.
  assert (H16 : 16 ^ Z.of_nat (String.length s) <= 16 ^ 8)
    by (apply Z.pow_le_mono_r; lia).
  change (16 ^ 8) with 4294967296 in H16.
  split; [lia|].
  unfold Number.parseInt16. rewrite (hex_run_digits s 0 0 Hs).
  destruct (String.length s) as [|k] eqn:E; [lia|]. cbn [Nat.add].
  apply of_decimal_integer. change (2 ^ 53) with 9007199254740992. lia.
Qed.

End HexIntegers.

Lemma hexNumberSpec_of_Z n :
  (0 <= n <= 0xFFFFFFFF)%Z -> hexNumberSpec (Number.of_Z n) = Some (hexInteger n).
Proof.
  intros Hn.
  assert (Hn53 : (0 <= n < 2 ^ 53)%Z) by (change (2 ^ 53)%Z with 9007199254740992%Z; lia).
  unfold hexNumberSpec, hexInteger.
  rewrite (isInteger_of_Z n Hn53), (truncate_of_Z n Hn53).
  change 0 with (Number.of_Z 0). change 0xF_FF with (Number.of_Z 0xFFF).
  change 0xFF_FF with (Number.of_Z 0xFFFF). change 0xFF_FF_FF with (Number.of_Z 0xFFFFFF).
  change 0xFF_FF_FF_FF with (Number.of_Z 0xFFFFFFFF).
  rewrite of_Z_ltb, !of_Z_leb by (change (2 ^ 53)%Z with 9007199254740992%Z; lia).
  replace (n <? 0)%Z with false by (symmetry; apply Z.ltb_ge; lia). cbn [negb orb].
  destruct (n <=? 0xFFF)%Z; [reflexivity|].
  destruct (n <=? 0xFFFF)%Z; [reflexivity|].
  destruct (n <=? 0xFFFFFF)%Z; [reflexivity|].
  replace (n <=? 0xFFFFFFFF)%Z with true by (symmetry; apply Z.leb_le; lia). reflexivity.
Qed.

(** X13: [fromHexString] returns a colour for every well-formed string,
    and never throws "Invalid hex value": the digits (doubled when there are
    3 or 4) denote an integer [n] from 0 to 0xFFFFFFFF, [parseInt] yields
    its Number, and the result is [fromHexNumber] of it, the colour whose
    layout goes by the magnitude of [n]. *)
Theorem fromHexString_well_formed `{Engine} (hex : string) :
  well_formed_hex hex = true ->
  let string := Str.trim hex in
  let digits := if Str.startsWith string "#" then Str.slice1 string else string in
  let expanded :=
    if (String.length digits =? 3)%nat || (String.length digits =? 4)%nat
    then Str.double_each digits else digits in
  let n := hex_number expanded 0 in
  (0 <= n <= 0xFFFFFFFF)%Z
  /\ Color.fromHexString hex = Color.fromHexNumber (Number.of_Z n)
  /\ Color.fromHexString hex = Color.constructor (hexInteger n)
  /\ exists c, Color.fromHexString hex = Ok c.
Proof.
  intros Hwf. cbv zeta. rewrite fromHexString_unfold. cbv zeta. rewrite Hwf.
  unfold well_formed_hex in Hwf. cbv zeta in Hwf.
  set (digits := if Str.startsWith (Str.trim hex) "#"
                 then Str.slice1 (Str.trim hex) else Str.trim hex) in *.
  apply andb_true_iff in Hwf. destruct Hwf as [Hd Hlen].
  set (expanded := if (String.length digits =? 3)%nat || (String.length digits =? 4)%nat
                   then Str.double_each digits else digits).
  assert (Hex : Str.forallb Str.is_hex_digit expanded = true
                /\ (1 <= String.length expanded <= 8)%nat).
  { unfold expanded.
    destruct (Nat.eqb_spec (String.length digits) 3) as [E3|N3];
      [cbn [orb]; rewrite forallb_double_each, length_double_each; split; [exact Hd | lia]|].
    destruct (Nat.eqb_spec (String.length digits) 4) as [E4|N4];
      [cbn [orb]; rewrite forallb_double_each, length_double_each; split; [exact Hd | lia]|].
    cbn [orb] in Hlen |- *. split; [exact Hd|].
    apply orb_true_iff in Hlen. destruct Hlen as [Hlen|Hlen]; apply Nat.eqb_eq in Hlen; lia. }
  destruct Hex as [Hex Hexl].
  destruct (parseInt16_digits expanded Hex Hexl) as [Hn ->].
  split; [exact Hn|]. split; [reflexivity|].
  rewrite fromHexNumber_refines, (hexNumberSpec_of_Z _ Hn).
  split; [reflexivity|]. unfold hexInteger.
  destruct (_ <=? _)%Z; [rewrite constructor_rgba; eauto|].
  destruct (_ <=? _)%Z; [rewrite constructor_rgba; eauto|].
  destruct (_ <=? _)%Z; rewrite constructor_rgba; eauto.
Qed.

(** ** Rounding to four decimals *)

Section Rounding.
Close Scope float_scope.

Lemma all_from_spec p z n :
  all_from p z n = true -> forall k, z <= k < z + Z.of_nat n -> p k = true.
Proof.
  revert z. induction n as [|n IH]; intros z Hall k Hk; [lia|].
  cbn [all_from] in Hall. apply andb_true_iff in Hall. destruct Hall as [Hz Hrest].
  destruct (Z.eq_dec k z) as [->|Hne]; [exact Hz|].
  apply (IH (z + 1) Hrest). lia.
Qed.

Lemma grid_checked : all_from on_grid (-100000) (Z.to_nat 200001) = true.
Proof. vm_compute. reflexivity. Qed.

Lemma on_grid_spec r :
  -100000 <= r <= 100000 ->
  Number.Math_round (Number.of_Z r / 10_000 * 10_000)%float = Number.of_Z r.
Proof.
  intros Hr. apply Leibniz.eqb_spec.
  apply (all_from_spec on_grid (-100000) (Z.to_nat 200001) grid_checked).
  rewrite Z2Nat.id by lia. lia.
Qed.

(** The mantissa of a binary64 number has at most 53 bits. *)
Lemma mantissa_bound x s m e : Prim2SF x = S754_finite s m e -> Zpos m < 2 ^ 53.
Proof.
  intros E. pose proof (Prim2SF_valid x) as Hv. rewrite E in Hv.
  unfold valid_binary, bounded, canonical_mantissa in Hv.
  apply andb_true_iff in Hv. destruct Hv as [Hc _]. apply Z.eqb_eq in Hc.
  unfold fexp, SpecFloat.emin, prec, emax in Hc.
  pose proof (digits2_bounds m) as [_ Hu].
  assert (2 ^ Zpos (digits2_pos m) <= 2 ^ 53) by (apply Z.pow_le_mono_r; lia).
  lia.
Qed.

(** A number between -100000 and 100000 is a zero or has an exponent and
    a mantissa within those of 100000. *)
Lemma magnitude_bound x s m e :
  Prim2SF x = S754_finite s m e ->
  (-100_000 <=? x)%float = true -> (x <=? 100_000)%float = true ->
  e <= -36 /\ Zpos m <= 100000 * 2 ^ (- e).
Proof.
  intros E Hlo Hhi. pose proof (mantissa_bound x s m e E) as Hm.
  rewrite leb_spec in Hlo, Hhi. unfold SFleb in Hlo, Hhi. rewrite E in Hlo, Hhi.
  assert (Hcases : e < -36 \/ (e = -36 /\ Zpos m <= 6871947673600000)).
  { destruct s.
    - clear Hhi.
      change (Prim2SF (-100_000)%float) with (S754_finite true 6871947673600000 (-36)) in Hlo.
      cbv beta iota delta [SFcompare] in Hlo.
      destruct (Z.compare_spec (-36) e) as [He|He|He]; [|discriminate|left; lia].
      right. split; [lia|]. rewrite compare_cont_Z in Hlo.
      destruct (Z.compare_spec 6871947673600000 (Zpos m)); try discriminate; lia.
    - clear Hlo.
      change (Prim2SF 100_000%float) with (S754_finite false 6871947673600000 (-36)) in Hhi.
      cbv beta iota delta [SFcompare] in Hhi.
      destruct (Z.compare_spec e (-36)) as [He|He|He]; [|left; lia|discriminate].
      right. split; [lia|]. rewrite compare_cont_Z in Hhi.
      destruct (Z.compare_spec (Zpos m) 6871947673600000); try discriminate; lia. }
  destruct Hcases as [He | [-> Hm36]].
  - split; [lia|].
    assert (2 ^ 37 <= 2 ^ (- e)) by (apply Z.pow_le_mono_r; lia).
    change (2 ^ 53) with (65536 * 2 ^ 37) in Hm. lia.
  - split; [lia|]. change (2 ^ (- -36)) with 68719476736. lia.
Qed.

Lemma zero_cases x s :
  Prim2SF x = S754_zero s -> x = (if s then neg_zero else zero)%float.
Proof. intros E. apply Prim2SF_inj. rewrite E. now destruct s. Qed.

(** [Math.round] of a number between -100000 and 100000 is an integer of
    that range, or the negative zero. *)
Lemma Math_round_bounded y :
  (-100_000 <=? y)%float = true -> (y <=? 100_000)%float = true ->
  (exists r, -100000 <= r <= 100000 /\ Number.Math_round y = Number.of_Z r)
  \/ Number.Math_round y = neg_zero.
Proof.
  intros Hlo Hhi. unfold Number.Math_round.
  destruct (Prim2SF y) as [s|s| |s m e] eqn:E.
  - rewrite (zero_cases y s E). destruct s; [now right|]. left. exists 0. split; [lia|reflexivity].
  - exfalso. rewrite leb_spec in Hlo, Hhi. unfold SFleb in Hlo, Hhi. rewrite E in Hlo, Hhi.
    destruct s; [discriminate Hlo | discriminate Hhi].
  - exfalso. rewrite leb_spec in Hhi. unfold SFleb in Hhi. rewrite E in Hhi. discriminate.
  - destruct (magnitude_bound y s m e E Hlo Hhi) as [He Hm].
    replace (0 <=? e) with false by (symmetry; apply Z.leb_gt; lia).
    set (k := - e) in *. assert (Hk : 36 <= k) by (unfold k; lia).
    assert (Hpos : 0 < 2 ^ k) by (apply Z.pow_pos_nonneg; lia).
    assert (Hpow : 2 ^ (k + 1) = 2 * 2 ^ k) by (rewrite Z.pow_add_r by lia; change (2 ^ 1) with 2; lia).
    cbv zeta. rewrite Z.shiftr_div_pow2 by lia. rewrite Hpow.
    set (n := if s then Z.neg m else Z.pos m).
    assert (Hn : - (100000 * 2 ^ k) <= n <= 100000 * 2 ^ k /\ (s = true -> n < 0)
                 /\ (s = false -> 0 < n)).
    { unfold n. destruct s; repeat split; try lia; discriminate. }
    destruct Hn as (Hn & Hneg & Hnpos).
    set (r := (2 * n + 2 ^ k) / (2 * 2 ^ k)).
    assert (Hr : -100000 <= r <= 100000).
    { unfold r. split.
      - apply Z.div_le_lower_bound; lia.
      - assert ((2 * n + 2 ^ k) / (2 * 2 ^ k) < 100001); [|lia].
        apply Z.div_lt_upper_bound; lia. }
    destruct (Z.eqb_spec r 0) as [Hr0|Hr0].
    + destruct s; [now right|]. left. exists 0. split; [lia | reflexivity].
    + left. exists r. split; [exact Hr | reflexivity].
Qed.

End Rounding.

(** X14: rounding to four decimals twice is rounding once, for every
    number whose product with 10000 lies between -100000 and 100000 (every
    number of magnitude up to 10).  What the constructor has stored is
    therefore written unchanged by [toJSON], and read unchanged by
    [deserialize]. *)
Theorem roundToFourDecimals_idempotent (x : float) :
  (-100_000 <=? x * 10_000) = true -> (x * 10_000 <=? 100_000) = true ->
  roundToFourDecimals (roundToFourDecimals x) = roundToFourDecimals x.
Proof.
  intros Hlo Hhi. unfold roundToFourDecimals. cbv zeta.
  destruct (Math_round_bounded (x * 10_000) Hlo Hhi) as [(r & Hr & ->) | ->].
  - now rewrite (on_grid_spec r Hr).
  - reflexivity.
Qed.

(** ** Documents of palettes outside the gamut *)

Section OutOfGamut.
Context `{Engine}.

Lemma validate_numbers l :
  for_of (fun component =>
            if negb (Value.is_number component) || (Value.number component <? 0)
            then Throw PlainError "Component values must be numbers"
            else Ok tt) (map Num l)
  = if existsb (fun x => x <? 0) l
    then Throw PlainError "Component values must be numbers" else Ok tt.
Proof.
  induction l as [|x l IH]; [reflexivity|].
  cbn [map for_of existsb Value.is_number Value.number negb orb].
  destruct (x <? 0); [reflexivity|]. cbn [bind orb]. exact IH.
Qed.

Lemma length_json_components c :
  (List.length (Color.json_components c) = 3 \/ List.length (Color.json_components c) = 4)%nat.
Proof.
  unfold Color.json_components. destruct (Number.strict_neq _ _); cbn; auto.
Qed.

Lemma validate_color_toJSON c :
  validateColorComponent (Color.toJSON c)
  = if negative_component c
    then Throw PlainError "Component values must be numbers" else Ok tt.
Proof.
  unfold validateColorComponent, Color.toJSON, negative_component.
  cbn [Value.get Value.lookup String.eqb Ascii.eqb Bool.eqb bind].
  rewrite length_map.
  destruct (length_json_components c) as [-> | ->]; cbn [Nat.eqb negb andb];
    apply validate_numbers.
Qed.

Lemma validate_colors_toJSON cs :
  for_of validateColorComponent (map Color.toJSON cs)
  = if existsb negative_component cs
    then Throw PlainError "Component values must be numbers" else Ok tt.
Proof.
  induction cs as [|c cs IH]; [reflexivity|].
  cbn [map for_of existsb]. rewrite validate_color_toJSON.
  destruct (negative_component c); [reflexivity|]. cbn [bind orb]. exact IH.
Qed.

Lemma validatePalette_toJSON p :
  validatePalette (ColorPalette.toJSON p)
  = if existsb negative_component (ColorPalette.colors p)
    then Throw PlainError "Component values must be numbers" else Ok tt.
Proof.
  unfold validatePalette, ColorPalette.toJSON. cbn [Value.get bind].
  rewrite colors_lookup_palette. apply validate_colors_toJSON.
Qed.

(** X15: [serialize] returns the text of [JSON.stringify] with a tab as
    indentation, and [JSON.parse] reads that text back as the document
    [toJSON] gives, whenever the document holds finite numbers that print
    with digits that read back and no [undefined]. *)
Theorem serialize_parses_back (p : ColorPalette.t) :
  clean (ColorPalette.toJSON p) = true ->
  JSON.stringify (ColorPalette.toJSON p) ColorPalette.tab = Some (ColorPalette.serialize p)
  /\ JSON.parse (ColorPalette.serialize p) = Ok (ColorPalette.toJSON p).
Proof.
  intros Hc. split; [|now apply serialize_parses].
  unfold ColorPalette.serialize.
  destruct (clean_printable ColorPalette.tab eq_refl _ Hc EmptyString eq_refl)
    as (t & Ht & _).
  unfold JSON.stringify. now rewrite Ht.
Qed.

(** X16: [deserialize] rejects the serialisation of every palette with a
    colour one of whose rounded components is below zero, with "Component
    values must be numbers"; the serialisation of a palette without such a
    colour is read as a palette with as many colours. *)
Theorem negative_channel_rejected (p : ColorPalette.t) :
  clean (ColorPalette.toJSON p) = true ->
  (existsb negative_component (ColorPalette.colors p) = true ->
   ColorPalette.deserialize (ColorPalette.serialize p)
   = Throw PlainError "Component values must be numbers")
  /\ (existsb negative_component (ColorPalette.colors p) = false ->
      exists q,
        ColorPalette.deserialize (ColorPalette.serialize p) = Ok q
        /\ List.length (ColorPalette.colors q) = List.length (ColorPalette.colors p)).
Proof.
  intros Hc. pose proof (serialize_parses p Hc) as Hparse.
  pose proof (validatePalette_toJSON p) as Hv.
  unfold ColorPalette.deserialize. rewrite Hparse. cbn [bind]. split; intros Hneg;
    rewrite Hneg in Hv; rewrite Hv; cbn [bind]; [reflexivity|].
  apply accepted_colors in Hv. destruct Hv as (entries & Hget & Hall).
  destruct (revive_all_valid entries Hall) as (colors & Hmap & Hdec).
  destruct (get_total _ "colors" _ "name" Hget) as [name Hname].
  rewrite Hget, Hname. cbn [bind]. rewrite Hmap. cbn [bind].
  eexists. split; [reflexivity|]. cbn [ColorPalette.colors ColorPalette.constructor].
  assert (E : entries = map Color.toJSON (ColorPalette.colors p)).
  { unfold ColorPalette.toJSON in Hget. cbn [Value.get] in Hget.
    rewrite colors_lookup_palette in Hget. now injection Hget as <-. }
  apply Forall2_length in Hdec. rewrite <- Hdec, E. apply length_map.
Qed.

End OutOfGamut.

(** ** The opacity setter and the serialised components *)

Lemma ltb_not_eqb x y : (x <? y) = true -> (x =? y) = false.
Proof.
  rewrite ltb_spec, eqb_spec. unfold SFltb, SFeqb.
  destruct (SFcompare (Prim2SF x) (Prim2SF y)) as [[]|]; try discriminate; reflexivity.
Qed.

Lemma leb_cases x y : (x <=? y) = true -> (x <? y) = true \/ (x =? y) = true.
Proof.
  rewrite leb_spec, ltb_spec, eqb_spec. unfold SFleb, SFltb, SFeqb.
  destruct (SFcompare (Prim2SF x) (Prim2SF y)) as [[]|]; try discriminate; auto.
Qed.

Lemma leb_one_nan v : (1 <=? v) = false -> PrimFloat.is_nan v = false -> (v <? 1) = true.
Proof.
  intros H1 Hn. destruct (ltb_or_leb 1 v eq_refl Hn) as [H|H]; [exact H | congruence].
Qed.

(** X7: after the opacity setter, the serialised components are three
    exactly when the number assigned is at least 1, and four otherwise (for
    NaN too, whose place in the text is then [null]). *)
Theorem set_opacity_alpha (c c' : Color.t) (v : float) :
  Color.set_opacity c (Num v) = Ok c' ->
  (List.length (Color.json_components c') = 3%nat <-> (1 <=? v) = true)
  /\ (List.length (Color.json_components c') = 4%nat <-> (1 <=? v) = false).
Proof.
  unfold Color.set_opacity. cbn [Value.is_number negb Value.number]. intros [= <-].
  unfold Color.json_components. cbn [Color.opacity Color.linearRed Color.linearGreen
    Color.linearBlue].
  assert (Hcase : Number.strict_neq (clampOpacity v) 1 = negb (1 <=? v)).
  { unfold Number.strict_neq. f_equal.
    destruct (1 <=? v) eqn:H1.
    - destruct (leb_cases 1 v H1) as [Hlt|Heq].
      + now rewrite (clamp_above v Hlt).
      + assert (v = 1).
        { apply eqb_one. rewrite eqb_spec in *. unfold SFeqb in *.
          rewrite (SFcompare_antisym (Prim2SF 1) (Prim2SF v)).
          destruct (SFcompare (Prim2SF 1) (Prim2SF v)) as [[]|]; try discriminate; reflexivity. }
        subst v. reflexivity.
    - destruct (PrimFloat.is_nan v) eqn:Hn; [apply nan_unique in Hn; subst v; reflexivity|].
      pose proof (leb_one_nan v H1 Hn) as Hlt.
      destruct (ltb_or_leb 0 v eq_refl Hn) as [H0|H0].
      + rewrite (clamp_below v H0). reflexivity.
      + assert (Hle : (v <=? 1) = true).
        { rewrite leb_spec, ltb_spec in *. unfold SFleb, SFltb in *.
          destruct (SFcompare (Prim2SF v) (Prim2SF 1)) as [[]|]; try discriminate; reflexivity. }
        rewrite (clamp_inside v H0 Hle).
        destruct (Number.is_neg_zero v); [reflexivity | now apply ltb_not_eqb]. }
  rewrite Hcase. destruct (1 <=? v); cbn [negb app List.length];
    repeat split; intros; try reflexivity; discriminate.
Qed.

(** ** Names through the round trip *)

Section Names.
Context `{Engine}.

Lemma kept_name_color v comps :
  Value.lookup "name"
    (("components"%string, comps) :: (if Value.truthy v then [("name"%string, v)] else []))
  = kept_name v.
Proof. unfold kept_name. destruct (Value.truthy v); reflexivity. Qed.

Lemma kept_name_palette v cs :
  Value.lookup "name"
    ((if Value.truthy v then [("name"%string, v)] else []) ++ [("colors"%string, cs)])%list
  = kept_name v.
Proof. unfold kept_name. destruct (Value.truthy v); reflexivity. Qed.

Lemma channels_not_negative c : channels_ok c = true -> negative_component c = false.
Proof.
  unfold channels_ok. rewrite !andb_true_iff. intros [[[[Hr Hg] Hb] Ho] _].
  apply stable_spec in Hr, Hg, Hb, Ho.
  destruct Hr as (Hr & Hr0 & _), Hg as (Hg & Hg0 & _), Hb as (Hb & Hb0 & _),
    Ho as (Ho & Ho0 & _).
  unfold negative_component, Color.json_components. rewrite Hr, Hg, Hb, Ho.
  destruct (Number.strict_neq (Color.opacity c) 1); cbn [app existsb];
    now rewrite Hr0, Hg0, Hb0, ?Ho0.
Qed.

Lemma all_not_negative cs :
  forallb channels_ok cs = true -> existsb negative_component cs = false.
Proof.
  induction cs as [|c cs IH]; [reflexivity|]. cbn [forallb existsb].
  rewrite andb_true_iff. intros [Hc Hcs]. now rewrite (channels_not_negative c Hc), IH.
Qed.

Lemma revive_renamed c :
  channels_ok c = true -> ColorPalette.revive (Color.toJSON c) = Ok (renamed c).
Proof.
  unfold channels_ok. rewrite !andb_true_iff.
  intros [[[[Hr Hg] Hb] Ho] Ho1].
  apply stable_spec in Hr, Hg, Hb.
  destruct Hr as (Hr & _), Hg as (Hg & _), Hb as (Hb & _).
  pose proof (stable_spec _ Ho) as (Hor & _ & Ho0 & Hoz & _).
  pose proof (clamp_inside _ Ho0 Ho1) as Hc. rewrite Hoz in Hc.
  unfold ColorPalette.revive, Color.toJSON. cbn [Value.get bind].
  rewrite kept_name_color.
  cbn [Value.lookup String.eqb Ascii.eqb Bool.eqb]. cbn [bind].
  unfold Color.json_components, renamed. rewrite Hr, Hg, Hb.
  destruct c as [n r g b o]; cbn [Color.name Color.linearRed Color.linearGreen
    Color.linearBlue Color.opacity] in *.
  destruct (Number.strict_neq o 1) eqn:E; cbn [map app Value.nth nth Value.number].
  - unfold Color.constructor. cbn. now rewrite !Hr, !Hg, !Hb, !Hor, Hc, Hor.
  - apply strict_neq_one in E. subst o.
    unfold Color.constructor. cbn. rewrite !Hr, !Hg, !Hb. reflexivity.
Qed.

Lemma revive_all_renamed cs :
  forallb channels_ok cs = true ->
  map_result ColorPalette.revive (map Color.toJSON cs) = Ok (map renamed cs).
Proof.
  induction cs as [|c cs IH]; cbn [map map_result forallb]; [reflexivity|].
  rewrite andb_true_iff. intros [Hc Hcs].
  rewrite (revive_renamed c Hc). cbn [bind]. rewrite (IH Hcs). reflexivity.
Qed.

(** X17: the round trip keeps the names that are truthy and loses the
    others.  For every palette whose document prints without loss and whose
    colours store numbers the document keeps, [deserialize (serialize p)]
    is the palette [p] with every name that is empty or otherwise falsy
    replaced by [undefined]. *)
Theorem deserialize_serialize_names (p : ColorPalette.t) :
  clean (ColorPalette.toJSON p) = true ->
  forallb channels_ok (ColorPalette.colors p) = true ->
  ColorPalette.deserialize (ColorPalette.serialize p)
  = Ok {| ColorPalette.name := kept_name (ColorPalette.name p);
          ColorPalette.colors := map renamed (ColorPalette.colors p) |}.
Proof.
  intros Hc Hcs. unfold ColorPalette.deserialize.
  rewrite (serialize_parses p Hc). cbn [bind].
  rewrite validatePalette_toJSON, (all_not_negative _ Hcs). cbn [bind].
  unfold ColorPalette.toJSON. cbn [Value.get bind].
  rewrite colors_lookup_palette, kept_name_palette. cbn [bind].
  rewrite (revive_all_renamed _ Hcs). reflexivity.
Qed.

End Names.

(** ** The range of the stored opacity *)

Section Products.
Close Scope float_scope.

Lemma shr_1_m mrs : 0 <= shr_m mrs -> shr_m (shr_1 mrs) = shr_m mrs / 2.
Proof.
  destruct mrs as [m r s]. cbn [shr_m shr_1]. intros Hm.
  destruct m as [|[p|p|]|p]; cbn [shr_m]; try lia.
  - reflexivity.
  - apply (Z.div_unique_pos _ _ _ 1); lia.
  - apply (Z.div_unique_pos _ _ _ 0); lia.
  - reflexivity.
Qed.

Lemma pow2_xO n : 2 ^ Zpos n~0 = 2 ^ Zpos n * 2 ^ Zpos n.
Proof. replace (Zpos n~0) with (Zpos n + Zpos n) by lia. apply Z.pow_add_r; lia. Qed.

Lemma pow2_xI n : 2 ^ Zpos n~1 = 2 * (2 ^ Zpos n * 2 ^ Zpos n).
Proof.
  replace (Zpos n~1) with (1 + (Zpos n + Zpos n)) by lia.
  rewrite !Z.pow_add_r by lia. reflexivity.
Qed.

Lemma iter_shr_m n mrs :
  0 <= shr_m mrs ->
  shr_m (SpecFloat.iter_pos shr_1 n mrs) = shr_m mrs / 2 ^ Zpos n.
Proof.
  revert mrs. induction n as [n IH|n IH|]; intros mrs Hm; cbn [SpecFloat.iter_pos].
  - assert (H1 : 0 <= shr_m (shr_1 mrs)) by (rewrite shr_1_m by lia; apply Z.div_pos; lia).
    assert (H2 : 0 <= shr_m (SpecFloat.iter_pos shr_1 n (shr_1 mrs)))
      by (rewrite IH by lia; apply Z.div_pos; [lia | apply Z.pow_pos_nonneg; lia]).
    rewrite IH, IH, shr_1_m by lia.
    assert (Hp : 0 < 2 ^ Zpos n) by (apply Z.pow_pos_nonneg; lia).
    rewrite !Z.div_div by lia. f_equal. rewrite pow2_xI. ring.
  - assert (H2 : 0 <= shr_m (SpecFloat.iter_pos shr_1 n mrs))
      by (rewrite IH by lia; apply Z.div_pos; [lia | apply Z.pow_pos_nonneg; lia]).
    rewrite IH, IH by lia.
    assert (Hp : 0 < 2 ^ Zpos n) by (apply Z.pow_pos_nonneg; lia).
    rewrite !Z.div_div by lia. f_equal. now rewrite pow2_xO.
  - rewrite shr_1_m by lia. reflexivity.
Qed.

Lemma shr_record_m m l : shr_m (shr_record_of_loc m l) = m.
Proof. destruct l as [|[]]; reflexivity. Qed.

(** The shift that brings a mantissa to the exponent of its format. *)
Lemma shr_fexp_spec M E l :
  0 <= M ->
  exists mrs e',
    shr_fexp prec emax M E l = (mrs, e')
    /\ e' = Z.max E (fexp prec emax (Zdigits2 M + E))
    /\ shr_m mrs = M / 2 ^ (e' - E).
Proof.
  intros HM. unfold shr_fexp, shr.
  set (f := fexp prec emax (Zdigits2 M + E)).
  destruct (f - E) as [|p|p] eqn:Ep.
  - eexists _, _. split; [reflexivity|]. split; [lia|].
    rewrite shr_record_m. replace (E - E) with 0 by lia. now rewrite Z.div_1_r.
  - eexists _, _. split; [reflexivity|]. split; [lia|].
    rewrite iter_shr_m by (rewrite shr_record_m; lia).
    rewrite shr_record_m. f_equal. f_equal. lia.
  - eexists _, _. split; [reflexivity|]. split; [lia|].
    rewrite shr_record_m. replace (E - E) with 0 by lia. now rewrite Z.div_1_r.
Qed.

Lemma round_nearest_even_bound m l :
  m <= round_nearest_even m l <= m + 1.
Proof. destruct l as [|[]]; cbn; try lia. destruct (Z.even m); lia. Qed.

(** The exponent of the format of a mantissa whose value is below 2^14. *)
Lemma fexp_small M E :
  0 <= M -> 0 <= - E -> M < 16384 * 2 ^ (- E) -> fexp prec emax (Zdigits2 M + E) <= -39.
Proof.
  intros HM HE Hb. unfold fexp, SpecFloat.emin, prec, emax.
  destruct M as [|p|p]; [cbn; lia| |lia].
  cbn [Zdigits2]. pose proof (digits2_bounds p) as [Hlo _].
  assert (Hd : Zpos (digits2_pos p) - 1 < 14 - E).
  { apply (Z.pow_lt_mono_r_iff 2); [lia|lia|].
    replace (14 - E) with (14 + - E) by lia. rewrite Z.pow_add_r by lia.
    change (2 ^ 14) with 16384. lia. }
  lia.
Qed.

Lemma pow_split a b : 0 <= a -> 0 <= b -> 2 ^ (a + b) = 2 ^ a * 2 ^ b.
Proof. intros. now apply Z.pow_add_r. Qed.

(** The rounding of a product of value at most 10000. *)
Lemma product_round pm E :
  -1113 <= E <= -91 -> Zpos pm <= 10000 * 2 ^ (- E) ->
  match binary_round_aux prec emax false (Zpos pm) E loc_Exact with
  | S754_zero false => True
  | S754_finite false m e => e <= -39 /\ Zpos m <= 10000 * 2 ^ (- e) + 1
  | _ => False
  end.
Proof.
  intros HE HM. unfold binary_round_aux.
  destruct (shr_fexp_spec (Zpos pm) E loc_Exact) as (mrs1 & e1 & -> & He1 & Hm1); [lia|].
  set (m1 := shr_m mrs1) in *.
  set (m2 := round_nearest_even m1 (loc_of_shr_record mrs1)).
  pose proof (round_nearest_even_bound m1 (loc_of_shr_record mrs1)) as Hm2. fold m2 in Hm2.
  assert (HpE : 0 < 2 ^ (- E)) by (apply Z.pow_pos_nonneg; lia).
  assert (Hf1 : fexp prec emax (Zdigits2 (Zpos pm) + E) <= -39)
    by (apply fexp_small; lia).
  assert (He1' : E <= e1 <= -39) by lia.
  assert (Hp1 : 0 < 2 ^ (e1 - E)) by (apply Z.pow_pos_nonneg; lia).
  assert (Hp1' : 0 < 2 ^ (- e1)) by (apply Z.pow_pos_nonneg; lia).
  assert (Hsplit1 : 2 ^ (- E) = 2 ^ (- e1) * 2 ^ (e1 - E))
    by (rewrite <- pow_split by lia; f_equal; lia).
  assert (Hm1' : 0 <= m1 /\ m1 * 2 ^ (e1 - E) <= Zpos pm).
  { rewrite Hm1. split; [apply Z.div_pos; lia|].
    rewrite Z.mul_comm. apply Z.mul_div_le. lia. }
  assert (Hm2' : 0 <= m2 <= 10000 * 2 ^ (- e1) + 1).
  { split; [lia|]. 
    assert (m1 <= 10000 * 2 ^ (- e1)); [|lia].
    apply (proj2 (Z.mul_le_mono_pos_r m1 (10000 * 2 ^ (- e1)) (2 ^ (e1 - E)) Hp1)).
    rewrite <- Z.mul_assoc, <- Hsplit1. lia. }
  destruct (shr_fexp_spec m2 e1 loc_Exact) as (mrs2 & e2 & -> & He2 & Hm3); [lia|].
  set (m3 := shr_m mrs2) in *.
  assert (Hf2 : fexp prec emax (Zdigits2 m2 + e1) <= -39).
  { apply fexp_small; lia. }
  assert (He2' : e1 <= e2 <= -39) by lia.
  assert (Hp2 : 0 < 2 ^ (e2 - e1)) by (apply Z.pow_pos_nonneg; lia).
  assert (Hp2' : 0 < 2 ^ (- e2)) by (apply Z.pow_pos_nonneg; lia).
  assert (Hsplit2 : 2 ^ (- e1) = 2 ^ (- e2) * 2 ^ (e2 - e1))
    by (rewrite <- pow_split by lia; f_equal; lia).
  assert (Hm3' : 0 <= m3 /\ m3 * 2 ^ (e2 - e1) <= m2).
  { rewrite Hm3. split; [apply Z.div_pos; lia|].
    rewrite Z.mul_comm. apply Z.mul_div_le. lia. }
  assert (Hm3b : m3 <= 10000 * 2 ^ (- e2) + 1).
  { destruct (Z.le_gt_cases m3 (10000 * 2 ^ (- e2) + 1)) as [Hle|Hgt]; [exact Hle|].
    exfalso.
    assert ((10000 * 2 ^ (- e2) + 2) * 2 ^ (e2 - e1) <= m3 * 2 ^ (e2 - e1))
      by (apply Z.mul_le_mono_nonneg_r; lia).
    rewrite Hsplit2 in Hm2'. nia. }
  destruct m3 as [|p3|p3] eqn:E3.
  - exact I.
  - unfold prec, emax.
    replace (e2 <=? 1024 - 53) with true by (symmetry; apply Z.leb_le; lia).
    split; lia.
  - lia.
Qed.

End Products.

Section Scaled.
Close Scope float_scope.

Lemma exponent_bound x s m e : Prim2SF x = S754_finite s m e -> -1074 <= e.
Proof.
  intros E. pose proof (Prim2SF_valid x) as Hv. rewrite E in Hv.
  unfold valid_binary, bounded, canonical_mantissa in Hv.
  apply andb_true_iff in Hv. destruct Hv as [Hc _]. apply Z.eqb_eq in Hc.
  unfold fexp, SpecFloat.emin, prec, emax in Hc. lia.
Qed.

(** A number from 0 to 1 is a zero, or has a mantissa and an exponent
    within those of 1. *)
Lemma unit_bound x s m e :
  Prim2SF x = S754_finite s m e -> in_unit x = true ->
  s = false /\ -1074 <= e <= -52 /\ Zpos m <= 2 ^ (- e).
Proof.
  intros E Hu. unfold in_unit in Hu. apply andb_true_iff in Hu. destruct Hu as [H0 H1].
  pose proof (mantissa_bound x s m e E) as Hm. pose proof (exponent_bound x s m e E) as He.
  rewrite leb_spec in H0, H1. unfold SFleb in H0, H1. rewrite E in H0, H1.
  destruct s; [discriminate H0|]. split; [reflexivity|].
  change (Prim2SF 1%float) with (S754_finite false 4503599627370496 (-52)) in H1.
  cbv beta iota delta [SFcompare] in H1.
  destruct (Z.compare_spec e (-52)) as [He1|He1|He1]; [| |discriminate].
  - subst e. rewrite compare_cont_Z in H1. split; [lia|].
    change (2 ^ (- -52)) with 4503599627370496.
    destruct (Z.compare_spec (Zpos m) 4503599627370496); try discriminate; lia.
  - split; [lia|].
    assert (2 ^ 53 <= 2 ^ (- e)) by (apply Z.pow_le_mono_r; lia). lia.
Qed.

Lemma Math_round_scaled c :
  in_unit c = true ->
  (exists r, 0 <= r <= 10000 /\ Number.Math_round (c * 10_000)%float = Number.of_Z r)
  \/ Number.Math_round (c * 10_000)%float = neg_zero.
Proof.
  intros Hu. destruct (Prim2SF c) as [s|s| |s m e] eqn:E.
  - rewrite (zero_cases c s E). destruct s; [now right|]. left. exists 0. split; [lia|reflexivity].
  - exfalso. unfold in_unit in Hu. rewrite !leb_spec in Hu. unfold SFleb in Hu. rewrite E in Hu.
    destruct s; discriminate.
  - exfalso. unfold in_unit in Hu. rewrite !leb_spec in Hu. unfold SFleb in Hu. rewrite E in Hu.
    discriminate.
  - destruct (unit_bound c s m e E Hu) as (-> & He & Hm).
    assert (Hmul : Prim2SF (c * 10_000)%float
                   = binary_round_aux prec emax false
                       (Zpos (m * 5497558138880000)) (e + -39) loc_Exact).
    { rewrite mul_spec, E. reflexivity. }
    assert (Hp : 0 < 2 ^ (- e)) by (apply Z.pow_pos_nonneg; lia).
    assert (Hpow : 2 ^ (- (e + -39)) = 2 ^ (- e) * 549755813888).
    { replace (- (e + -39)) with (- e + 39) by lia. rewrite Z.pow_add_r by lia. reflexivity. }
    assert (HE : -1113 <= e + -39 <= -91) by lia.
    assert (HM : Zpos (m * 5497558138880000) <= 10000 * 2 ^ (- (e + -39)))
      by (rewrite Hpow, Pos2Z.inj_mul; nia).
    pose proof (product_round (m * 5497558138880000) (e + -39) HE HM) as Hr.
    rewrite <- Hmul in Hr. unfold Number.Math_round.
    destruct (Prim2SF (c * 10_000)%float) as [[]|[]| |[] m' e'] eqn:Ey; try contradiction.
    + left. exists 0. split; [lia|]. apply (zero_cases _ false Ey).
    + destruct Hr as [He' Hm'].
      replace (0 <=? e') with false by (symmetry; apply Z.leb_gt; lia).
      set (k := - e') in *. assert (Hk : 39 <= k) by (unfold k; lia).
      assert (Hk2 : 2 ^ 39 <= 2 ^ k) by (apply Z.pow_le_mono_r; lia).
      change (2 ^ 39) with 549755813888 in Hk2.
      assert (Hpk : 2 ^ (k + 1) = 2 * 2 ^ k)
        by (rewrite Z.pow_add_r by lia; change (2 ^ 1) with 2; lia).
      cbv zeta. rewrite Z.shiftr_div_pow2 by lia. rewrite Hpk.
      set (r := (2 * Zpos m' + 2 ^ k) / (2 * 2 ^ k)).
      assert (Hrr : 0 <= r <= 10000).
      { unfold r. split.
        - apply Z.div_pos; lia.
        - assert ((2 * Zpos m' + 2 ^ k) / (2 * 2 ^ k) < 10001); [|lia].
          apply Z.div_lt_upper_bound; lia. }
      left. destruct (Z.eqb_spec r 0) as [Hr0|Hr0].
      * exists 0. split; [lia | reflexivity].
      * exists r. split; [exact Hrr | reflexivity].
Qed.

Lemma unit_grid_checked :
  all_from (fun r => in_unit (Number.of_Z r / 10_000)%float) 0 (Z.to_nat 10001) = true.
Proof. vm_compute. reflexivity. Qed.

Lemma rounded_unit c : in_unit c = true -> in_unit (roundToFourDecimals c) = true.
Proof.
  intros Hu. unfold roundToFourDecimals. cbv zeta.
  destruct (Math_round_scaled c Hu) as [(r & Hr & ->) | ->]; [|reflexivity].
  apply (all_from_spec _ 0 (Z.to_nat 10001) unit_grid_checked).
  rewrite Z2Nat.id by lia. lia.
Qed.

Lemma constructed_opacity x : opacity_valid (roundToFourDecimals (clampOpacity x)).
Proof.
  destruct (clampOpacity_cases x) as [[_ ->] | (H0 & H1 & _)].
  - left. reflexivity.
  - right. apply rounded_unit. unfold in_unit. now rewrite H0, H1.
Qed.

Lemma clamped_opacity x : opacity_valid (clampOpacity x).
Proof.
  destruct (clampOpacity_cases x) as [[_ ->] | (H0 & H1 & _)].
  - left. reflexivity.
  - right. unfold in_unit. now rewrite H0, H1.
Qed.

End Scaled.

Section Invariant.
Context `{Engine}.

Lemma constructor_opacity o c :
  Color.constructor o = Ok c -> opacity_valid (Color.opacity c).
Proof.
  unfold Color.constructor.
  destruct (validateComponent (Options.red o) "Red"); [|discriminate].
  destruct (validateComponent (Options.green o) "Green"); [|discriminate].
  destruct (validateComponent (Options.blue o) "Blue"); [|discriminate].
  destruct (validateComponent _ "Opacity"); [|discriminate].
  cbn [bind]. intros [= <-]. cbn [Color.opacity]. apply constructed_opacity.
Qed.

Lemma fromHexNumber_constructed h c :
  Color.fromHexNumber h = Ok c -> exists o, Color.constructor o = Ok c.
Proof.
  rewrite fromHexNumber_refines. destruct (hexNumberSpec h) as [o|]; [eauto | discriminate].
Qed.

Lemma fromHexString_constructed s c :
  Color.fromHexString s = Ok c -> exists o, Color.constructor o = Ok c.
Proof.
  unfold Color.fromHexString. cbv zeta. destruct (negb _); [discriminate|].
  apply fromHexNumber_constructed.
Qed.

Lemma revive_constructed e c :
  ColorPalette.revive e = Ok c -> exists o, Color.constructor o = Ok c.
Proof.
  unfold ColorPalette.revive.
  destruct (Value.get e "components"); [|discriminate]. cbn [bind].
  destruct (Value.get e "name"); [|discriminate]. cbn [bind]. eauto.
Qed.

Lemma map_revive_constructed entries colors :
  map_result ColorPalette.revive entries = Ok colors ->
  Forall (fun c => exists o, Color.constructor o = Ok c) colors.
Proof.
  revert colors. induction entries as [|e entries IH]; intros colors; cbn [map_result].
  - intros [= <-]. constructor.
  - destruct (ColorPalette.revive e) as [c|] eqn:Ec; [|discriminate]. cbn [bind].
    destruct (map_result ColorPalette.revive entries) as [cs|]; [|discriminate]. cbn [bind].
    intros [= <-]. constructor; [now apply (revive_constructed e) | now apply IH].
Qed.

Lemma deserialize_constructed data p :
  ColorPalette.deserialize data = Ok p ->
  Forall (fun c => exists o, Color.constructor o = Ok c) (ColorPalette.colors p).
Proof.
  unfold ColorPalette.deserialize.
  destruct (JSON.parse data) as [doc|]; [|discriminate]. cbn [bind].
  destruct (validatePalette doc); [|discriminate]. cbn [bind].
  destruct (Value.get doc "colors") as [entries|]; [|discriminate]. cbn [bind].
  destruct (map_result ColorPalette.revive _) as [colors|] eqn:Em; [|discriminate]. cbn [bind].
  destruct (Value.get doc "name"); [|discriminate]. cbn [bind].
  intros [= <-]. cbn [ColorPalette.colors ColorPalette.constructor].
  now apply (map_revive_constructed _ _ Em).
Qed.

(** X18: the opacity every colour stores is NaN or a number from 0 to 1,
    whatever the colour comes from: the constructor, [fromHexNumber],
    [fromHexString], [deserialize], or assignments to the channels and to
    the opacity of such a colour.  The rounding to four decimals does not
    leave the interval. *)
Theorem opacity_invariant (c : Color.t) :
  reachable c -> opacity_valid (Color.opacity c).
Proof.
  induction 1 as [o c Hc | h c Hc | s c Hc | data p c Hp Hin
                  | c v c' _ IH Hs | c v c' _ IH Hs | c v c' _ IH Hs | c v c' _ _ Hs].
  - now apply (constructor_opacity o).
  - destruct (fromHexNumber_constructed h c Hc) as [o Ho]. now apply (constructor_opacity o).
  - destruct (fromHexString_constructed s c Hc) as [o Ho]. now apply (constructor_opacity o).
  - pose proof (deserialize_constructed data p Hp) as Hall.
    rewrite Forall_forall in Hall. destruct (Hall c Hin) as [o Ho].
    now apply (constructor_opacity o).
  - unfold Color.set_red in Hs. destruct (negb _); [discriminate|]. now injection Hs as <-.
  - unfold Color.set_green in Hs. destruct (negb _); [discriminate|]. now injection Hs as <-.
  - unfold Color.set_blue in Hs. destruct (negb _); [discriminate|]. now injection Hs as <-.
  - unfold Color.set_opacity in Hs. destruct (negb _); [discriminate|]. injection Hs as <-.
    cbn [Color.opacity]. apply clamped_opacity.
Qed.

End Invariant.

(** ** The errors of [deserialize] *)

Section Errors.
Context `{Engine}.

Lemma parse_throws data cls message :
  JSON.parse data = Throw cls message -> cls = SyntaxError.
Proof.
  unfold JSON.parse. destruct (JSON.parse_value _ data) as [v rest|a]; [|now intros [= <- _]].
  destruct (JSON.skip_ws rest); [discriminate | now intros [= <- _]].
Qed.

Lemma get_throws v k cls message :
  Value.get v k = Throw cls message -> cls = TypeError /\ property_access_error message.
Proof.
  destruct v; cbn [Value.get]; try discriminate; intros [= <- <-];
    (split; [reflexivity | exists k; auto]).
Qed.

Lemma for_of_throws {A} (f : A -> result unit) l cls message :
  for_of f l = Throw cls message -> exists x, In x l /\ f x = Throw cls message.
Proof.
  induction l as [|x l IH]; cbn [for_of]; [discriminate|].
  destruct (f x) as [[]|c m] eqn:E; cbn [bind].
  - intros Hl. destruct (IH Hl) as (y & Hy & Hfy). exists y. split; [now right | exact Hfy].
  - intros [= <- <-]. exists x. split; [now left | exact E].
Qed.

Lemma validateColorComponent_throws color cls message :
  validateColorComponent color = Throw cls message -> validation_error cls message.
Proof.
  unfold validateColorComponent, validation_error.
  destruct (Value.get color "components") as [comps|c m] eqn:Eg; cbn [bind].
  - destruct comps as [ | | | | | l | ]; try (intros [= <- <-]; left; auto).
    destruct (negb _ && negb _); [intros [= <- <-]; right; auto|].
    intros Hf. apply for_of_throws in Hf. destruct Hf as (x & _ & Hx).
    destruct (negb _ || _); [|discriminate]. injection Hx as <- <-. right. auto.
  - intros [= <- <-]. apply get_throws in Eg. left. tauto.
Qed.

Lemma validatePalette_throws doc cls message :
  validatePalette doc = Throw cls message -> validation_error cls message.
Proof.
  unfold validatePalette.
  destruct (Value.get doc "colors") as [colors|c m] eqn:Eg; cbn [bind].
  - destruct colors as [ | | | | | l | ];
      try (intros [= <- <-]; left; split; [reflexivity | auto]).
    intros Hf. apply for_of_throws in Hf. destruct Hf as (x & _ & Hx).
    now apply (validateColorComponent_throws x).
  - intros [= <- <-]. apply get_throws in Eg. left. split; [tauto|]. right. right. tauto.
Qed.

(** X19: an error of [deserialize] is the [SyntaxError] of [JSON.parse],
    or an error of the validation: a [TypeError] with "Colors must be an
    array", with "Components must be an array" or of a read of a property
    of [null] or [undefined], or an [Error] with "Components must have 3 or
    4 values" or "Component values must be numbers".  No error of the
    constructor of [Color] comes out of it. *)
Theorem deserialize_errors (data : string) (cls : errorClass) (message : string) :
  ColorPalette.deserialize data = Throw cls message ->
  (cls = SyntaxError /\ JSON.parse data = Throw SyntaxError message)
  \/ (exists doc, JSON.parse data = Ok doc /\ validatePalette doc = Throw cls message
                  /\ validation_error cls message).
Proof.
  intros Hd. destruct (JSON.parse data) as [doc|c m] eqn:Ep.
  - right. exists doc. split; [reflexivity|].
    destruct (validatePalette doc) as [[]|c m] eqn:Ev.
    + exfalso. unfold ColorPalette.deserialize in Hd. rewrite Ep in Hd. cbn [bind] in Hd.
      rewrite Ev in Hd. cbn [bind] in Hd.
      apply accepted_colors in Ev. destruct Ev as (entries & Hget & Hall).
      destruct (revive_all_valid entries Hall) as (colors & Hmap & _).
      destruct (get_total doc "colors" _ "name" Hget) as [name Hname].
      rewrite Hget, Hname in Hd. cbn [bind] in Hd. rewrite Hmap in Hd. discriminate.
    + unfold ColorPalette.deserialize in Hd. rewrite Ep in Hd. cbn [bind] in Hd.
      rewrite Ev in Hd. cbn [bind] in Hd. injection Hd as <- <-.
      split; [reflexivity|]. now apply (validatePalette_throws doc).
  - left. unfold ColorPalette.deserialize in Hd. rewrite Ep in Hd. cbn [bind] in Hd.
    injection Hd as <- <-. pose proof (parse_throws _ _ _ Ep) as ->. auto.
Qed.

End Errors.

(** ** The properties on inputs *)

Section Inputs.

(** X7 on the assignment of one half. *)
Lemma set_opacity_alpha_half :
  Color.set_opacity black (Num 0.5) = Ok (Color.make Undefined 0 0 0 0.5)
  /\ List.length (Color.json_components (Color.make Undefined 0 0 0 0.5)) = 4%nat.
Proof.
  assert (H : Color.set_opacity black (Num 0.5) = Ok (Color.make Undefined 0 0 0 0.5))
    by reflexivity.
  split; [exact H|].
  exact (proj2 (proj2 (set_opacity_alpha black _ 0.5 H)) eq_refl).
Defined.

(** X10 on a string of five digits. *)
Lemma fromHexString_format_five :
  ascii_only "12345" = true
  /\ Color.fromHexString (H := reference_engine) "12345"
     = Throw PlainError "Invalid hex color format".
Proof.
  split; [reflexivity|].
  exact (proj2 (proj1 (@fromHexString_format reference_engine "12345" eq_refl)) eq_refl).
Defined.

(** X11 on a string of four digits. *)
Lemma fromHexString_digits_F008 :
  Str.forallb Str.is_hex_digit "F008" = true
  /\ Color.fromHexString (H := reference_engine) "#F008"
     = Color.fromHexString (H := reference_engine) "F008"
  /\ Color.fromHexString (H := reference_engine) "F008"
     = Color.fromHexString (H := reference_engine) "FF000088".
Proof.
  split; [reflexivity|]. split.
  - exact (proj1 (@fromHexString_digits reference_engine "F008" eq_refl)).
  - exact (proj2 (@fromHexString_digits reference_engine "F008" eq_refl) (or_intror eq_refl)).
Defined.

(** X12 on a string of capital letters. *)
Lemma fromHexString_case_capitals :
  ascii_only "#ABCDEF" = true
  /\ Color.fromHexString (H := reference_engine) "#abcdef"
     = Color.fromHexString (H := reference_engine) "#ABCDEF".
Proof.
  split; [reflexivity|].
  exact (@fromHexString_case reference_engine "#ABCDEF" eq_refl).
Defined.

(** X13 on the six digits of pure blue, which are read as the integer
    255. *)
Lemma fromHexString_well_formed_blue :
  well_formed_hex "#0000FF" = true
  /\ Color.fromHexString (H := reference_engine) "#0000FF"
     = Color.constructor (H := reference_engine) (hexInteger 255).
Proof.
  split; [reflexivity|].
  exact (proj1 (proj2 (proj2 (@fromHexString_well_formed reference_engine "#0000FF" eq_refl)))).
Defined.

(** X14 on a number at a boundary of the rounding. *)
Lemma roundToFourDecimals_idempotent_boundary :
  (-100_000 <=? 0.123_45 * 10_000) = true
  /\ (0.123_45 * 10_000 <=? 100_000) = true
  /\ roundToFourDecimals (roundToFourDecimals 0.123_45) = roundToFourDecimals 0.123_45.
Proof.
  split; [reflexivity|]. split; [reflexivity|].
  exact (roundToFourDecimals_idempotent 0.123_45 eq_refl eq_refl).
Defined.

Lemma wide_gamut_clean : clean (ColorPalette.toJSON wide_gamut) = true.
Proof. vm_compute. reflexivity. Qed.

(** X15 on a palette with a negative channel. *)
Lemma serialize_parses_back_wide :
  clean (ColorPalette.toJSON wide_gamut) = true
  /\ JSON.parse (ColorPalette.serialize wide_gamut) = Ok (ColorPalette.toJSON wide_gamut).
Proof.
  split; [exact wide_gamut_clean|].
  exact (proj2 (serialize_parses_back wide_gamut wide_gamut_clean)).
Defined.

(** X16 on the same palette. *)
Lemma negative_channel_rejected_wide :
  clean (ColorPalette.toJSON wide_gamut) = true
  /\ existsb negative_component (ColorPalette.colors wide_gamut) = true
  /\ ColorPalette.deserialize (H := reference_engine) (ColorPalette.serialize wide_gamut)
     = Throw PlainError "Component values must be numbers".
Proof.
  split; [exact wide_gamut_clean|]. split; [reflexivity|].
  exact (proj1 (@negative_channel_rejected reference_engine wide_gamut wide_gamut_clean)
           eq_refl).
Defined.

Lemma unnamed_clean : clean (ColorPalette.toJSON unnamed) = true.
Proof. vm_compute. reflexivity. Qed.

Lemma unnamed_channels : forallb channels_ok (ColorPalette.colors unnamed) = true.
Proof. vm_compute. reflexivity. Qed.

(** X17 on a palette with empty names. *)
Lemma deserialize_serialize_names_empty :
  clean (ColorPalette.toJSON unnamed) = true
  /\ forallb channels_ok (ColorPalette.colors unnamed) = true
  /\ ColorPalette.deserialize (H := reference_engine) (ColorPalette.serialize unnamed)
     = Ok (ColorPalette.constructor
             [ {| Color.name := Undefined; Color.linearRed := 1; Color.linearGreen := 0;
                  Color.linearBlue := 0; Color.opacity := 0.5 |} ]
             Undefined).
Proof.
  split; [exact unnamed_clean|]. split; [exact unnamed_channels|].
  exact (@deserialize_serialize_names reference_engine unnamed unnamed_clean unnamed_channels).
Defined.

(** X18 on the colour constructed with the opacity 2. *)
Lemma opacity_invariant_black :
  reachable (H := reference_engine) black /\ opacity_valid (Color.opacity black).
Proof.
  assert (Hr : reachable (H := reference_engine) black)
    by (apply (by_constructor (Options.rgba 0 0 0 2)); reflexivity).
  split; [exact Hr|]. exact (@opacity_invariant reference_engine black Hr).
Defined.

(** X19 on the empty object. *)
Lemma deserialize_errors_empty_object :
  ColorPalette.deserialize (H := reference_engine) "{}"
  = Throw TypeError "Colors must be an array"
  /\ ((TypeError = SyntaxError
       /\ JSON.parse "{}" = Throw SyntaxError "Colors must be an array")
      \/ (exists doc, JSON.parse "{}" = Ok doc
                      /\ validatePalette doc = Throw TypeError "Colors must be an array"
                      /\ validation_error TypeError "Colors must be an array")).
Proof.
  assert (Hd : ColorPalette.deserialize (H := reference_engine) "{}"
               = Throw TypeError "Colors must be an array") by reflexivity.
  split; [exact Hd|]. exact (@deserialize_errors reference_engine "{}" _ _ Hd).
Defined.

End Inputs.


(** ** The validation table of [deserialize] *)

Section TableOfErrors.
Context `{Engine}.

Lemma for_of_refused l :
  Exists refused l ->
  for_of (fun component =>
            if negb (Value.is_number component) || (Value.number component <? 0)
            then Throw PlainError "Component values must be numbers"
            else Ok tt) l
  = Throw PlainError "Component values must be numbers".
Proof.
  induction l as [|v l IH]; intros Hex; [inversion Hex|]. cbn [for_of].
  destruct (negb (Value.is_number v) || (Value.number v <? 0)) eqn:E; [reflexivity|].
  cbn [bind]. apply IH. inversion Hex as [? ? Hv|? ? Hl]; subst; [|exact Hl].
  exfalso. apply Hv. apply component_check. now rewrite E.
Qed.

Lemma entry_error data doc pre entry post cls message :
  JSON.parse data = Ok doc ->
  Value.get doc "colors" = Ok (Arr (pre ++ entry :: post)) ->
  Forall (fun e => validateColorComponent e = Ok tt) pre ->
  validateColorComponent entry = Throw cls message ->
  ColorPalette.deserialize data = Throw cls message.
Proof.
  intros Hp Hc Hpre He. unfold ColorPalette.deserialize. rewrite Hp. cbn [bind].
  unfold validatePalette. rewrite Hc. cbn [bind].
  now rewrite (for_of_first_error _ pre entry post cls message Hpre He).
Qed.

(** C5: [deserialize] fails as the validation table states.  On the text
    "/" it throws a syntax error whose message contains "not valid JSON",
    and on "{}" the error "Colors must be an array".  On every document
    whose colours are an array, the first entry that the validation refuses
    decides: if its components are not an array the error is "Components
    must be an array"; if they are an array of a length other than 3 and 4
    (of 2 elements, say) it is "Components must have 3 or 4 values"; if
    they are 3 or 4 elements one of which is not a number or is a number
    below 0 (-1, say, at any position) it is "Component values must be
    numbers". *)
Theorem deserialize_validation :
  (exists message,
      ColorPalette.deserialize "/" = Throw SyntaxError message
      /\ includes "not valid JSON" message = true)
  /\ ColorPalette.deserialize "{}" = Throw TypeError "Colors must be an array"
  /\ (forall data doc pre entry post components,
        JSON.parse data = Ok doc ->
        Value.get doc "colors" = Ok (Arr (pre ++ entry :: post)) ->
        Forall (fun e => validateColorComponent e = Ok tt) pre ->
        Value.get entry "components" = Ok components ->
        ((forall l, components <> Arr l) ->
         ColorPalette.deserialize data = Throw TypeError "Components must be an array")
        /\ (forall l, components = Arr l ->
              List.length l <> 3%nat -> List.length l <> 4%nat ->
              ColorPalette.deserialize data
              = Throw PlainError "Components must have 3 or 4 values")
        /\ (forall l, components = Arr l ->
              (List.length l = 3 \/ List.length l = 4)%nat ->
              Exists refused l ->
              ColorPalette.deserialize data
              = Throw PlainError "Component values must be numbers"))
  /\ refused (Num (-1)) /\ refused (Str "1") /\ refused Null.
Proof.
  split; [eexists; split; vm_compute; reflexivity|].
  split; [vm_compute; reflexivity|].
  split.
  - intros data doc pre entry post components Hp Hc Hpre Hg.
    split; [|split].
    + intros Hna. apply (entry_error data doc pre entry post); try assumption.
      unfold validateColorComponent. rewrite Hg. cbn [bind].
      destruct components; try reflexivity. now destruct (Hna elements).
    + intros l -> H3 H4. apply (entry_error data doc pre entry post); try assumption.
      unfold validateColorComponent. rewrite Hg. cbn [bind].
      destruct (Nat.eqb_spec (List.length l) 3); [contradiction|].
      destruct (Nat.eqb_spec (List.length l) 4); [contradiction|]. reflexivity.
    + intros l -> Hlen Hex. apply (entry_error data doc pre entry post); try assumption.
      unfold validateColorComponent. rewrite Hg. cbn [bind].
      replace (negb (List.length l =? 3)%nat && negb (List.length l =? 4)%nat) with false.
      * now apply for_of_refused.
      * destruct Hlen as [-> | ->]; reflexivity.
  - repeat split; intros (n & E & Hn); try discriminate E.
    injection E as <-. vm_compute in Hn. discriminate.
Qed.

End TableOfErrors.

(** C5 on the documents of the repository's tests. *)
Lemma deserialize_validation_tests :
  ColorPalette.deserialize (H := reference_engine)
    (stringified (Obj [("colors", Arr [Obj [("components", Str "invalid")]])]))
  = Throw TypeError "Components must be an array"
  /\ ColorPalette.deserialize (H := reference_engine)
       (stringified (Obj [("colors", Arr [Obj [("components", Arr [Num 1; Num 2])]])]))
     = Throw PlainError "Components must have 3 or 4 values"
  /\ ColorPalette.deserialize (H := reference_engine)
       (stringified (Obj [("colors", Arr [Obj [("components", Arr [Num (-1); Num 0; Num 0])]])]))
     = Throw PlainError "Component values must be numbers".
Proof.
  pose proof (@deserialize_validation reference_engine) as (_ & _ & Hgen & Hneg & _).
  split; [|split].
  - refine (proj1 (Hgen _ (Obj [("colors", Arr [Obj [("components", Str "invalid")]])])
                     [] _ [] (Str "invalid") _ eq_refl (Forall_nil _) eq_refl) _).
    + vm_compute. reflexivity.
    + discriminate.
  - refine (proj1 (proj2 (Hgen _ (Obj [("colors", Arr [Obj [("components", Arr [Num 1; Num 2])]])])
                     [] _ [] (Arr [Num 1; Num 2]) _ eq_refl (Forall_nil _) eq_refl))
                  [Num 1; Num 2] eq_refl _ _).
    + vm_compute. reflexivity.
    + discriminate.
    + discriminate.
  - refine (proj2 (proj2 (Hgen _
                     (Obj [("colors", Arr [Obj [("components", Arr [Num (-1); Num 0; Num 0])]])])
                     [] _ [] (Arr [Num (-1); Num 0; Num 0]) _ eq_refl (Forall_nil _) eq_refl))
                  [Num (-1); Num 0; Num 0] eq_refl (or_introl eq_refl) _).
    + vm_compute. reflexivity.
    + apply Exists_cons_hd. exact Hneg.
Defined.


(** ** Non-finite numbers in the state and in the document *)

Section NonFiniteNumbers.
Context `{Engine}.

Lemma element_text_nonfinite x gap indent :
  PrimFloat.is_finite x = false -> element_text gap indent (Num x) = "null".
Proof. intros Hx. unfold element_text. cbn [JSON.serialize]. now rewrite Hx. Qed.

(** C10, amended: a non-finite number [x] passes the type check of the
    constructor and of the setters.  As a red, green or blue channel it is
    stored as it is, by the constructor (linear or not) and by the setters;
    [toJSON] puts it unchanged at the channel's place in the components,
    and [JSON.stringify] writes [null] at that place.  As an opacity it is
    clamped first: the infinities are stored as 1 and 0, and only NaN stays
    non-finite, to be written as a fourth component [null]. *)
Theorem nonfinite_number_propagates x :
  PrimFloat.is_finite x = false ->
  (forall name a b o lin,
      Color.constructor (Options.make name (Num x) (Num a) (Num b) (Num o) lin)
      = Ok {| Color.name := name; Color.linearRed := x;
              Color.linearGreen :=
                roundToFourDecimals (if lin then a else sRGBToLinear a);
              Color.linearBlue :=
                roundToFourDecimals (if lin then b else sRGBToLinear b);
              Color.opacity := roundToFourDecimals (clampOpacity o) |})
  /\ (forall name a b o lin,
      Color.constructor (Options.make name (Num a) (Num x) (Num b) (Num o) lin)
      = Ok {| Color.name := name;
              Color.linearRed :=
                roundToFourDecimals (if lin then a else sRGBToLinear a);
              Color.linearGreen := x;
              Color.linearBlue :=
                roundToFourDecimals (if lin then b else sRGBToLinear b);
              Color.opacity := roundToFourDecimals (clampOpacity o) |})
  /\ (forall name a b o lin,
      Color.constructor (Options.make name (Num a) (Num b) (Num x) (Num o) lin)
      = Ok {| Color.name := name;
              Color.linearRed :=
                roundToFourDecimals (if lin then a else sRGBToLinear a);
              Color.linearGreen :=
                roundToFourDecimals (if lin then b else sRGBToLinear b);
              Color.linearBlue := x;
              Color.opacity := roundToFourDecimals (clampOpacity o) |})
  /\ (forall name a b c lin,
      Color.constructor (Options.make name (Num a) (Num b) (Num c) (Num x) lin)
      = Ok {| Color.name := name;
              Color.linearRed :=
                roundToFourDecimals (if lin then a else sRGBToLinear a);
              Color.linearGreen :=
                roundToFourDecimals (if lin then b else sRGBToLinear b);
              Color.linearBlue :=
                roundToFourDecimals (if lin then c else sRGBToLinear c);
              Color.opacity := clamped_nonfinite x |})
  /\ (forall c,
      Color.set_red c (Num x)
      = Ok {| Color.name := Color.name c; Color.linearRed := x;
              Color.linearGreen := Color.linearGreen c;
              Color.linearBlue := Color.linearBlue c;
              Color.opacity := Color.opacity c |}
      /\ Color.set_green c (Num x)
      = Ok {| Color.name := Color.name c; Color.linearRed := Color.linearRed c;
              Color.linearGreen := x;
              Color.linearBlue := Color.linearBlue c;
              Color.opacity := Color.opacity c |}
      /\ Color.set_blue c (Num x)
      = Ok {| Color.name := Color.name c; Color.linearRed := Color.linearRed c;
              Color.linearGreen := Color.linearGreen c;
              Color.linearBlue := x;
              Color.opacity := Color.opacity c |}
      /\ Color.set_opacity c (Num x)
      = Ok {| Color.name := Color.name c; Color.linearRed := Color.linearRed c;
              Color.linearGreen := Color.linearGreen c;
              Color.linearBlue := Color.linearBlue c;
              Color.opacity := clamped_nonfinite x |})
  /\ (forall c gap indent,
      let components := Color.json_components c in
      let texts := map (element_text gap (indent ++ gap)) (map Num components) in
      Value.get (Color.toJSON c) "components" = Ok (Arr (map Num components))
      /\ JSON.serialize gap (Arr (map Num components)) indent
         = Some (JSON.wrap "[" "]" indent gap texts)
      /\ (Color.linearRed c = x ->
          nth_error components 0 = Some x /\ nth_error texts 0 = Some "null")
      /\ (Color.linearGreen c = x ->
          nth_error components 1 = Some x /\ nth_error texts 1 = Some "null")
      /\ (Color.linearBlue c = x ->
          nth_error components 2 = Some x /\ nth_error texts 2 = Some "null")
      /\ (Color.opacity c = x -> x = nan ->
          nth_error components 3 = Some x /\ nth_error texts 3 = Some "null"))
  /\ (PrimFloat.is_finite (clamped_nonfinite x) = false <-> x = nan).
Proof.
  intros Hx.
  pose proof (sRGBToLinear_nonfinite x Hx) as Hs.
  pose proof (round_nonfinite x Hx) as Hr.
  pose proof (clamp_nonfinite x Hx) as [Hc Hc'].
  split; [|split; [|split; [|split; [|split; [|split]]]]].
  1-3: intros name a b o lin; unfold Color.constructor; cbn;
       destruct lin; rewrite ?Hs, Hr; reflexivity.
  - intros name a b c lin. unfold Color.constructor; cbn. now rewrite Hc.
  - intros c. unfold Color.set_red, Color.set_green, Color.set_blue, Color.set_opacity.
    cbn. now rewrite Hs, Hc'.
  - intros c gap indent. cbv zeta.
    split; [reflexivity|]. split; [apply serialize_Arr|].
    unfold Color.json_components.
    split; [|split; [|split]].
    + intros ->. rewrite Hr. cbn [map app nth_error].
      now rewrite (element_text_nonfinite x _ _ Hx).
    + intros ->. rewrite Hr. cbn [map app nth_error].
      now rewrite (element_text_nonfinite x _ _ Hx).
    + intros ->. rewrite Hr. cbn [map app nth_error].
      now rewrite (element_text_nonfinite x _ _ Hx).
    + intros -> ->. cbn [map app nth_error]. split; reflexivity.
  - destruct (nonfinite_cases x Hx) as [-> | [-> | ->]]; split; intros E;
      try reflexivity; vm_compute in E; discriminate.
Qed.
End NonFiniteNumbers.

(** C10 at [NaN]: the green setter stores it, and the document has [null]
    in its place. *)
Lemma nonfinite_number_propagates_nan :
  PrimFloat.is_finite nan = false
  /\ Color.set_green (H := reference_engine) black (Num nan)
     = Ok {| Color.name := Undefined; Color.linearRed := 0; Color.linearGreen := nan;
             Color.linearBlue := 0; Color.opacity := 1 |}
  /\ JSON.serialize "" (Arr (map Num (Color.json_components
                                        {| Color.name := Undefined; Color.linearRed := 0;
                                           Color.linearGreen := nan;
                                           Color.linearBlue := 0; Color.opacity := 1 |}))) ""
     = Some "[0,null,0]".
Proof.
  pose proof (@nonfinite_number_propagates reference_engine nan eq_refl)
    as (_ & _ & _ & _ & Hset & Hjson & _).
  split; [reflexivity|]. split.
  - exact (proj1 (proj2 (Hset black))).
  - exact (proj1 (proj2 (Hjson {| Color.name := Undefined; Color.linearRed := 0;
                                  Color.linearGreen := nan;
                                  Color.linearBlue := 0; Color.opacity := 1 |} "" ""))).
Defined.


(** ** Binary64 arithmetic against the real numbers *)

#[local] Close Scope float_scope.

Section Powers.

Lemma bpow_pos e : (0 < powerRZ 2 e)%R.
Proof. apply powerRZ_lt. lra. Qed.

Lemma bpow_add a b : powerRZ 2 (a + b) = (powerRZ 2 a * powerRZ 2 b)%R.
Proof. apply powerRZ_add. lra. Qed.

Lemma bpow_IZR k : 0 <= k -> powerRZ 2 k = IZR (2 ^ k).
Proof.
  intros Hk. rewrite <- (Z2Nat.id k Hk) at 1. rewrite <- pow_powerRZ.
  rewrite pow_IZR. now rewrite Z2Nat.id.
Qed.

Lemma bpow_le a b : a <= b -> (powerRZ 2 a <= powerRZ 2 b)%R.
Proof.
  intros Hab. replace b with (a + (b - a)) by lia. rewrite bpow_add.
  rewrite (bpow_IZR (b - a)) by lia.
  assert (1 <= 2 ^ (b - a)) by (pose proof (Z.pow_pos_nonneg 2 (b - a)); lia).
  pose proof (bpow_pos a). apply IZR_le in H.
  replace (powerRZ 2 a) with (powerRZ 2 a * 1)%R at 1 by ring.
  apply Rmult_le_compat_l; lra.
Qed.

Lemma bpow_lt a b : a < b -> (powerRZ 2 a < powerRZ 2 b)%R.
Proof.
  intros Hab. replace b with (a + (b - a)) by lia. rewrite bpow_add.
  rewrite (bpow_IZR (b - a)) by lia.
  assert (2 <= 2 ^ (b - a)).
  { change 2 with (2 ^ 1) at 1. apply Z.pow_le_mono_r; lia. }
  pose proof (bpow_pos a). apply IZR_le in H.
  replace (powerRZ 2 a) with (powerRZ 2 a * 1)%R at 1 by ring.
  apply Rmult_lt_compat_l; lra.
Qed.

(** [m * 2^e] with the exponent moved to [e' <= e]. *)
Lemma scale_down m e e' :
  e' <= e -> (IZR m * powerRZ 2 e = IZR (m * 2 ^ (e - e')) * powerRZ 2 e')%R.
Proof.
  intros He. replace e with (e' + (e - e')) at 1 by lia.
  rewrite bpow_add, (bpow_IZR (e - e')) by lia. rewrite mult_IZR. ring.
Qed.

End Powers.

Section Digits.

Lemma Zdigits2_bounds M : 0 < M -> 2 ^ (Zdigits2 M - 1) <= M < 2 ^ Zdigits2 M.
Proof. destruct M as [|p|p]; try lia. intros _. apply digits2_bounds. Qed.

Lemma Zdigits2_nonneg M : 0 <= M -> 0 <= Zdigits2 M.
Proof. destruct M; cbn; lia. Qed.

Lemma Zdigits2_le M n : 0 <= M -> 0 <= n -> M < 2 ^ n -> Zdigits2 M <= n.
Proof.
  intros HM Hn Hlt. destruct (Z.eq_dec M 0) as [->|Hne]; [cbn; lia|].
  pose proof (Zdigits2_bounds M ltac:(lia)) as [Hlo _].
  destruct (Z.le_gt_cases (Zdigits2 M) n) as [H|H]; [exact H|].
  assert (2 ^ n <= 2 ^ (Zdigits2 M - 1)) by (apply Z.pow_le_mono_r; lia). lia.
Qed.

Lemma Zdigits2_ge M n : 0 <= n -> 2 ^ n <= M -> n + 1 <= Zdigits2 M.
Proof.
  intros Hn Hle.
  assert (0 < M) by (pose proof (Z.pow_pos_nonneg 2 n); lia).
  pose proof (Zdigits2_bounds M H) as [_ Hhi].
  destruct (Z.le_gt_cases (n + 1) (Zdigits2 M)) as [H'|H']; [exact H'|].
  pose proof (Zdigits2_nonneg M ltac:(lia)).
  assert (2 ^ Zdigits2 M <= 2 ^ n) by (apply Z.pow_le_mono_r; lia). lia.
Qed.

End Digits.

Section RoundAux.

Lemma fexp64 x : fexp prec emax x = Z.max (x - 53) (-1074).
Proof. reflexivity. Qed.

(** The two shifts of [binary_round_aux]: the result is the mantissa [m2],
    one of the two integers around [M / 2^(e1 - E)], at the exponent [e1]. *)
Lemma round_aux_shape M E l :
  0 <= M ->
  exists m2 e1 m3 e2,
    e1 = Z.max E (fexp prec emax (Zdigits2 M + E))
    /\ M / 2 ^ (e1 - E) <= m2 <= M / 2 ^ (e1 - E) + 1
    /\ e1 <= e2 <= e1 + 1 /\ m3 * 2 ^ (e2 - e1) = m2 /\ 0 <= m3
    /\ binary_round_aux prec emax false M E l
       = match m3 with
         | 0 => S754_zero false
         | Zpos m => if e2 <=? 971 then S754_finite false m e2 else S754_infinity false
         | Zneg _ => S754_nan
         end.
Proof.
  intros HM. unfold binary_round_aux.
  destruct (shr_fexp_spec M E l HM) as (mrs1 & e1 & -> & He1 & Hm1).
  set (m1 := shr_m mrs1) in *.
  set (m2 := round_nearest_even m1 (loc_of_shr_record mrs1)).
  pose proof (round_nearest_even_bound m1 (loc_of_shr_record mrs1)) as Hm2. fold m2 in Hm2.
  assert (Hd : 0 <= Zdigits2 M) by now apply Zdigits2_nonneg.
  rewrite fexp64 in He1.
  assert (Hshift : 0 <= e1 - E) by lia.
  assert (Hp1 : 0 < 2 ^ (e1 - E)) by (apply Z.pow_pos_nonneg; lia).
  assert (Hm1pos : 0 <= m1) by (rewrite Hm1; apply Z.div_pos; lia).
  assert (Hm1lt : m1 < 2 ^ 53).
  { rewrite Hm1. apply Z.div_lt_upper_bound; [lia|].
    destruct (Z.eq_dec M 0) as [->|Hne].
    - apply Z.mul_pos_pos; [lia | reflexivity].
    - pose proof (Zdigits2_bounds M ltac:(lia)) as [_ Hhi].
      rewrite <- Z.pow_add_r by lia.
      apply Z.lt_le_trans with (1 := Hhi). apply Z.pow_le_mono_r; lia. }
  destruct (shr_fexp_spec m2 e1 loc_Exact ltac:(lia)) as (mrs2 & e2 & Hshr & He2 & Hm3).
  rewrite Hshr. clear Hshr. rewrite fexp64 in He2.
  exists m2, e1, (shr_m mrs2), e2.
  split; [rewrite fexp64; exact He1|]. split; [rewrite <- Hm1; exact Hm2|].
  destruct (Z.eq_dec m2 (2 ^ 53)) as [E53|N53].
  - assert (Hd2 : Zdigits2 m2 = 54) by (rewrite E53; reflexivity).
    rewrite Hd2 in He2. assert (He2' : e2 = e1 + 1) by lia. clear He2. subst e2.
    replace (e1 + 1 - e1) with 1 in * by lia.
    split; [lia|]. split; [rewrite Hm3, E53; reflexivity|].
    split; [rewrite Hm3, E53; vm_compute; discriminate|]. reflexivity.
  - assert (Hd2 : Zdigits2 m2 <= 53) by (apply Zdigits2_le; lia).
    assert (He2' : e2 = e1) by lia. clear He2. subst e2. replace (e1 - e1) with 0 in * by lia.
    rewrite Z.pow_0_r, Z.div_1_r in Hm3.
    split; [lia|]. split; [rewrite Hm3; lia|]. split; [rewrite Hm3; lia|]. reflexivity.
Qed.

End RoundAux.

Section RoundError.

Lemma shr_fexp_none M E l :
  fexp prec emax (Zdigits2 M + E) <= E ->
  shr_fexp prec emax M E l = (shr_record_of_loc M l, E).
Proof.
  intros Hf. unfold shr_fexp, shr.
  destruct (fexp prec emax (Zdigits2 M + E) - E) eqn:Ed; try reflexivity. lia.
Qed.

(** [binary_round_aux] on an exact mantissa that needs no shift. *)
Lemma round_aux_exact M E :
  0 <= M -> fexp prec emax (Zdigits2 M + E) <= E -> E <= 971 ->
  binary_round_aux prec emax false M E loc_Exact
  = match M with
    | 0 => S754_zero false
    | Zpos m => S754_finite false m E
    | Zneg _ => S754_nan
    end.
Proof.
  intros HM Hf HE. unfold binary_round_aux.
  rewrite (shr_fexp_none M E loc_Exact Hf).
  cbn [shr_record_of_loc shr_m loc_of_shr_record round_nearest_even].
  rewrite (shr_fexp_none M E loc_Exact Hf). cbn [shr_record_of_loc shr_m].
  destruct M as [|m|m]; try reflexivity.
  now replace (E <=? emax - prec) with true by (symmetry; apply Z.leb_le; exact HE).
Qed.

Lemma SF2R_shape m3 e2 e1 m2 :
  0 <= m3 -> e1 <= e2 -> m3 * 2 ^ (e2 - e1) = m2 ->
  SF2R match m3 with
       | 0 => S754_zero false
       | Zpos m => S754_finite false m e2
       | Zneg _ => S754_nan
       end = (IZR m2 * powerRZ 2 e1)%R.
Proof.
  intros H3 He <-. destruct m3 as [|m|m]; [cbn; lra| |lia].
  cbn [SF2R]. now apply scale_down.
Qed.

Lemma shape_finite m3 e2 :
  0 <= m3 ->
  nonneg_finite match m3 with
                | 0 => S754_zero false
                | Zpos m => S754_finite false m e2
                | Zneg _ => S754_nan
                end.
Proof. intros H. destruct m3; [now left | right; eauto | lia]. Qed.

(** The rounded value lies within one unit of the last place of every
    real between [M * 2^E] and [(M + 1) * 2^E]. *)
Lemma round_aux_error M E l v :
  0 <= M -> Zdigits2 M + E <= 1023 -> E <= 970 ->
  (IZR M * powerRZ 2 E <= v <= IZR (M + 1) * powerRZ 2 E)%R ->
  nonneg_finite (binary_round_aux prec emax false M E l)
  /\ (Rabs (SF2R (binary_round_aux prec emax false M E l) - v)
      <= powerRZ 2 (Z.max E (fexp prec emax (Zdigits2 M + E))))%R.
Proof.
  intros HM Hd HE Hv.
  destruct (round_aux_shape M E l HM) as (m2 & e1 & m3 & e2 & He1 & Hm2 & He2 & Hm3 & H3 & ->).
  rewrite <- He1. rewrite fexp64 in He1.
  assert (Hsame : match m3 with
                  | 0 => S754_zero false
                  | Z.pos m => if e2 <=? 971 then S754_finite false m e2 else S754_infinity false
                  | Z.neg _ => S754_nan
                  end
                  = match m3 with
                    | 0 => S754_zero false
                    | Z.pos m => S754_finite false m e2
                    | Z.neg _ => S754_nan
                    end).
  { destruct m3; try reflexivity. destruct (Z.leb_spec e2 971); [reflexivity | lia]. }
  rewrite Hsame. split; [now apply shape_finite|].
  rewrite (SF2R_shape m3 e2 e1 m2 H3 ltac:(lia) Hm3).
  set (m1 := M / 2 ^ (e1 - E)) in *.
  assert (Hshift : 0 <= e1 - E) by lia.
  assert (Hp : 0 < 2 ^ (e1 - E)) by (apply Z.pow_pos_nonneg; lia).
  assert (Hdiv : m1 * 2 ^ (e1 - E) <= M < (m1 + 1) * 2 ^ (e1 - E)).
  { unfold m1. pose proof (Z.mul_div_le M (2 ^ (e1 - E)) Hp).
    pose proof (Z.mul_succ_div_gt M (2 ^ (e1 - E)) Hp). lia. }
  pose proof (bpow_pos E) as HbE. pose proof (bpow_pos e1) as Hb1.
  assert (Hscale : forall k, (IZR k * powerRZ 2 e1 = IZR (k * 2 ^ (e1 - E)) * powerRZ 2 E)%R)
    by (intros k; apply scale_down; lia).
  assert (Hlo : (IZR m1 * powerRZ 2 e1 <= v)%R).
  { rewrite Hscale. apply Rle_trans with (2 := proj1 Hv).
    apply Rmult_le_compat_r; [lra|]. apply IZR_le. lia. }
  assert (Hhi : (v <= IZR (m1 + 1) * powerRZ 2 e1)%R).
  { rewrite Hscale. apply Rle_trans with (1 := proj2 Hv).
    apply Rmult_le_compat_r; [lra|]. apply IZR_le. lia. }
  assert (Hr : (IZR m1 * powerRZ 2 e1 <= IZR m2 * powerRZ 2 e1 <= IZR (m1 + 1) * powerRZ 2 e1)%R).
  { split; apply Rmult_le_compat_r; try lra; apply IZR_le; lia. }
  rewrite plus_IZR in Hhi, Hr. apply Rabs_le. lra.
Qed.

(** The unit of the last place, against the value. *)
Lemma ulp_bound M E v :
  0 <= M -> E <= fexp prec emax (Zdigits2 M + E) ->
  (IZR M * powerRZ 2 E <= v)%R ->
  (powerRZ 2 (Z.max E (fexp prec emax (Zdigits2 M + E)))
   <= v * powerRZ 2 (-52) + powerRZ 2 (-1074))%R.
Proof.
  intros HM Hf Hv. rewrite Z.max_r by exact Hf. rewrite fexp64 in *.
  pose proof (bpow_pos (-52)) as H52. pose proof (bpow_pos (-1074)) as Hmin.
  pose proof (bpow_pos E) as HbE.
  assert (Hv0 : (0 <= v)%R).
  { apply Rle_trans with (2 := Hv). apply Rmult_le_pos; [apply IZR_le; lia | lra]. }
  destruct (Z.max_spec (Zdigits2 M + E - 53) (-1074)) as [[_ ->] | [Hge ->]].
  - assert (0 <= v * powerRZ 2 (-52))%R by (apply Rmult_le_pos; lra). lra.
  - assert (HMpos : 0 < M).
    { destruct (Z.eq_dec M 0) as [->|]; [cbn in Hge, Hf; lia | lia]. }
    pose proof (Zdigits2_bounds M HMpos) as [Hlo _].
    assert (Hd1 : 0 <= Zdigits2 M - 1).
    { pose proof (Zdigits2_ge M 0 ltac:(lia) ltac:(cbn; lia)). lia. }
    assert (Hb : (powerRZ 2 (Zdigits2 M - 1 + E) <= v)%R).
    { rewrite bpow_add, (bpow_IZR (Zdigits2 M - 1)) by lia.
      apply Rle_trans with (2 := Hv). apply Rmult_le_compat_r; [lra|]. now apply IZR_le. }
    replace (Zdigits2 M + E - 53) with ((Zdigits2 M - 1 + E) + -52) by lia.
    rewrite bpow_add.
    assert (powerRZ 2 (Zdigits2 M - 1 + E) * powerRZ 2 (-52) <= v * powerRZ 2 (-52))%R
      by (apply Rmult_le_compat_r; lra).
    lra.
Qed.

(** An exact mantissa is rounded within one unit of the last place. *)
Lemma round_exact_error M E :
  0 <= M -> Zdigits2 M + E <= 1023 -> E <= 970 ->
  nonneg_finite (binary_round_aux prec emax false M E loc_Exact)
  /\ (Rabs (SF2R (binary_round_aux prec emax false M E loc_Exact) - IZR M * powerRZ 2 E)
      <= IZR M * powerRZ 2 E * powerRZ 2 (-52) + powerRZ 2 (-1074))%R.
Proof.
  intros HM Hd HE.
  pose proof (bpow_pos (-52)) as H52. pose proof (bpow_pos (-1074)) as Hmin.
  pose proof (bpow_pos E) as HbE.
  assert (Hv0 : (0 <= IZR M * powerRZ 2 E)%R)
    by (apply Rmult_le_pos; [apply IZR_le; lia | lra]).
  destruct (Z.le_gt_cases E (fexp prec emax (Zdigits2 M + E))) as [Hf|Hf].
  - destruct (round_aux_error M E loc_Exact (IZR M * powerRZ 2 E)%R HM Hd HE) as [Hfin Herr].
    + split; [lra|]. apply Rmult_le_compat_r; [lra|]. apply IZR_le. lia.
    + split; [exact Hfin|]. apply Rle_trans with (1 := Herr).
      apply ulp_bound; [exact HM | exact Hf | lra].
  - rewrite (round_aux_exact M E HM ltac:(lia) ltac:(lia)).
    split; [now apply shape_finite|].
    rewrite (SF2R_shape M E E M HM ltac:(lia)).
    + replace (IZR M * powerRZ 2 E - IZR M * powerRZ 2 E)%R with 0%R by ring.
      rewrite Rabs_R0.
      assert (0 <= IZR M * powerRZ 2 E * powerRZ 2 (-52))%R by (apply Rmult_le_pos; lra).
      lra.
    + rewrite Z.sub_diag, Z.pow_0_r. lia.
Qed.

End RoundError.

Section Operations.

Lemma to_R_finite x m e :
  Prim2SF x = S754_finite false m e -> to_R x = (IZR (Zpos m) * powerRZ 2 e)%R.
Proof. intros E. unfold to_R. now rewrite E. Qed.

Lemma to_R_pos x m e : Prim2SF x = S754_finite false m e -> (0 < to_R x)%R.
Proof.
  intros E. rewrite (to_R_finite x m e E). apply Rmult_lt_0_compat; [|apply bpow_pos].
  apply IZR_lt. lia.
Qed.

(** The product of two positive numbers. *)
Lemma mul_error x y mx ex my ey :
  Prim2SF x = S754_finite false mx ex -> Prim2SF y = S754_finite false my ey ->
  ex + ey <= 900 ->
  nonneg_finite (Prim2SF (x * y)%float)
  /\ (Rabs (to_R (x * y)%float - to_R x * to_R y)
      <= to_R x * to_R y * powerRZ 2 (-52) + powerRZ 2 (-1074))%R.
Proof.
  intros Ex Ey He.
  pose proof (mantissa_bound x false mx ex Ex) as Hmx.
  pose proof (mantissa_bound y false my ey Ey) as Hmy.
  assert (Hprod : (to_R x * to_R y = IZR (Zpos (mx * my)) * powerRZ 2 (ex + ey))%R).
  { rewrite (to_R_finite x mx ex Ex), (to_R_finite y my ey Ey).
    rewrite Pos2Z.inj_mul, mult_IZR, bpow_add. ring. }
  assert (Hspec : Prim2SF (x * y)%float
                  = binary_round_aux prec emax false (Zpos (mx * my)) (ex + ey) loc_Exact).
  { rewrite mul_spec, Ex, Ey. reflexivity. }
  assert (Hd : Zdigits2 (Zpos (mx * my)) <= 106).
  { apply Zdigits2_le; try lia. rewrite Pos2Z.inj_mul.
    change (2 ^ 106) with (2 ^ 53 * 2 ^ 53). apply Z.mul_lt_mono_nonneg; lia. }
  unfold to_R at 1. rewrite Hspec, Hprod.
  apply round_exact_error; lia.
Qed.

(** The quotient of two positive numbers. *)
Lemma div_error x y mx ex my ey :
  Prim2SF x = S754_finite false mx ex -> Prim2SF y = S754_finite false my ey ->
  Zpos (digits2_pos mx) + ex - ey <= 1023 -> ex - ey <= 970 ->
  nonneg_finite (Prim2SF (x / y)%float)
  /\ (Rabs (to_R (x / y)%float - to_R x / to_R y)
      <= to_R x / to_R y * powerRZ 2 (-52) + powerRZ 2 (-1074))%R.
Proof.
  intros Ex Ey Hd He.
  pose proof (digits2_bounds mx) as [Lx Ux]. pose proof (digits2_bounds my) as [Ly Uy].
  pose proof (digits_small mx (mantissa_bound x false mx ex Ex)) as Hd53.
  set (d1 := Zpos (digits2_pos mx)) in *. set (d2 := Zpos (digits2_pos my)) in *.
  assert (Hspec : Prim2SF (x / y)%float
                  = let '(mz, ez, lz) :=
                      SFdiv_core_binary prec emax (Zpos mx) ex (Zpos my) ey in
                    binary_round_aux prec emax false mz ez lz).
  { rewrite div_spec, Ex, Ey. reflexivity. }
  unfold SFdiv_core_binary in Hspec. cbn [Zdigits2] in Hspec. fold d1 d2 in Hspec.
  rewrite fexp64 in Hspec.
  set (D := d1 + ex - (d2 + ey)) in *.
  set (e' := Z.min (Z.max (D - 53) (-1074)) (ex - ey)) in *.
  set (s := ex - ey - e') in *.
  assert (Hs : 0 <= s) by (unfold s, e'; lia).
  set (m' := match s with 0 => Zpos mx | Zpos _ => Z.shiftl (Zpos mx) s | Zneg _ => 0 end) in *.
  assert (Hm' : m' = Zpos mx * 2 ^ s).
  { unfold m'. destruct s as [|p|p] eqn:Es; [lia| |lia]. now rewrite Z.shiftl_mul_pow2. }
  clearbody m'.
  assert (Hps : 0 < 2 ^ s) by (apply Z.pow_pos_nonneg; lia).
  pose proof (Z_div_mod m' (Zpos my) ltac:(lia)) as Hdm.
  destruct (Z.div_eucl m' (Zpos my)) as [q r]. destruct Hdm as [Hq Hr].
  assert (Hq0 : 0 <= q) by nia.
  (* the exact quotient, at the exponent [e'] *)
  pose proof (bpow_pos e') as Hbe. pose proof (bpow_pos ex) as Hbx.
  pose proof (bpow_pos ey) as Hby.
  assert (Hy0 : (0 < IZR (Zpos my))%R) by (apply IZR_lt; lia).
  assert (Hv : (to_R x / to_R y = IZR m' / IZR (Zpos my) * powerRZ 2 e')%R).
  { rewrite (to_R_finite x mx ex Ex), (to_R_finite y my ey Ey).
    replace ex with (e' + s + ey) at 1 by (unfold s; lia).
    rewrite !bpow_add, (bpow_IZR s) by lia. rewrite Hm', mult_IZR. field. lra. }
  assert (Hbr : (IZR q * powerRZ 2 e' <= to_R x / to_R y <= IZR (q + 1) * powerRZ 2 e')%R).
  { rewrite Hv. split; apply Rmult_le_compat_r; try lra.
    - apply Rmult_le_reg_r with (IZR (Zpos my)); [lra|].
      unfold Rdiv. rewrite Rmult_assoc, Rinv_l, Rmult_1_r by lra.
      rewrite <- mult_IZR. apply IZR_le. rewrite Hq. lia.
    - apply Rmult_le_reg_r with (IZR (Zpos my)); [lra|].
      unfold Rdiv. rewrite Rmult_assoc, Rinv_l, Rmult_1_r by lra.
      rewrite <- mult_IZR. apply IZR_le. rewrite Hq. lia. }
  (* the digits of the quotient *)
  assert (Hdq : Zdigits2 q <= d1 + s).
  { assert (0 <= d1) by (unfold d1; lia).
    apply Zdigits2_le; [lia | lia |].
    rewrite Z.pow_add_r by lia.
    assert (q <= m') by nia. nia. }
  assert (Hfe : e' <= fexp prec emax (Zdigits2 q + e')).
  { rewrite fexp64. destruct (Z.le_gt_cases e' (-1074)) as [Hle|Hgt]; [lia|].
    assert (He' : e' <= D - 53) by (unfold e' in *; lia).
    assert (Hs53 : 53 - d1 + d2 <= s) by (unfold s, D in *; lia).
    assert (H52 : 2 ^ 52 <= q).
    { assert (Hbig : 2 ^ 52 * Zpos my <= m').
      { rewrite Hm'.
        assert (2 ^ (53 - d1 + d2) <= 2 ^ s) by (apply Z.pow_le_mono_r; unfold d1, d2 in *; lia).
        assert (Hsplit : 2 ^ (d1 - 1) * 2 ^ (53 - d1 + d2) = 2 ^ 52 * 2 ^ d2).
        { rewrite <- !Z.pow_add_r by (unfold d1, d2 in *; lia). f_equal. lia. }
        assert (0 < 2 ^ 52) by reflexivity.
        assert (0 < 2 ^ (d1 - 1)) by (apply Z.pow_pos_nonneg; unfold d1; lia).
        nia. }
      destruct (Z.le_gt_cases (2 ^ 52) q) as [H|H]; [exact H|]. exfalso.
      assert (0 < 2 ^ 52) by reflexivity. nia. }
    pose proof (Zdigits2_ge q 52 ltac:(lia) H52). lia. }
  unfold to_R at 1. rewrite Hspec.
  destruct (round_aux_error q e' (new_location (Zpos my) r) (to_R x / to_R y)%R Hq0)
    as [Hfin Herr]; [unfold s in *; lia | unfold e'; lia | exact Hbr |].
  split; [exact Hfin|]. apply Rle_trans with (1 := Herr).
  apply ulp_bound; [exact Hq0 | exact Hfe | exact (proj1 Hbr)].
Qed.

End Operations.

Section Order.

(** The mantissa and the exponent of a binary64 number. *)
Lemma canonical x s m e :
  Prim2SF x = S754_finite s m e ->
  -1074 <= e <= 971 /\ Zpos m < 2 ^ 53 /\ (-1074 < e -> 2 ^ 52 <= Zpos m).
Proof.
  intros E. pose proof (Prim2SF_valid x) as Hv. rewrite E in Hv.
  unfold valid_binary, bounded, canonical_mantissa in Hv.
  apply andb_true_iff in Hv. destruct Hv as [Hc He].
  apply Z.eqb_eq in Hc. apply Z.leb_le in He. rewrite fexp64 in Hc.
  change (emax - prec) with 971 in He.
  pose proof (digits2_bounds m) as [Hlo Hhi].
  split; [lia|]. split; [now apply (mantissa_bound x s m e)|].
  intros Hgt. assert (Hd : Zpos (digits2_pos m) = 53) by lia.
  rewrite Hd in Hlo. exact Hlo.
Qed.

Lemma finite_order mx ex my ey x y :
  Prim2SF x = S754_finite false mx ex -> Prim2SF y = S754_finite false my ey ->
  ex < ey -> (to_R x < to_R y)%R.
Proof.
  intros Ex Ey Hlt.
  destruct (canonical x _ _ _ Ex) as (Hex & Hmx & _).
  destruct (canonical y _ _ _ Ey) as (Hey & _ & Hmy). specialize (Hmy ltac:(lia)).
  rewrite (to_R_finite x mx ex Ex), (to_R_finite y my ey Ey).
  rewrite (scale_down (Zpos my) ey ex) by lia.
  apply Rmult_lt_compat_r; [apply bpow_pos|]. apply IZR_lt.
  assert (2 <= 2 ^ (ey - ex)).
  { change 2 with (2 ^ 1) at 1. apply Z.pow_le_mono_r; lia. }
  change (2 ^ 53) with (2 ^ 52 * 2) in Hmx. nia.
Qed.

(** The comparison of two numbers that are not negative is that of the
    reals they denote. *)
Lemma compare_to_R x y :
  nonneg_finite (Prim2SF x) -> nonneg_finite (Prim2SF y) ->
  match SFcompare (Prim2SF x) (Prim2SF y) with
  | Some Lt => (to_R x < to_R y)%R
  | Some Eq => (to_R x = to_R y)%R
  | Some Gt => (to_R y < to_R x)%R
  | None => False
  end.
Proof.
  intros [Ex | (mx & ex & Ex)] [Ey | (my & ey & Ey)].
  - unfold to_R. rewrite Ex, Ey. reflexivity.
  - pose proof (to_R_pos y my ey Ey) as Hp. rewrite Ex, Ey. cbv beta iota delta [SFcompare].
    unfold to_R at 1. rewrite Ex. cbn [SF2R]. exact Hp.
  - pose proof (to_R_pos x mx ex Ex) as Hp. rewrite Ex, Ey. cbv beta iota delta [SFcompare].
    unfold to_R at 1. rewrite Ey. cbn [SF2R]. exact Hp.
  - rewrite Ex, Ey. cbv beta iota delta [SFcompare].
    destruct (Z.compare_spec ex ey) as [He|He|He].
    + subst ey. rewrite compare_cont_Z.
      rewrite (to_R_finite x mx ex Ex), (to_R_finite y my ex Ey).
      pose proof (bpow_pos ex).
      destruct (Z.compare_spec (Zpos mx) (Zpos my)) as [Hm|Hm|Hm].
      * now rewrite Hm.
      * apply Rmult_lt_compat_r; [lra | now apply IZR_lt].
      * apply Rmult_lt_compat_r; [lra | now apply IZR_lt].
    + now apply (finite_order mx ex my ey).
    + now apply (finite_order my ey mx ex).
Qed.

Lemma leb_to_R x y :
  nonneg_finite (Prim2SF x) -> nonneg_finite (Prim2SF y) ->
  (x <=? y)%float = true <-> (to_R x <= to_R y)%R.
Proof.
  intros Hx Hy. pose proof (compare_to_R x y Hx Hy) as Hc.
  rewrite leb_spec. unfold SFleb.
  destruct (SFcompare (Prim2SF x) (Prim2SF y)) as [[]|]; [| | |contradiction];
    split; intros H; try reflexivity; try lra; discriminate.
Qed.

Lemma ltb_to_R x y :
  nonneg_finite (Prim2SF x) -> nonneg_finite (Prim2SF y) ->
  (x <? y)%float = true <-> (to_R x < to_R y)%R.
Proof.
  intros Hx Hy. pose proof (compare_to_R x y Hx Hy) as Hc.
  rewrite ltb_spec. unfold SFltb.
  destruct (SFcompare (Prim2SF x) (Prim2SF y)) as [[]|]; [| | |contradiction];
    split; intros H; try reflexivity; try lra; discriminate.
Qed.

(** A number between 0 and another one is finite and not negative. *)
Lemma between_nonneg x y :
  (0 <=? x)%float = true -> (x <=? y)%float = true ->
  nonneg_finite (Prim2SF y) ->
  nonneg_finite (Prim2SF x) \/ Prim2SF x = S754_zero true.
Proof.
  intros H0 Hxy Hy. rewrite leb_spec in H0, Hxy. unfold SFleb in H0, Hxy.
  change (Prim2SF 0%float) with (S754_zero false) in H0.
  destruct (Prim2SF x) as [[]|[]| |[] m e]; try discriminate H0.
  - now right.
  - left. now left.
  - exfalso. destruct Hy as [Ey | (my & ey & Ey)]; rewrite Ey in Hxy; discriminate Hxy.
  - left. right. eauto.
Qed.

(** The exponent of a positive number below a power of 2. *)
Lemma exponent_below x m e k :
  Prim2SF x = S754_finite false m e -> (to_R x < powerRZ 2 k)%R -> -1021 <= k ->
  e <= k - 53.
Proof.
  intros E Hlt Hk. destruct (canonical x _ _ _ E) as (He & Hm & Hnorm).
  destruct (Z.le_gt_cases e (k - 53)) as [H|H]; [exact H|]. exfalso.
  specialize (Hnorm ltac:(lia)).
  rewrite (to_R_finite x m e E) in Hlt.
  assert (Hge : (powerRZ 2 k <= IZR (Zpos m) * powerRZ 2 e)%R).
  { replace k with (52 + (k - 52)) by lia. rewrite bpow_add.
    rewrite (bpow_IZR 52) by lia.
    apply Rmult_le_compat;
      [apply IZR_le; vm_compute; discriminate | apply Rlt_le, bpow_pos
      | now apply IZR_le | apply bpow_le; lia]. }
  lra.
Qed.

End Order.

Section Sums.

Lemma shl_align_le m e e' :
  let '(mz, ez) := shl_align m e e' in
  Zpos m * 2 ^ (e - ez) = Zpos mz /\ ez <= e /\ (e' <= e -> ez = e')
  /\ Zpos (digits2_pos mz) + ez = Zpos (digits2_pos m) + e.
Proof.
  unfold shl_align. destruct (e' - e) as [|d|d] eqn:Ed.
  - rewrite Z.sub_diag, Z.pow_0_r. repeat split; lia.
  - rewrite Z.sub_diag, Z.pow_0_r. repeat split; lia.
  - rewrite iter_xO_value, digits2_iter.
    replace (e - e') with (Zpos d) by lia.
    repeat split; try lia.
Qed.

(** [binary_round] of a positive mantissa. *)
Lemma binary_round_error p E :
  Zpos (digits2_pos p) + E <= 1023 -> E <= 970 ->
  nonneg_finite (binary_round prec emax false p E)
  /\ (Rabs (SF2R (binary_round prec emax false p E) - IZR (Zpos p) * powerRZ 2 E)
      <= IZR (Zpos p) * powerRZ 2 E * powerRZ 2 (-52) + powerRZ 2 (-1074))%R.
Proof.
  intros Hd HE. unfold binary_round.
  pose proof (shl_align_le p E (fexp prec emax (Zpos (digits2_pos p) + E))) as Ha.
  destruct (shl_align p E (fexp prec emax (Zpos (digits2_pos p) + E))) as [mz ez].
  destruct Ha as (Hv & Hle & _ & Hdig).
  assert (Hval : (IZR (Zpos p) * powerRZ 2 E = IZR (Zpos mz) * powerRZ 2 ez)%R).
  { rewrite (scale_down (Zpos p) E ez Hle). now rewrite Hv. }
  rewrite Hval. apply round_exact_error; [lia | cbn [Zdigits2]; lia | lia].
Qed.

(** The two mantissas of a sum, at the smaller exponent. *)
Lemma aligned x m e e' :
  Prim2SF x = S754_finite false m e -> e' <= e ->
  to_R x = (IZR (Zpos (fst (shl_align m e e'))) * powerRZ 2 e')%R.
Proof.
  intros E He. rewrite (to_R_finite x m e E).
  pose proof (shl_align_le m e e') as Ha.
  destruct (shl_align m e e') as [mz ez]. destruct Ha as (Hv & Hle & Hez & _).
  specialize (Hez He). subst ez. cbn [fst].
  rewrite (scale_down (Zpos m) e e' He). now rewrite Hv.
Qed.

(** The sum of two positive numbers. *)
Lemma add_error x y mx ex my ey :
  Prim2SF x = S754_finite false mx ex -> Prim2SF y = S754_finite false my ey ->
  ex <= 900 -> ey <= 900 ->
  nonneg_finite (Prim2SF (x + y)%float)
  /\ (Rabs (to_R (x + y)%float - (to_R x + to_R y))
      <= (to_R x + to_R y) * powerRZ 2 (-52) + powerRZ 2 (-1074))%R.
Proof.
  intros Ex Ey Hex Hey.
  set (ez := Z.min ex ey).
  pose proof (aligned x mx ex ez Ex ltac:(unfold ez; lia)) as Hx.
  pose proof (aligned y my ey ez Ey ltac:(unfold ez; lia)) as Hy.
  set (ax := fst (shl_align mx ex ez)) in *. set (ay := fst (shl_align my ey ez)) in *.
  assert (Hspec : Prim2SF (x + y)%float = binary_round prec emax false (ax + ay)%positive ez).
  { rewrite add_spec, Ex, Ey. reflexivity. }
  assert (Hsum : (to_R x + to_R y = IZR (Zpos (ax + ay)) * powerRZ 2 ez)%R).
  { rewrite Hx, Hy, Pos2Z.inj_add, plus_IZR. ring. }
  (* the digits of the sum *)
  destruct (canonical x _ _ _ Ex) as (_ & Hmx & _).
  destruct (canonical y _ _ _ Ey) as (_ & Hmy & _).
  pose proof (bpow_pos ez) as Hbz.
  assert (Hd : Zpos (digits2_pos (ax + ay)) + ez <= 1000).
  { assert (Hlt : Zpos (ax + ay) < 2 ^ (955 - ez)).
    { apply lt_IZR. apply Rmult_lt_reg_r with (powerRZ 2 ez); [exact Hbz|].
      rewrite <- Hsum, <- bpow_IZR, <- bpow_add by (unfold ez; lia).
      replace (955 - ez + ez) with 955 by lia.
      rewrite (to_R_finite x mx ex Ex), (to_R_finite y my ey Ey).
      assert (Hbx : (IZR (Zpos mx) * powerRZ 2 ex < powerRZ 2 954)%R).
      { apply Rlt_le_trans with (IZR (2 ^ 53) * powerRZ 2 ex)%R.
        - apply Rmult_lt_compat_r; [apply bpow_pos | now apply IZR_lt].
        - rewrite <- bpow_IZR, <- bpow_add by lia. apply bpow_le. lia. }
      assert (Hby : (IZR (Zpos my) * powerRZ 2 ey < powerRZ 2 954)%R).
      { apply Rlt_le_trans with (IZR (2 ^ 53) * powerRZ 2 ey)%R.
        - apply Rmult_lt_compat_r; [apply bpow_pos | now apply IZR_lt].
        - rewrite <- bpow_IZR, <- bpow_add by lia. apply bpow_le. lia. }
      replace 955 with (954 + 1) by lia. rewrite bpow_add.
      change (powerRZ 2 1) with (2 * 1)%R. lra. }
    pose proof (Zdigits2_le (Zpos (ax + ay)) (955 - ez) ltac:(lia) ltac:(unfold ez; lia) Hlt).
    cbn [Zdigits2] in H. lia. }
  unfold to_R at 1. rewrite Hspec, Hsum.
  apply binary_round_error; [lia | unfold ez; lia].
Qed.

(** The difference of two positive numbers, the larger first. *)
Lemma sub_error x y mx ex my ey :
  Prim2SF x = S754_finite false mx ex -> Prim2SF y = S754_finite false my ey ->
  ex <= 900 -> ey <= 900 -> (to_R y < to_R x)%R ->
  nonneg_finite (Prim2SF (x - y)%float)
  /\ (Rabs (to_R (x - y)%float - (to_R x - to_R y))
      <= (to_R x - to_R y) * powerRZ 2 (-52) + powerRZ 2 (-1074))%R.
Proof.
  intros Ex Ey Hex Hey Hlt.
  set (ez := Z.min ex ey).
  pose proof (aligned x mx ex ez Ex ltac:(unfold ez; lia)) as Hx.
  pose proof (aligned y my ey ez Ey ltac:(unfold ez; lia)) as Hy.
  set (ax := fst (shl_align mx ex ez)) in *. set (ay := fst (shl_align my ey ez)) in *.
  pose proof (bpow_pos ez) as Hbz.
  assert (Hgt : Zpos ay < Zpos ax).
  { apply lt_IZR. apply Rmult_lt_reg_r with (powerRZ 2 ez); [exact Hbz|]. lra. }
  assert (Hpos : exists d, Zpos ax - Zpos ay = Zpos d).
  { destruct (Zpos ax - Zpos ay) as [|d|d] eqn:Ed; try lia. eauto. }
  destruct Hpos as [d Hd].
  assert (Hspec : Prim2SF (x - y)%float = binary_round prec emax false d ez).
  { rewrite sub_spec, Ex, Ey.
    change (binary_normalize prec emax (Zpos ax - Zpos ay) ez false
            = binary_round prec emax false d ez).
    rewrite Hd. reflexivity. }
  assert (Hdiff : (to_R x - to_R y = IZR (Zpos d) * powerRZ 2 ez)%R).
  { rewrite Hx, Hy, <- Hd, minus_IZR. ring. }
  destruct (canonical x _ _ _ Ex) as (_ & Hmx & _).
  pose proof (to_R_pos y my ey Ey) as Hy0.
  assert (Hdig : Zpos (digits2_pos d) + ez <= 1000).
  { assert (Hlt' : Zpos d < 2 ^ (954 - ez)).
    { apply lt_IZR. apply Rmult_lt_reg_r with (powerRZ 2 ez); [exact Hbz|].
      rewrite <- Hdiff, <- bpow_IZR, <- bpow_add by (unfold ez; lia).
      replace (954 - ez + ez) with 954 by lia.
      assert (Hbx : (to_R x < powerRZ 2 954)%R).
      { rewrite (to_R_finite x mx ex Ex).
        apply Rlt_le_trans with (IZR (2 ^ 53) * powerRZ 2 ex)%R.
        - apply Rmult_lt_compat_r; [apply bpow_pos | now apply IZR_lt].
        - rewrite <- bpow_IZR, <- bpow_add by lia. apply bpow_le. lia. }
      lra. }
    pose proof (Zdigits2_le (Zpos d) (954 - ez) ltac:(lia) ltac:(unfold ez; lia) Hlt').
    cbn [Zdigits2] in H. lia. }
  unfold to_R at 1. rewrite Hspec, Hdiff.
  apply binary_round_error; [lia | unfold ez; lia].
Qed.

End Sums.

Section Quotients.

(** Without a bound on the exponent the rounded value may be the
    infinity. *)
Lemma round_aux_cases M E l v :
  0 <= M ->
  (IZR M * powerRZ 2 E <= v <= IZR (M + 1) * powerRZ 2 E)%R ->
  binary_round_aux prec emax false M E l = S754_infinity false
  \/ (nonneg_finite (binary_round_aux prec emax false M E l)
      /\ (Rabs (SF2R (binary_round_aux prec emax false M E l) - v)
          <= powerRZ 2 (Z.max E (fexp prec emax (Zdigits2 M + E))))%R).
Proof.
  intros HM Hv.
  destruct (round_aux_shape M E l HM) as (m2 & e1 & m3 & e2 & He1 & Hm2 & He2 & Hm3 & H3 & ->).
  rewrite <- He1. rewrite fexp64 in He1.
  destruct m3 as [|m|m]; [| |lia].
  - right. split; [now left|].
    assert (Hm20 : m2 = 0) by lia. cbn [SF2R].
    set (m1 := M / 2 ^ (e1 - E)) in *.
    assert (Hshift : 0 <= e1 - E) by lia.
    assert (Hp : 0 < 2 ^ (e1 - E)) by (apply Z.pow_pos_nonneg; lia).
    assert (Hdiv : m1 * 2 ^ (e1 - E) <= M < (m1 + 1) * 2 ^ (e1 - E)).
    { unfold m1. pose proof (Z.mul_div_le M (2 ^ (e1 - E)) Hp).
      pose proof (Z.mul_succ_div_gt M (2 ^ (e1 - E)) Hp). lia. }
    assert (Hm10 : 0 <= m1) by (unfold m1; apply Z.div_pos; lia).
    assert (Hm1 : m1 = 0) by lia.
    pose proof (bpow_pos E) as HbE. pose proof (bpow_pos e1) as Hb1.
    assert (Hhi : (v <= IZR 1 * powerRZ 2 e1)%R).
    { rewrite (scale_down 1 e1 E) by lia. apply Rle_trans with (1 := proj2 Hv).
      apply Rmult_le_compat_r; [lra|]. apply IZR_le. rewrite Hm1 in Hdiv. lia. }
    assert (Hlo : (0 <= v)%R).
    { apply Rle_trans with (2 := proj1 Hv). apply Rmult_le_pos; [apply IZR_le; lia | lra]. }
    apply Rabs_le. lra.
  - destruct (Z.leb_spec e2 971) as [Hle|Hgt]; [right | now left].
    split; [right; eauto|].
    rewrite (SF2R_shape (Zpos m) e2 e1 m2 ltac:(lia) ltac:(lia) Hm3).
    set (m1 := M / 2 ^ (e1 - E)) in *.
    assert (Hshift : 0 <= e1 - E) by lia.
    assert (Hp : 0 < 2 ^ (e1 - E)) by (apply Z.pow_pos_nonneg; lia).
    assert (Hdiv : m1 * 2 ^ (e1 - E) <= M < (m1 + 1) * 2 ^ (e1 - E)).
    { unfold m1. pose proof (Z.mul_div_le M (2 ^ (e1 - E)) Hp).
      pose proof (Z.mul_succ_div_gt M (2 ^ (e1 - E)) Hp). lia. }
    pose proof (bpow_pos E) as HbE. pose proof (bpow_pos e1) as Hb1.
    assert (Hscale : forall k, (IZR k * powerRZ 2 e1 = IZR (k * 2 ^ (e1 - E)) * powerRZ 2 E)%R)
      by (intros k; apply scale_down; lia).
    assert (Hlo : (IZR m1 * powerRZ 2 e1 <= v)%R).
    { rewrite Hscale. apply Rle_trans with (2 := proj1 Hv).
      apply Rmult_le_compat_r; [lra|]. apply IZR_le. lia. }
    assert (Hhi : (v <= IZR (m1 + 1) * powerRZ 2 e1)%R).
    { rewrite Hscale. apply Rle_trans with (1 := proj2 Hv).
      apply Rmult_le_compat_r; [lra|]. apply IZR_le. lia. }
    assert (Hr : (IZR m1 * powerRZ 2 e1 <= IZR m2 * powerRZ 2 e1 <= IZR (m1 + 1) * powerRZ 2 e1)%R).
    { split; apply Rmult_le_compat_r; try lra; apply IZR_le; lia. }
    rewrite plus_IZR in Hhi, Hr. apply Rabs_le. lra.
Qed.

(** The quotient of two positive numbers, whatever their exponents. *)
Lemma div_cases x y mx ex my ey :
  Prim2SF x = S754_finite false mx ex -> Prim2SF y = S754_finite false my ey ->
  Prim2SF (x / y)%float = S754_infinity false
  \/ (nonneg_finite (Prim2SF (x / y)%float)
      /\ (Rabs (to_R (x / y)%float - to_R x / to_R y)
          <= to_R x / to_R y * powerRZ 2 (-52) + powerRZ 2 (-1074))%R).
Proof.
  intros Ex Ey.
  pose proof (digits2_bounds mx) as [Lx Ux]. pose proof (digits2_bounds my) as [Ly Uy].
  pose proof (digits_small mx (mantissa_bound x false mx ex Ex)) as Hd53.
  set (d1 := Zpos (digits2_pos mx)) in *. set (d2 := Zpos (digits2_pos my)) in *.
  assert (Hspec : Prim2SF (x / y)%float
                  = let '(mz, ez, lz) :=
                      SFdiv_core_binary prec emax (Zpos mx) ex (Zpos my) ey in
                    binary_round_aux prec emax false mz ez lz).
  { rewrite div_spec, Ex, Ey. reflexivity. }
  unfold SFdiv_core_binary in Hspec. cbn [Zdigits2] in Hspec. fold d1 d2 in Hspec.
  rewrite fexp64 in Hspec.
  set (D := d1 + ex - (d2 + ey)) in *.
  set (e' := Z.min (Z.max (D - 53) (-1074)) (ex - ey)) in *.
  set (s := ex - ey - e') in *.
  assert (Hs : 0 <= s) by (unfold s, e'; lia).
  set (m' := match s with 0 => Zpos mx | Zpos _ => Z.shiftl (Zpos mx) s | Zneg _ => 0 end) in *.
  assert (Hm' : m' = Zpos mx * 2 ^ s).
  { unfold m'. destruct s as [|p|p] eqn:Es; [lia| |lia]. now rewrite Z.shiftl_mul_pow2. }
  clearbody m'.
  assert (Hps : 0 < 2 ^ s) by (apply Z.pow_pos_nonneg; lia).
  pose proof (Z_div_mod m' (Zpos my) ltac:(lia)) as Hdm.
  destruct (Z.div_eucl m' (Zpos my)) as [q r]. destruct Hdm as [Hq Hr].
  assert (Hq0 : 0 <= q) by nia.
  pose proof (bpow_pos e') as Hbe. pose proof (bpow_pos ex) as Hbx.
  pose proof (bpow_pos ey) as Hby.
  assert (Hy0 : (0 < IZR (Zpos my))%R) by (apply IZR_lt; lia).
  assert (Hv : (to_R x / to_R y = IZR m' / IZR (Zpos my) * powerRZ 2 e')%R).
  { rewrite (to_R_finite x mx ex Ex), (to_R_finite y my ey Ey).
    replace ex with (e' + s + ey) at 1 by (unfold s; lia).
    rewrite !bpow_add, (bpow_IZR s) by lia. rewrite Hm', mult_IZR. field. lra. }
  assert (Hbr : (IZR q * powerRZ 2 e' <= to_R x / to_R y <= IZR (q + 1) * powerRZ 2 e')%R).
  { rewrite Hv. split; apply Rmult_le_compat_r; try lra.
    - apply Rmult_le_reg_r with (IZR (Zpos my)); [lra|].
      unfold Rdiv. rewrite Rmult_assoc, Rinv_l, Rmult_1_r by lra.
      rewrite <- mult_IZR. apply IZR_le. rewrite Hq. lia.
    - apply Rmult_le_reg_r with (IZR (Zpos my)); [lra|].
      unfold Rdiv. rewrite Rmult_assoc, Rinv_l, Rmult_1_r by lra.
      rewrite <- mult_IZR. apply IZR_le. rewrite Hq. lia. }
  assert (Hfe : e' <= fexp prec emax (Zdigits2 q + e')).
  { rewrite fexp64. destruct (Z.le_gt_cases e' (-1074)) as [Hle|Hgt]; [lia|].
    assert (He' : e' <= D - 53) by (unfold e' in *; lia).
    assert (Hs53 : 53 - d1 + d2 <= s) by (unfold s, D in *; lia).
    assert (H52 : 2 ^ 52 <= q).
    { assert (Hbig : 2 ^ 52 * Zpos my <= m').
      { rewrite Hm'.
        assert (2 ^ (53 - d1 + d2) <= 2 ^ s) by (apply Z.pow_le_mono_r; unfold d1, d2 in *; lia).
        assert (Hsplit : 2 ^ (d1 - 1) * 2 ^ (53 - d1 + d2) = 2 ^ 52 * 2 ^ d2).
        { rewrite <- !Z.pow_add_r by (unfold d1, d2 in *; lia). f_equal. lia. }
        assert (0 < 2 ^ 52) by reflexivity.
        assert (0 < 2 ^ (d1 - 1)) by (apply Z.pow_pos_nonneg; unfold d1; lia).
        nia. }
      destruct (Z.le_gt_cases (2 ^ 52) q) as [H|H]; [exact H|]. exfalso.
      assert (0 < 2 ^ 52) by reflexivity. nia. }
    pose proof (Zdigits2_ge q 52 ltac:(lia) H52). lia. }
  unfold to_R at 1. rewrite Hspec.
  destruct (round_aux_cases q e' (new_location (Zpos my) r) (to_R x / to_R y)%R Hq0 Hbr)
    as [Hinf | [Hfin Herr]]; [now left | right].
  split; [exact Hfin|]. apply Rle_trans with (1 := Herr).
  apply ulp_bound; [exact Hq0 | exact Hfe | exact (proj1 Hbr)].
Qed.

(** The result of a rounding carries the sign it is given. *)
Lemma round_aux_negative M E l m e :
  binary_round_aux prec emax true M E l <> S754_finite false m e.
Proof.
  unfold binary_round_aux.
  destruct (shr_fexp prec emax M E l) as [mrs1 e1].
  destruct (shr_fexp prec emax _ e1 loc_Exact) as [mrs2 e2].
  destruct (shr_m mrs2); try discriminate.
  destruct (e2 <=? emax - prec); discriminate.
Qed.

Lemma div_negative x y mx ex my ey m e :
  Prim2SF x = S754_finite true mx ex -> Prim2SF y = S754_finite false my ey ->
  Prim2SF (x / y)%float <> S754_finite false m e.
Proof.
  intros Ex Ey.
  assert (Hspec : Prim2SF (x / y)%float
                  = let '(mz, ez, lz) :=
                      SFdiv_core_binary prec emax (Zpos mx) ex (Zpos my) ey in
                    binary_round_aux prec emax true mz ez lz).
  { rewrite div_spec, Ex, Ey. reflexivity. }
  rewrite Hspec.
  destruct (SFdiv_core_binary prec emax (Zpos mx) ex (Zpos my) ey) as [[mz ez] lz].
  apply round_aux_negative.
Qed.

End Quotients.

Section Constants.

Lemma bpow_neg k : 0 <= k -> powerRZ 2 (- k) = (/ IZR (2 ^ k))%R.
Proof. intros Hk. now rewrite powerRZ_neg', bpow_IZR. Qed.

Lemma to_R_value x m k :
  Prim2SF x = S754_finite false m (- k) -> 0 <= k ->
  to_R x = (IZR (Zpos m) / IZR (2 ^ k))%R.
Proof. intros E Hk. rewrite (to_R_finite x m _ E), bpow_neg by exact Hk. reflexivity. Qed.

Lemma value_12_92 : to_R 12.92%float = (7273313398203351 / 562949953421312)%R.
Proof. exact (to_R_value 12.92%float 7273313398203351 49 eq_refl ltac:(lia)). Qed.

Lemma value_0_04045 : to_R 0.04045%float = (5829459357668370 / 144115188075855872)%R.
Proof. exact (to_R_value 0.04045%float 5829459357668370 57 eq_refl ltac:(lia)). Qed.

Lemma value_0_0031308 : to_R 0.0031308%float = (7219133293246233 / 2305843009213693952)%R.
Proof. exact (to_R_value 0.0031308%float 7219133293246233 61 eq_refl ltac:(lia)). Qed.

Lemma value_0_0404499 : to_R 0.0404499%float = (5829444946149562 / 144115188075855872)%R.
Proof. exact (to_R_value 0.0404499%float 5829444946149562 57 eq_refl ltac:(lia)). Qed.

Lemma unit_roundoff : powerRZ 2 (-52) = (/ 4503599627370496)%R.
Proof. exact (bpow_neg 52 ltac:(lia)). Qed.

Lemma tiny : (0 < powerRZ 2 (-1074) <= / 1267650600228229401496703205376)%R.
Proof.
  split; [apply bpow_pos|].
  apply Rle_trans with (powerRZ 2 (-100)); [apply bpow_le; lia|].
  apply Req_le. exact (bpow_neg 100 ltac:(lia)).
Qed.

End Constants.

Section LinearSegment.
Context `{Engine}.

Lemma Rabs_bounds x y : (Rabs x <= y)%R -> (- y <= x <= y)%R.
Proof. unfold Rabs. destruct (Rcase_abs x); lra. Qed.

Lemma nonneg_0_0404499 : nonneg_finite (Prim2SF 0.0404499%float).
Proof. right. do 2 eexists. reflexivity. Qed.

Lemma nonneg_0_04045 : nonneg_finite (Prim2SF 0.04045%float).
Proof. right. do 2 eexists. reflexivity. Qed.

Lemma nonneg_0_0031308 : nonneg_finite (Prim2SF 0.0031308%float).
Proof. right. do 2 eexists. reflexivity. Qed.

Lemma to_R_zero x : Prim2SF x = S754_zero false -> to_R x = 0%R.
Proof. intros E. unfold to_R. now rewrite E. Qed.

Lemma mul_zero x y m e :
  Prim2SF x = S754_zero false -> Prim2SF y = S754_finite false m e ->
  Prim2SF (x * y)%float = S754_zero false.
Proof. intros Ex Ey. rewrite mul_spec, Ex, Ey. reflexivity. Qed.

Lemma div_zero x y m e :
  Prim2SF x = S754_zero false -> Prim2SF y = S754_finite false m e ->
  Prim2SF (x / y)%float = S754_zero false.
Proof. intros Ex Ey. rewrite div_spec, Ex, Ey. reflexivity. Qed.

(** Division by 12.92 and multiplication by 12.92 of a number below 1. *)
Lemma div_12_92 x :
  nonneg_finite (Prim2SF x) -> (to_R x < 1)%R ->
  nonneg_finite (Prim2SF (x / 12.92)%float)
  /\ (Rabs (to_R (x / 12.92)%float - to_R x / to_R 12.92%float)
      <= to_R x / to_R 12.92%float * powerRZ 2 (-52) + powerRZ 2 (-1074))%R.
Proof.
  intros [Ex | (m & e & Ex)] Hlt.
  - pose proof (div_zero x 12.92%float _ _ Ex eq_refl) as Ez.
    split; [now left|]. rewrite (to_R_zero _ Ez), (to_R_zero _ Ex).
    replace (0 - 0 / to_R 12.92%float)%R with 0%R by (unfold Rdiv; ring).
    rewrite Rabs_R0. pose proof tiny. unfold Rdiv. rewrite !Rmult_0_l. lra.
  - assert (He : e <= -53).
    { apply (exponent_below x m e 0 Ex); [exact Hlt | lia]. }
    pose proof (digits_small m (mantissa_bound x false m e Ex)).
    apply (div_error x 12.92%float m e 7273313398203351 (-49) Ex eq_refl); lia.
Qed.

Lemma mul_12_92 x :
  nonneg_finite (Prim2SF x) -> (to_R x < 1)%R ->
  nonneg_finite (Prim2SF (x * 12.92)%float)
  /\ (Rabs (to_R (x * 12.92)%float - to_R x * to_R 12.92%float)
      <= to_R x * to_R 12.92%float * powerRZ 2 (-52) + powerRZ 2 (-1074))%R.
Proof.
  intros [Ex | (m & e & Ex)] Hlt.
  - pose proof (mul_zero x 12.92%float _ _ Ex eq_refl) as Ez.
    split; [now left|]. rewrite (to_R_zero _ Ez), (to_R_zero _ Ex).
    replace (0 - 0 * to_R 12.92%float)%R with 0%R by ring.
    rewrite Rabs_R0. pose proof tiny. rewrite !Rmult_0_l. lra.
  - assert (He : e <= -53).
    { apply (exponent_below x m e 0 Ex); [exact Hlt | lia]. }
    apply (mul_error x 12.92%float m e 7273313398203351 (-49) Ex eq_refl); lia.
Qed.

Lemma forward_linear_pos s :
  nonneg_finite (Prim2SF s) -> (s <=? 0.0404499)%float = true ->
  linearToSRGB (sRGBToLinear s) = (s / 12.92 * 12.92)%float
  /\ (Rabs (to_R (s / 12.92 * 12.92)%float - to_R s) <= 1 / 10 ^ 16)%R.
Proof.
  intros Hs Hle.
  apply (leb_to_R s _ Hs nonneg_0_0404499) in Hle.
  rewrite value_0_0404499 in Hle.
  assert (Hs0 : (0 <= to_R s)%R).
  { destruct Hs as [E | (m & e & E)]; [rewrite (to_R_zero _ E); lra|].
    apply Rlt_le, (to_R_pos s m e E). }
  destruct (div_12_92 s Hs ltac:(lra)) as [Hl Hlerr].
  rewrite value_12_92, unit_roundoff in Hlerr. pose proof tiny as Ht.
  apply Rabs_bounds in Hlerr.
  assert (Hl0 : (0 <= to_R (s / 12.92)%float)%R).
  { destruct Hl as [E | (m & e & E)]; [rewrite (to_R_zero _ E); lra|].
    apply Rlt_le, (to_R_pos _ m e E). }
  destruct (mul_12_92 (s / 12.92)%float Hl ltac:(lra)) as [Hr Hrerr].
  rewrite value_12_92, unit_roundoff in Hrerr. apply Rabs_bounds in Hrerr.
  split.
  - unfold sRGBToLinear.
    replace (s <=? 0.040_45)%float with true.
    2:{ symmetry. apply (leb_to_R s _ Hs nonneg_0_04045).
        rewrite value_0_04045. lra. }
    unfold linearToSRGB.
    replace (s / 12.92 <=? 0.003_130_8)%float with true; [reflexivity|].
    symmetry. apply (leb_to_R _ _ Hl nonneg_0_0031308).
    rewrite value_0_0031308. lra.
  - apply Rabs_le. lra.
Qed.

Lemma reverse_linear_pos l :
  nonneg_finite (Prim2SF l) -> (l <=? 0.003_130_8)%float = true ->
  sRGBToLinear (linearToSRGB l) = (l * 12.92 / 12.92)%float
  /\ (Rabs (to_R (l * 12.92 / 12.92)%float - to_R l) <= 1 / 10 ^ 16)%R.
Proof.
  intros Hl Hle. pose proof Hle as Hle'.
  apply (leb_to_R l _ Hl nonneg_0_0031308) in Hle.
  rewrite value_0_0031308 in Hle.
  assert (Hl0 : (0 <= to_R l)%R).
  { destruct Hl as [E | (m & e & E)]; [rewrite (to_R_zero _ E); lra|].
    apply Rlt_le, (to_R_pos l m e E). }
  destruct (mul_12_92 l Hl ltac:(lra)) as [Hp Hperr].
  rewrite value_12_92, unit_roundoff in Hperr. pose proof tiny as Ht.
  apply Rabs_bounds in Hperr.
  assert (Hp0 : (0 <= to_R (l * 12.92)%float)%R).
  { destruct Hp as [E | (m & e & E)]; [rewrite (to_R_zero _ E); lra|].
    apply Rlt_le, (to_R_pos _ m e E). }
  destruct (div_12_92 (l * 12.92)%float Hp ltac:(lra)) as [Hq Hqerr].
  rewrite value_12_92, unit_roundoff in Hqerr. apply Rabs_bounds in Hqerr.
  split.
  - unfold linearToSRGB. rewrite Hle'. unfold sRGBToLinear.
    replace (l * 12.92 <=? 0.040_45)%float with true; [reflexivity|].
    symmetry. apply (leb_to_R _ _ Hp nonneg_0_04045).
    rewrite value_0_04045. lra.
  - apply Rabs_le. lra.
Qed.

End LinearSegment.

(** ** Powers of real numbers *)

Section Analysis.
Open Scope R_scope.

Lemma ln_upper x : 0 < x -> ln x <= x - 1.
Proof.
  intros Hx. pose proof (exp_ineq1_le (ln x)) as H. rewrite (exp_ln x Hx) in H. lra.
Qed.

Lemma ln_lower x : 0 < x -> 1 - / x <= ln x.
Proof.
  intros Hx. pose proof (exp_ineq1_le (- ln x)) as H.
  rewrite exp_Ropp, (exp_ln x Hx) in H. lra.
Qed.

Lemma exp_upper y : y <= 1 / 2 -> exp y <= 1 + 2 * Rabs y.
Proof.
  intros Hy. pose proof (exp_ineq1_le (- y)) as H. rewrite exp_Ropp in H.
  pose proof (exp_pos y) as Hp.
  destruct (Rle_dec 0 y) as [H0|H0].
  - rewrite Rabs_pos_eq by exact H0.
    assert (Hm : exp y * (1 - y) <= 1).
    { replace 1 with (exp y * / exp y) at 2 by (field; lra).
      apply Rmult_le_compat_l; lra. }
    assert (Hd : (1 + 2 * y) * (1 - y) >= 1) by nra.
    apply Rmult_le_reg_r with (1 - y); [lra|]. lra.
  - assert (Hy0 : y < 0) by lra. rewrite Rabs_left by exact Hy0.
    assert (exp y < exp 0) by (apply exp_increasing; lra). rewrite exp_0 in H1. lra.
Qed.

(** A power of a number near 1 is near 1. *)
Lemma Rpower_ratio w b phi B :
  0 <= phi <= 1 / 10 -> 0 <= b <= B -> B * phi <= 1 / 2 ->
  1 - phi <= w <= 1 + phi ->
  1 - 2 * B * phi <= Rpower w b <= 1 + 2 * B * phi.
Proof.
  intros Hphi Hb HB Hw. assert (Hw0 : 0 < w) by lra. unfold Rpower.
  pose proof (ln_upper w Hw0) as Hu. pose proof (ln_lower w Hw0) as Hl.
  assert (Hinv : / w <= 1 + 2 * phi).
  { apply Rmult_le_reg_r with w; [lra|]. rewrite Rinv_l by lra. nra. }
  assert (Hy : - (2 * B * phi) <= b * ln w <= B * phi).
  { split.
    - assert (- (2 * phi) <= ln w) by lra.
      assert (b * - (2 * phi) <= b * ln w) by (apply Rmult_le_compat_l; lra).
      assert (B * - (2 * phi) <= b * - (2 * phi)) by nra. lra.
    - assert (ln w <= phi) by lra.
      destruct (Rle_dec 0 (ln w)) as [H0|H0].
      + assert (b * ln w <= B * ln w) by (apply Rmult_le_compat_r; lra).
        assert (B * ln w <= B * phi) by (apply Rmult_le_compat_l; lra). lra.
      + assert (b * ln w <= 0) by nra. nra. }
  split.
  - pose proof (exp_ineq1_le (b * ln w)). lra.
  - pose proof (exp_upper (b * ln w) ltac:(lra)) as He.
    assert (Rabs (b * ln w) <= 2 * B * phi) by (apply Rabs_le; lra).
    destruct (Rle_dec 0 (b * ln w)) as [H0|H0].
    + rewrite Rabs_pos_eq in He by exact H0. lra.
    + assert (exp (b * ln w) < exp 0) by (apply exp_increasing; lra).
      rewrite exp_0 in H1. nra.
Qed.

(** A power with an exponent near 0. *)
Lemma Rpower_near_one U kappa k :
  1 / 1000 <= U <= 2 -> Rabs kappa <= k -> k <= 1 / 4000 ->
  1 - 1000 * k <= Rpower U kappa <= 1 + 2000 * k.
Proof.
  intros HU Hk Hk4. assert (HU0 : 0 < U) by lra. unfold Rpower.
  pose proof (ln_upper U HU0) as Hu. pose proof (ln_lower U HU0) as Hl.
  assert (Hinv : / U <= 1000).
  { apply Rmult_le_reg_r with U; [lra|]. rewrite Rinv_l by lra. lra. }
  assert (Hln : Rabs (ln U) <= 1000) by (apply Rabs_le; lra).
  assert (Hk0 : 0 <= k) by (pose proof (Rabs_pos kappa); lra).
  assert (Hy : Rabs (kappa * ln U) <= 1000 * k).
  { rewrite Rabs_mult. pose proof (Rabs_pos kappa). pose proof (Rabs_pos (ln U)).
    assert (Rabs kappa * Rabs (ln U) <= k * 1000)
      by (apply Rmult_le_compat; lra).
    lra. }
  assert (Hy' : - (1000 * k) <= kappa * ln U <= 1000 * k).
  { unfold Rabs in Hy. destruct (Rcase_abs (kappa * ln U)); lra. }
  split.
  - pose proof (exp_ineq1_le (kappa * ln U)). lra.
  - pose proof (exp_upper (kappa * ln U) ltac:(lra)). lra.
Qed.

(** A power of a number near another one. *)
Lemma Rpower_base X Y b phi B :
  0 < X -> 0 <= phi <= 1 / 10 -> 0 <= b <= B -> B * phi <= 1 / 2 ->
  X * (1 - phi) <= Y <= X * (1 + phi) ->
  Rpower X b * (1 - 2 * B * phi) <= Rpower Y b <= Rpower X b * (1 + 2 * B * phi).
Proof.
  intros HX Hphi Hb HB HY.
  assert (Hw : 1 - phi <= Y / X <= 1 + phi).
  { split.
    - apply Rmult_le_reg_r with X; [lra|]. unfold Rdiv.
      rewrite Rmult_assoc, Rinv_l by lra. lra.
    - apply Rmult_le_reg_r with X; [lra|]. unfold Rdiv.
      rewrite Rmult_assoc, Rinv_l by lra. lra. }
  pose proof (Rpower_ratio (Y / X) b phi B Hphi Hb HB Hw) as Hr.
  assert (HYX : 0 < Y / X) by lra.
  assert (Hsplit : Rpower Y b = Rpower X b * Rpower (Y / X) b).
  { rewrite Rpower_mult_distr by lra. f_equal. field. lra. }
  assert (Hp : 0 < Rpower X b) by apply exp_pos.
  rewrite Hsplit. split; apply Rmult_le_compat_l; lra.
Qed.

(** A power with an exponent near 1. *)
Lemma Rpower_near_id U e k :
  1 / 1000 <= U <= 2 -> Rabs (e - 1) <= k -> k <= 1 / 4000 ->
  U * (1 - 1000 * k) <= Rpower U e <= U * (1 + 2000 * k).
Proof.
  intros HU Hk Hk4.
  pose proof (Rpower_near_one U (e - 1) k HU Hk Hk4) as Hn.
  assert (Hs : Rpower U e = U * Rpower U (e - 1)).
  { replace e with (1 + (e - 1)) at 1 by ring. rewrite Rpower_plus, Rpower_1 by lra.
    reflexivity. }
  rewrite Hs. split; apply Rmult_le_compat_l; lra.
Qed.

End Analysis.

(** ** The transfer functions, there and back *)

Section MoreConstants.

Lemma value_0_055 : to_R 0.055%float = (7926335344172073 / 144115188075855872)%R.
Proof. exact (to_R_value 0.055%float 7926335344172073 57 eq_refl ltac:(lia)). Qed.

Lemma value_1_055 : to_R 1.055%float = (4751297606875873 / 4503599627370496)%R.
Proof. exact (to_R_value 1.055%float 4751297606875873 52 eq_refl ltac:(lia)). Qed.

Lemma value_2_4 : to_R 2.4%float = (5404319552844595 / 2251799813685248)%R.
Proof. exact (to_R_value 2.4%float 5404319552844595 51 eq_refl ltac:(lia)). Qed.

Lemma value_inv_2_4 : to_R (1 / 2.4)%float = (7505999378950827 / 18014398509481984)%R.
Proof. exact (to_R_value (1 / 2.4)%float 7505999378950827 54 eq_refl ltac:(lia)). Qed.

Lemma value_1 : to_R 1%float = 1%R.
Proof. rewrite (to_R_value 1%float 4503599627370496 52 eq_refl ltac:(lia)). lra. Qed.

Lemma nonneg_1 : nonneg_finite (Prim2SF 1%float).
Proof. right. do 2 eexists. reflexivity. Qed.

End MoreConstants.

Section Positive.

Lemma positive_finite x :
  nonneg_finite (Prim2SF x) -> (0 < to_R x)%R ->
  exists m e, Prim2SF x = S754_finite false m e.
Proof.
  intros [E | H] Hp; [|exact H]. rewrite (to_R_zero x E) in Hp. lra.
Qed.

Lemma nonneg_to_R x : nonneg_finite (Prim2SF x) -> (0 <= to_R x)%R.
Proof.
  intros [E | (m & e & E)]; [rewrite (to_R_zero x E); lra|].
  apply Rlt_le, (to_R_pos x m e E).
Qed.

(** A number above a positive one and below a finite one. *)
Lemma above_positive c x d mc ec md ed :
  Prim2SF c = S754_finite false mc ec -> Prim2SF d = S754_finite false md ed ->
  (c <? x)%float = true -> (x <=? d)%float = true ->
  exists m e, Prim2SF x = S754_finite false m e.
Proof.
  intros Ec Ed Hlt Hle. rewrite ltb_spec in Hlt. rewrite leb_spec in Hle.
  unfold SFltb in Hlt. unfold SFleb in Hle. rewrite Ec in Hlt. rewrite Ed in Hle.
  destruct (Prim2SF x) as [[]|[]| |[] m e]; try discriminate Hlt; try discriminate Hle.
  eauto.
Qed.

Lemma ltb_not_leb x y : (x <? y)%float = true -> (y <=? x)%float = false.
Proof.
  rewrite ltb_spec, leb_spec. unfold SFltb, SFleb.
  rewrite (SFcompare_antisym (Prim2SF x) (Prim2SF y)).
  destruct (SFcompare (Prim2SF x) (Prim2SF y)) as [[]|]; cbn; try discriminate; reflexivity.
Qed.

Lemma to_R_not_leb x y :
  nonneg_finite (Prim2SF x) -> nonneg_finite (Prim2SF y) ->
  (to_R y < to_R x)%R -> (x <=? y)%float = false.
Proof.
  intros Hx Hy Hlt. apply ltb_not_leb. now apply ltb_to_R.
Qed.

(** The exponent of a positive number below 2. *)
Lemma small_exponent x m e :
  Prim2SF x = S754_finite false m e -> (to_R x < 2)%R -> e <= -52.
Proof.
  intros E Hlt. pose proof (exponent_below x m e 1 E) as H.
  change (powerRZ 2 1) with (2 * 1)%R in H. specialize (H ltac:(lra) ltac:(lia)). lia.
Qed.

End Positive.

Section PowerFacts.
Open Scope R_scope.

Lemma exp_mono x y : x <= y -> exp x <= exp y.
Proof. intros [H | ->]; [left; now apply exp_increasing | right; reflexivity]. Qed.

(** Below 1 a power decreases with its exponent. *)
Lemma Rpower_exponent_below x a b : 0 < x <= 1 -> a <= b -> Rpower x b <= Rpower x a.
Proof.
  intros Hx Hab. unfold Rpower. apply exp_mono.
  pose proof (ln_upper x ltac:(lra)). nra.
Qed.

Lemma power_12_5 a b : 0 < a -> 0 < b -> a ^ 5 < b ^ 12 -> a < Rpower b (12 / 5).
Proof.
  intros Ha Hb H.
  rewrite <- (exp_ln a Ha) at 1. unfold Rpower. apply exp_increasing.
  assert (H5 : ln (a ^ 5) < ln (b ^ 12)) by (apply ln_increasing; [apply pow_lt; lra | lra]).
  rewrite !ln_pow in H5 by lra. simpl INR in H5. lra.
Qed.

Lemma power_5_12 a b : 0 < a -> 0 < b -> b ^ 12 < a ^ 5 -> b < Rpower a (5 / 12).
Proof.
  intros Ha Hb H.
  rewrite <- (exp_ln b Hb) at 1. unfold Rpower. apply exp_increasing.
  assert (H5 : ln (b ^ 12) < ln (a ^ 5)) by (apply ln_increasing; [apply pow_lt; lra | lra]).
  rewrite !ln_pow in H5 by lra. simpl INR in H5. lra.
Qed.

Lemma power_5_12_below a b : 0 < a -> 0 < b -> a ^ 5 < b ^ 12 -> Rpower a (5 / 12) < b.
Proof.
  intros Ha Hb H.
  rewrite <- (exp_ln b Hb). unfold Rpower. apply exp_increasing.
  assert (H5 : ln (a ^ 5) < ln (b ^ 12)) by (apply ln_increasing; [apply pow_lt; lra | lra]).
  rewrite !ln_pow in H5 by lra. simpl INR in H5. lra.
Qed.

(** The two exponents of the program undo each other up to 1e-15. *)
Lemma exponents_inverse :
  Rabs (to_R 2.4%float * to_R (1 / 2.4)%float - 1) <= 1 / 10 ^ 15.
Proof. rewrite value_2_4, value_inv_2_4. apply Rabs_le. lra. Qed.

End PowerFacts.

Section ForwardPower.
Context `{Engine}.

Lemma forward_power s :
  (0.04045 <? s)%float = true -> (s <=? 1)%float = true ->
  accurate ((s + 0.055) / 1.055)%float 2.4%float ->
  accurate (Math_pow ((s + 0.055) / 1.055) 2.4)%float (1 / 2.4)%float ->
  linearToSRGB (sRGBToLinear s)
  = (Math_pow (Math_pow ((s + 0.055) / 1.055) 2.4) (1 / 2.4) * 1.055 - 0.055)%float
  /\ (Rabs (to_R (linearToSRGB (sRGBToLinear s)) - to_R s) <= 1 / 10 ^ 9)%R.
Proof.
  intros Hlo Hhi Hp1 Hp2.
  destruct (above_positive 0.04045%float s 1%float _ _ _ _ eq_refl eq_refl Hlo Hhi)
    as (ms & es & Es).
  assert (Hs : nonneg_finite (Prim2SF s)) by (right; eauto).
  pose proof (proj1 (ltb_to_R _ _ nonneg_0_04045 Hs) Hlo) as HS1.
  rewrite value_0_04045 in HS1.
  pose proof (proj1 (leb_to_R _ _ Hs nonneg_1) Hhi) as HS2. rewrite value_1 in HS2.
  pose proof tiny as Ht.
  (* the sum *)
  destruct (add_error s 0.055%float ms es 7926335344172073 (-57) Es eq_refl) as [Ha Haerr];
    [pose proof (small_exponent s ms es Es ltac:(lra)); lia | lia |].
  rewrite value_0_055, unit_roundoff in Haerr. apply Rabs_bounds in Haerr.
  destruct (positive_finite _ Ha ltac:(lra)) as (ma & ea & Ea).
  pose proof (small_exponent _ ma ea Ea ltac:(lra)) as Hea.
  pose proof (digits_small ma (mantissa_bound _ false ma ea Ea)) as Hda.
  (* the quotient *)
  destruct (div_error (s + 0.055)%float 1.055%float ma ea 4751297606875873 (-52) Ea eq_refl) as [Hu Huerr];
    [lia | lia |].
  rewrite value_1_055, unit_roundoff in Huerr. apply Rabs_bounds in Huerr.
  set (u := ((s + 0.055) / 1.055)%float) in *.
  assert (HU : (90473933640 / 1000000000000 <= to_R u <= 1 + 1 / 10 ^ 9)%R) by lra.
  (* the first power *)
  destruct Hp1 as [HP HPerr]. apply Rabs_bounds in HPerr.
  set (P := Math_pow u 2.4%float) in *.
  set (X := Rpower (to_R u) (to_R 2.4%float)) in *.
  assert (HX0 : (0 < X)%R) by apply exp_pos.
  assert (HXlo : (31308049 / 10000000000 < X)%R).
  { unfold X. rewrite value_2_4.
    apply Rlt_le_trans with (Rpower (90473933640 / 1000000000000) (12 / 5)).
    - apply power_12_5; lra.
    - apply Rle_trans with (Rpower (90473933640 / 1000000000000)
                                   (5404319552844595 / 2251799813685248)).
      + apply Rpower_exponent_below; lra.
      + apply Rle_Rpower_l; lra. }
  assert (HP0 : (0 < to_R P)%R) by lra.
  (* the branches *)
  assert (Hcode : linearToSRGB (sRGBToLinear s)
                  = (Math_pow P (1 / 2.4) * 1.055 - 0.055)%float).
  { unfold sRGBToLinear. rewrite (ltb_not_leb _ _ Hlo). fold u. fold P.
    unfold linearToSRGB.
    rewrite (to_R_not_leb P 0.003_130_8%float HP nonneg_0_0031308); [reflexivity|].
    rewrite value_0_0031308. lra. }
  split; [exact Hcode|]. rewrite Hcode.
  (* the second power *)
  destruct Hp2 as [HQ HQerr]. fold P in HQ, HQerr. apply Rabs_bounds in HQerr.
  set (Q := Math_pow P (1 / 2.4)%float) in *.
  pose proof (Rpower_base X (to_R P) (to_R (1 / 2.4)%float) (1 / 10 ^ 10) (1 / 2) HX0
                ltac:(lra) ltac:(rewrite value_inv_2_4; lra) ltac:(lra) ltac:(lra)) as Hb.
  unfold X in Hb. rewrite !Rpower_mult in Hb.
  pose proof (Rpower_near_id (to_R u) (to_R 2.4%float * to_R (1 / 2.4)%float) (1 / 10 ^ 15)
                ltac:(lra) exponents_inverse ltac:(lra)) as Hid.
  set (Y := Rpower (to_R u) (to_R 2.4%float * to_R (1 / 2.4)%float)) in *.
  set (Z := Rpower (to_R P) (to_R (1 / 2.4)%float)) in *.
  assert (HQ0 : (0 < to_R Q < 2)%R) by lra.
  destruct (positive_finite _ HQ (proj1 HQ0)) as (mq & eq & Eq).
  pose proof (small_exponent _ mq eq Eq (proj2 HQ0)) as Heq.
  (* the product and the difference *)
  destruct (mul_error Q 1.055%float mq eq 4751297606875873 (-52) Eq eq_refl ltac:(lia)) as [Hm Hmerr].
  rewrite value_1_055, unit_roundoff in Hmerr. apply Rabs_bounds in Hmerr.
  assert (HM0 : (9 / 100 < to_R (Q * 1.055)%float < 2)%R) by lra.
  destruct (positive_finite _ Hm ltac:(lra)) as (mm & em & Em).
  pose proof (small_exponent _ mm em Em (proj2 HM0)) as Hem.
  destruct (sub_error (Q * 1.055)%float 0.055%float mm em 7926335344172073 (-57) Em eq_refl
              ltac:(lia) ltac:(lia)) as [Hr Hrerr]; [rewrite value_0_055; lra|].
  rewrite value_0_055, unit_roundoff in Hrerr. apply Rabs_bounds in Hrerr.
  apply Rabs_le. lra.
Qed.

End ForwardPower.

Section ReverseConstants.

Lemma value_0_00313081 :
  to_R 0.00313081%float = (7219156351676325 / 2305843009213693952)%R.
Proof. exact (to_R_value 0.00313081%float 7219156351676325 61 eq_refl ltac:(lia)). Qed.

Lemma nonneg_0_00313081 : nonneg_finite (Prim2SF 0.00313081%float).
Proof. right. do 2 eexists. reflexivity. Qed.

Lemma between_positive c x d mc ec md ed :
  Prim2SF c = S754_finite false mc ec -> Prim2SF d = S754_finite false md ed ->
  (c <=? x)%float = true -> (x <=? d)%float = true ->
  exists m e, Prim2SF x = S754_finite false m e.
Proof.
  intros Ec Ed Hlt Hle. rewrite leb_spec in Hlt, Hle.
  unfold SFleb in Hlt, Hle. rewrite Ec in Hlt. rewrite Ed in Hle.
  destruct (Prim2SF x) as [[]|[]| |[] m e]; try discriminate Hlt; try discriminate Hle.
  eauto.
Qed.

Lemma exponents_inverse' :
  (Rabs (to_R (1 / 2.4)%float * to_R 2.4%float - 1) <= 1 / 10 ^ 15)%R.
Proof. rewrite Rmult_comm. exact exponents_inverse. Qed.

Lemma Rpower_one b : Rpower 1 b = 1%R.
Proof. unfold Rpower. now rewrite ln_1, Rmult_0_r, exp_0. Qed.

End ReverseConstants.

Section ReversePower.
Context `{Engine}.

Lemma reverse_power l :
  (0.00313081 <=? l)%float = true -> (l <=? 1)%float = true ->
  accurate l (1 / 2.4)%float ->
  accurate ((Math_pow l (1 / 2.4) * 1.055 - 0.055 + 0.055) / 1.055)%float 2.4%float ->
  sRGBToLinear (linearToSRGB l)
  = Math_pow ((Math_pow l (1 / 2.4) * 1.055 - 0.055 + 0.055) / 1.055)%float 2.4%float
  /\ (Rabs (to_R (sRGBToLinear (linearToSRGB l)) - to_R l) <= 1 / 10 ^ 9)%R.
Proof.
  intros Hlo Hhi Hp1 Hp2.
  destruct (between_positive 0.00313081%float l 1%float _ _ _ _ eq_refl eq_refl Hlo Hhi)
    as (ml & el & El).
  assert (Hl : nonneg_finite (Prim2SF l)) by (right; eauto).
  pose proof (proj1 (leb_to_R _ _ nonneg_0_00313081 Hl) Hlo) as HL1.
  rewrite value_0_00313081 in HL1.
  pose proof (proj1 (leb_to_R _ _ Hl nonneg_1) Hhi) as HL2. rewrite value_1 in HL2.
  pose proof tiny as Ht.
  (* the first power *)
  destruct Hp1 as [HQ HQerr]. apply Rabs_bounds in HQerr.
  set (Q := Math_pow l (1 / 2.4)%float) in *.
  set (X := Rpower (to_R l) (to_R (1 / 2.4)%float)) in *.
  assert (HX0 : (0 < X)%R) by apply exp_pos.
  assert (HXlo : (90473959 / 1000000000 <= X)%R).
  { unfold X. rewrite value_inv_2_4.
    apply Rle_trans with (Rpower (31308099 / 10000000000)
                                 (7505999378950827 / 18014398509481984)).
    2:{ apply Rle_Rpower_l; lra. }
    replace (7505999378950827 / 18014398509481984)%R
      with (5 / 12 + (7505999378950827 / 18014398509481984 - 5 / 12))%R by ring.
    rewrite Rpower_plus.
    pose proof (power_5_12 (31308099 / 10000000000) (9047396 / 100000000)
                  ltac:(lra) ltac:(lra) ltac:(lra)) as H1.
    pose proof (Rpower_near_one (31308099 / 10000000000)
                  (7505999378950827 / 18014398509481984 - 5 / 12) (1 / 10 ^ 15)
                  ltac:(lra) ltac:(apply Rabs_le; lra) ltac:(lra)) as H2.
    nra. }
  assert (HXhi : (X <= 1)%R).
  { unfold X. rewrite <- (Rpower_one (to_R (1 / 2.4)%float)).
    apply Rle_Rpower_l; [rewrite value_inv_2_4; lra | lra]. }
  assert (HQ0 : (0 < to_R Q < 2)%R) by lra.
  destruct (positive_finite _ HQ (proj1 HQ0)) as (mq & eq & Eq).
  pose proof (small_exponent _ mq eq Eq (proj2 HQ0)) as Heq.
  (* the product and the difference *)
  destruct (mul_error Q 1.055%float mq eq 4751297606875873 (-52) Eq eq_refl ltac:(lia))
    as [Hm Hmerr].
  rewrite value_1_055, unit_roundoff in Hmerr. apply Rabs_bounds in Hmerr.
  assert (HM0 : (9 / 100 < to_R (Q * 1.055)%float < 2)%R) by lra.
  destruct (positive_finite _ Hm ltac:(lra)) as (mm & em & Em).
  pose proof (small_exponent _ mm em Em (proj2 HM0)) as Hem.
  destruct (sub_error (Q * 1.055)%float 0.055%float mm em 7926335344172073 (-57) Em eq_refl
              ltac:(lia) ltac:(lia)) as [Hr Hrerr]; [rewrite value_0_055; lra|].
  rewrite value_0_055, unit_roundoff in Hrerr. apply Rabs_bounds in Hrerr.
  set (s' := (Q * 1.055 - 0.055)%float) in *.
  assert (HS0 : (4045 / 100000 + 1 / 10 ^ 8 < to_R s' < 2)%R) by lra.
  destruct (positive_finite _ Hr ltac:(lra)) as (ms & es & Es).
  pose proof (small_exponent _ ms es Es (proj2 HS0)) as Hes.
  (* the sum and the quotient *)
  destruct (add_error s' 0.055%float ms es 7926335344172073 (-57) Es eq_refl
              ltac:(lia) ltac:(lia)) as [Ha Haerr].
  rewrite value_0_055, unit_roundoff in Haerr. apply Rabs_bounds in Haerr.
  destruct (positive_finite _ Ha ltac:(lra)) as (ma & ea & Ea).
  pose proof (small_exponent _ ma ea Ea ltac:(lra)) as Hea.
  pose proof (digits_small ma (mantissa_bound _ false ma ea Ea)) as Hda.
  destruct (div_error (s' + 0.055)%float 1.055%float ma ea 4751297606875873 (-52)
              Ea eq_refl ltac:(lia) ltac:(lia)) as [Hu Huerr].
  rewrite value_1_055, unit_roundoff in Huerr. apply Rabs_bounds in Huerr.
  set (u := ((s' + 0.055) / 1.055)%float) in *.
  (* the branches *)
  assert (Hcode : sRGBToLinear (linearToSRGB l) = Math_pow u 2.4%float).
  { unfold linearToSRGB.
    rewrite (to_R_not_leb l 0.003_130_8%float Hl nonneg_0_0031308)
      by (rewrite value_0_0031308; lra).
    fold Q. fold s'. unfold sRGBToLinear.
    rewrite (to_R_not_leb s' 0.040_45%float Hr nonneg_0_04045)
      by (rewrite value_0_04045; lra).
    reflexivity. }
  split; [exact Hcode|]. rewrite Hcode.
  (* the second power *)
  destruct Hp2 as [HP HPerr]. fold Q in HP, HPerr. fold s' in HP, HPerr. fold u in HP, HPerr.
  apply Rabs_bounds in HPerr.
  assert (Hnear : (X * (1 - 11 / 10 ^ 11) <= to_R u <= X * (1 + 11 / 10 ^ 11))%R) by lra.
  pose proof (Rpower_base X (to_R u) (to_R 2.4%float) (11 / 10 ^ 11) (5 / 2) HX0
                ltac:(lra) ltac:(rewrite value_2_4; lra) ltac:(lra) Hnear) as Hb.
  unfold X in Hb. rewrite !Rpower_mult in Hb.
  pose proof (Rpower_near_id (to_R l) (to_R (1 / 2.4)%float * to_R 2.4%float) (1 / 10 ^ 15)
                ltac:(lra) exponents_inverse' ltac:(lra)) as Hid.
  set (Y := Rpower (to_R l) (to_R (1 / 2.4)%float * to_R 2.4%float)) in *.
  set (Z := Rpower (to_R u) (to_R 2.4%float)) in *.
  apply Rabs_le. lra.
Qed.

End ReversePower.

Section Junction.
Context `{Engine}.

Lemma value_junction :
  to_R (0.04045 / 12.92)%float = (7219144715378786 / 2305843009213693952)%R.
Proof. exact (to_R_value (0.04045 / 12.92)%float 7219144715378786 61 eq_refl ltac:(lia)). Qed.

(** At 0.04045 the linear segment of [sRGBToLinear] hands a value above
    0.0031308 to the power segment of [linearToSRGB]. *)
Lemma junction_miss :
  accurate (0.04045 / 12.92)%float (1 / 2.4)%float ->
  linearToSRGB (sRGBToLinear 0.04045%float)
  = (Math_pow (0.04045 / 12.92) (1 / 2.4) * 1.055 - 0.055)%float
  /\ (to_R (linearToSRGB (sRGBToLinear 0.04045%float)) < to_R 0.04045%float - 2 / 10 ^ 8)%R.
Proof.
  intros [HQ HQerr].
  assert (Hcode : linearToSRGB (sRGBToLinear 0.04045%float)
                  = (Math_pow (0.04045 / 12.92) (1 / 2.4) * 1.055 - 0.055)%float)
    by reflexivity.
  split; [exact Hcode|]. rewrite Hcode. clear Hcode.
  apply Rabs_bounds in HQerr. rewrite value_junction, value_inv_2_4 in HQerr.
  pose proof tiny as Ht.
  set (Q := Math_pow (0.04045 / 12.92)%float (1 / 2.4)%float) in *.
  set (X := Rpower (7219144715378786 / 2305843009213693952)
                   (7505999378950827 / 18014398509481984)) in *.
  assert (HXhi : (X < 9047391 / 100000000)%R).
  { unfold X.
    apply Rle_lt_trans with (Rpower (7219144715378786 / 2305843009213693952) (5 / 12)).
    - apply Rpower_exponent_below; lra.
    - apply power_5_12_below; lra. }
  assert (HXlo : (904739 / 10000000 <= X)%R).
  { unfold X.
    replace (7505999378950827 / 18014398509481984)%R
      with (5 / 12 + (7505999378950827 / 18014398509481984 - 5 / 12))%R by ring.
    rewrite Rpower_plus.
    pose proof (power_5_12 (7219144715378786 / 2305843009213693952) (90473905 / 1000000000)
                  ltac:(lra) ltac:(lra) ltac:(lra)) as H1.
    pose proof (Rpower_near_one (7219144715378786 / 2305843009213693952)
                  (7505999378950827 / 18014398509481984 - 5 / 12) (1 / 10 ^ 15)
                  ltac:(lra) ltac:(apply Rabs_le; lra) ltac:(lra)) as H2.
    nra. }
  assert (HQ0 : (0 < to_R Q < 2)%R) by lra.
  destruct (positive_finite _ HQ (proj1 HQ0)) as (mq & eq & Eq).
  pose proof (small_exponent _ mq eq Eq (proj2 HQ0)) as Heq.
  destruct (mul_error Q 1.055%float mq eq 4751297606875873 (-52) Eq eq_refl ltac:(lia))
    as [Hm Hmerr].
  rewrite value_1_055, unit_roundoff in Hmerr. apply Rabs_bounds in Hmerr.
  assert (HM0 : (9 / 100 < to_R (Q * 1.055)%float < 2)%R) by lra.
  destruct (positive_finite _ Hm ltac:(lra)) as (mm & em & Em).
  pose proof (small_exponent _ mm em Em (proj2 HM0)) as Hem.
  destruct (sub_error (Q * 1.055)%float 0.055%float mm em 7926335344172073 (-57) Em eq_refl
              ltac:(lia) ltac:(lia)) as [Hr Hrerr]; [rewrite value_0_055; lra|].
  rewrite value_0_055, unit_roundoff in Hrerr. apply Rabs_bounds in Hrerr.
  rewrite value_0_04045. lra.
Qed.

(** The zeros. *)
Lemma forward_linear s :
  (0 <=? s)%float = true -> (s <=? 0.0404499)%float = true ->
  linearToSRGB (sRGBToLinear s) = (s / 12.92 * 12.92)%float
  /\ (Rabs (to_R (linearToSRGB (sRGBToLinear s)) - to_R s) <= 1 / 10 ^ 16)%R.
Proof.
  intros H0 Hle.
  destruct (between_nonneg s _ H0 Hle nonneg_0_0404499) as [Hs | Ez].
  - destruct (forward_linear_pos s Hs Hle) as [Hc Hb]. split; [exact Hc|]. now rewrite Hc.
  - assert (Es : s = neg_zero) by (apply Prim2SF_inj; rewrite Ez; reflexivity). subst s.
    split; [reflexivity|].
    replace (linearToSRGB (sRGBToLinear neg_zero)) with neg_zero by reflexivity.
    rewrite Rminus_diag, Rabs_R0. lra.
Qed.

Lemma reverse_linear l :
  (0 <=? l)%float = true -> (l <=? 0.003_130_8)%float = true ->
  sRGBToLinear (linearToSRGB l) = (l * 12.92 / 12.92)%float
  /\ (Rabs (to_R (sRGBToLinear (linearToSRGB l)) - to_R l) <= 1 / 10 ^ 16)%R.
Proof.
  intros H0 Hle.
  destruct (between_nonneg l _ H0 Hle nonneg_0_0031308) as [Hl | Ez].
  - destruct (reverse_linear_pos l Hl Hle) as [Hc Hb]. split; [exact Hc|]. now rewrite Hc.
  - assert (El : l = neg_zero) by (apply Prim2SF_inj; rewrite Ez; reflexivity). subst l.
    split; [reflexivity|].
    replace (sRGBToLinear (linearToSRGB neg_zero)) with neg_zero by reflexivity.
    rewrite Rminus_diag, Rabs_R0. lra.
Qed.

(** C4, amended: in binary64 the two transfer functions undo each other
    within the tolerance on each of their segments, and not across the
    junction of the segments.  On the linear segment, where no power is
    taken, the round trip of every [s] from 0 to 0.0404499 and of every [l]
    from 0 to 0.0031308 is within 1e-16.  On the power segment the result
    is the engine's: for every [s] above 0.04045 up to 1 and every [l] from
    0.00313081 up to 1, the round trip is within 1e-9 whenever the two
    powers the engine takes on the way are within a relative 1e-10 of the
    exact powers.  At [s = 0.04045] such an engine returns a value more
    than 2e-8 below [s]. *)
Theorem transfer_round_trip :
  (forall s, (0 <=? s)%float = true -> (s <=? 0.0404499)%float = true ->
     linearToSRGB (sRGBToLinear s) = (s / 12.92 * 12.92)%float
     /\ (Rabs (to_R (linearToSRGB (sRGBToLinear s)) - to_R s) <= 1 / 10 ^ 16)%R)
  /\ (forall s, (0.04045 <? s)%float = true -> (s <=? 1)%float = true ->
     accurate ((s + 0.055) / 1.055)%float 2.4%float ->
     accurate (Math_pow ((s + 0.055) / 1.055) 2.4)%float (1 / 2.4)%float ->
     linearToSRGB (sRGBToLinear s)
     = (Math_pow (Math_pow ((s + 0.055) / 1.055) 2.4) (1 / 2.4) * 1.055 - 0.055)%float
     /\ (Rabs (to_R (linearToSRGB (sRGBToLinear s)) - to_R s) <= 1 / 10 ^ 9)%R)
  /\ (accurate (0.04045 / 12.92)%float (1 / 2.4)%float ->
     linearToSRGB (sRGBToLinear 0.04045%float)
     = (Math_pow (0.04045 / 12.92) (1 / 2.4) * 1.055 - 0.055)%float
     /\ (to_R (linearToSRGB (sRGBToLinear 0.04045%float))
         < to_R 0.04045%float - 2 / 10 ^ 8)%R)
  /\ (forall l, (0 <=? l)%float = true -> (l <=? 0.003_130_8)%float = true ->
     sRGBToLinear (linearToSRGB l) = (l * 12.92 / 12.92)%float
     /\ (Rabs (to_R (sRGBToLinear (linearToSRGB l)) - to_R l) <= 1 / 10 ^ 16)%R)
  /\ (forall l, (0.00313081 <=? l)%float = true -> (l <=? 1)%float = true ->
     accurate l (1 / 2.4)%float ->
     accurate ((Math_pow l (1 / 2.4) * 1.055 - 0.055 + 0.055) / 1.055)%float 2.4%float ->
     sRGBToLinear (linearToSRGB l)
     = Math_pow ((Math_pow l (1 / 2.4) * 1.055 - 0.055 + 0.055) / 1.055)%float 2.4%float
     /\ (Rabs (to_R (sRGBToLinear (linearToSRGB l)) - to_R l) <= 1 / 10 ^ 9)%R).
Proof.
  split; [exact forward_linear|]. split; [exact forward_power|].
  split; [exact junction_miss|]. split; [exact reverse_linear | exact reverse_power].
Qed.

End Junction.

Section OnTheReferenceEngine.

Lemma reference_accurate_one b :
  ReferenceEngine.pow 1 b = 1%float ->
  accurate (H := reference_engine) 1%float b.
Proof.
  intros E. unfold accurate. cbn [Math_pow reference_engine]. rewrite E.
  split; [exact nonneg_1|]. rewrite value_1, Rpower_one, Rminus_diag, Rabs_R0. lra.
Qed.

(** C4 as stated fails: at the sRGB value 0.04045 the round trip misses by
    about 3e-8. *)
Lemma transfer_not_inverse :
  ~ (forall (E : Engine) (s : float),
        (0 <=? s)%float = true -> (s <=? 1)%float = true ->
        (Rabs (to_R (linearToSRGB (sRGBToLinear s)) - to_R s) <= 1 / 10 ^ 9)%R).
Proof.
  intros Hclaim.
  specialize (Hclaim reference_engine 0.04045%float eq_refl eq_refl).
  assert (Hv : to_R (linearToSRGB (H := reference_engine)
                       (sRGBToLinear (H := reference_engine) 0.04045%float))
               = (5829455093029305 / 144115188075855872)%R).
  { apply (to_R_value _ 5829455093029305 57); [vm_compute; reflexivity | lia]. }
  rewrite Hv, value_0_04045 in Hclaim. apply Rabs_bounds in Hclaim. lra.
Qed.

(** C4 on the reference engine: at 0.01 and at 1. *)
Lemma transfer_round_trip_reference :
  (0 <=? 0.01)%float = true /\ (0.01 <=? 0.0404499)%float = true
  /\ (0.04045 <? 1)%float = true /\ (1 <=? 1)%float = true
  /\ accurate (H := reference_engine) ((1 + 0.055) / 1.055)%float 2.4%float
  /\ accurate (H := reference_engine)
       (Math_pow (Engine := reference_engine) ((1 + 0.055) / 1.055) 2.4)%float (1 / 2.4)%float
  /\ (Rabs (to_R (linearToSRGB (H := reference_engine)
                    (sRGBToLinear (H := reference_engine) 0.01%float)) - to_R 0.01%float)
      <= 1 / 10 ^ 16)%R
  /\ (Rabs (to_R (linearToSRGB (H := reference_engine)
                    (sRGBToLinear (H := reference_engine) 1%float)) - to_R 1%float)
      <= 1 / 10 ^ 9)%R.
Proof.
  assert (H1 : accurate (H := reference_engine) ((1 + 0.055) / 1.055)%float 2.4%float).
  { replace ((1 + 0.055) / 1.055)%float with 1%float by reflexivity.
    apply reference_accurate_one. vm_compute. reflexivity. }
  assert (H2 : accurate (H := reference_engine)
                 (Math_pow (Engine := reference_engine) ((1 + 0.055) / 1.055) 2.4)%float
                 (1 / 2.4)%float).
  { replace (Math_pow (Engine := reference_engine) ((1 + 0.055) / 1.055) 2.4)%float
      with 1%float by (vm_compute; reflexivity).
    apply reference_accurate_one. vm_compute. reflexivity. }
  pose proof (@transfer_round_trip reference_engine) as (Hlin & Hpow & _).
  repeat (split; [reflexivity|]). split; [exact H1|]. split; [exact H2|]. split.
  - exact (proj2 (Hlin 0.01%float eq_refl eq_refl)).
  - exact (proj2 (Hpow 1%float eq_refl eq_refl H1 H2)).
Defined.

End OnTheReferenceEngine.


(** ** Channels with four decimals *)

Section FourDecimals.

Lemma is_finite_spec x :
  PrimFloat.is_finite x
  = match Prim2SF x with S754_zero _ | S754_finite _ _ _ => true | _ => false end.
Proof.
  unfold PrimFloat.is_finite, PrimFloat.is_infinity.
  rewrite is_nan_spec, eqb_spec, abs_spec. sf_const infinity.
  destruct (Prim2SF x) as [ s | [] | | s m e];
    cbv beta iota delta [SFabs SFeqb SFcompare negb orb]; reflexivity.
Qed.

Lemma isInteger_opp x : Number.isInteger (- x)%float = Number.isInteger x.
Proof.
  unfold Number.isInteger. rewrite opp_spec.
  destruct (Prim2SF x); reflexivity.
Qed.

Lemma isInteger_of_Z_signed r : - 2 ^ 53 < r < 2 ^ 53 -> Number.isInteger (Number.of_Z r) = true.
Proof.
  intros Hr. destruct r as [|p|p].
  - reflexivity.
  - apply isInteger_of_Z. lia.
  - change (Number.of_Z (Zneg p)) with (- Number.of_Z (Zpos p))%float.
    rewrite isInteger_opp. apply isInteger_of_Z. lia.
Qed.

(** [Math.round] of a finite number is an integer. *)
Lemma Math_round_integer p :
  PrimFloat.is_finite p = true -> Number.isInteger (Number.Math_round p) = true.
Proof.
  rewrite is_finite_spec. unfold Number.Math_round.
  destruct (Prim2SF p) as [s|s| |s m e] eqn:E; try discriminate; intros _.
  - unfold Number.isInteger. now rewrite E.
  - destruct (Z.leb_spec 0 e) as [He|He].
    + unfold Number.isInteger. rewrite E.
      now replace (0 <=? e) with true by (symmetry; apply Z.leb_le; exact He).
    + pose proof (mantissa_bound p s m e E) as Hm.
      set (k := - e) in *. assert (Hk : 1 <= k) by (unfold k; lia).
      assert (Hpos : 2 <= 2 ^ k).
      { change 2 with (2 ^ 1) at 1. apply Z.pow_le_mono_r; lia. }
      assert (Hpow : 2 ^ (k + 1) = 2 * 2 ^ k)
        by (rewrite Z.pow_add_r by lia; change (2 ^ 1) with 2; lia).
      cbv zeta. rewrite Z.shiftr_div_pow2 by lia. rewrite Hpow.
      set (n := if s then Zneg m else Zpos m).
      assert (Hn : - 2 ^ 53 < n < 2 ^ 53) by (unfold n; destruct s; lia).
      set (r := (2 * n + 2 ^ k) / (2 * 2 ^ k)).
      assert (Hr : - 2 ^ 53 < r < 2 ^ 53).
      { unfold r. split.
        - apply Z.lt_le_trans with (- 2 ^ 52); [reflexivity|].
          apply Z.div_le_lower_bound; [lia|].
          change (2 ^ 53) with (2 * 2 ^ 52) in Hn. nia.
        - apply Z.div_lt_upper_bound; [lia|]. nia. }
      destruct (Z.eqb_spec r 0) as [Hr0|Hr0].
      * destruct s; reflexivity.
      * now apply isInteger_of_Z_signed.
Qed.

(** What [roundToFourDecimals] returns has at most four decimals, unless
    it is not finite. *)
Lemma rounded_four_decimals y :
  PrimFloat.is_finite (roundToFourDecimals y) = true -> four_decimals (roundToFourDecimals y).
Proof.
  intros Hf. unfold roundToFourDecimals in *. cbv zeta in *.
  destruct (PrimFloat.is_finite (y * 10_000)%float) eqn:Hp.
  - eexists. split; [apply Math_round_integer; exact Hp | reflexivity].
  - exfalso. destruct (nonfinite_cases _ Hp) as [E | [E | E]]; rewrite E in Hf;
      vm_compute in Hf; discriminate.
Qed.

(** The real number an integer denotes. *)
Lemma integer_value i m e :
  Prim2SF i = S754_finite false m e -> Number.isInteger i = true ->
  exists k, 1 <= k /\ to_R i = IZR k.
Proof.
  intros E Hi. unfold Number.isInteger in Hi. rewrite E in Hi.
  rewrite (to_R_finite i m e E).
  destruct (Z.leb_spec 0 e) as [He|He].
  - exists (Zpos m * 2 ^ e). split.
    + assert (0 < 2 ^ e) by (apply Z.pow_pos_nonneg; lia). nia.
    + rewrite mult_IZR, bpow_IZR by exact He. reflexivity.
  - cbn [orb] in Hi. apply Z.eqb_eq in Hi.
    assert (Hp : 0 < 2 ^ (- e)) by (apply Z.pow_pos_nonneg; lia).
    apply Z.mod_divide in Hi; [|lia]. destruct Hi as [q Hq].
    exists q. split; [nia|].
    pose proof (scale_down q 0 e ltac:(lia)) as Hs.
    replace (0 - e) with (- e) in Hs by lia. rewrite Hq, <- Hs. cbn [powerRZ]. ring.
Qed.

Lemma value_10000 : to_R 10_000%float = 10000%R.
Proof.
  rewrite (to_R_value 10_000%float 5497558138880000 39 eq_refl ltac:(lia)).
  change (2 ^ 39) with 549755813888. lra.
Qed.

Lemma value_setter :
  to_R (0.01 / 12.92)%float = (7138832845862830 / 9223372036854775808)%R.
Proof. exact (to_R_value (0.01 / 12.92)%float 7138832845862830 63 eq_refl ltac:(lia)). Qed.

(** 0.01 / 12.92, which the setter stores for 0.01, has more than four
    decimals: it lies between 7 / 10000 and 8 / 10000. *)
Lemma setter_more_decimals : ~ four_decimals (0.01 / 12.92)%float.
Proof.
  intros (i & Hi & E).
  assert (Ev : Prim2SF (i / 10_000)%float = S754_finite false 7138832845862830 (-63))
    by (rewrite <- E; reflexivity).
  destruct (Prim2SF i) as [s|s| |s m e] eqn:Ei.
  - rewrite (zero_cases i s Ei) in Ev. destruct s; vm_compute in Ev; discriminate.
  - unfold Number.isInteger in Hi. rewrite Ei in Hi. discriminate.
  - unfold Number.isInteger in Hi. rewrite Ei in Hi. discriminate.
  - destruct s.
    + exact (div_negative i 10_000%float m e 5497558138880000 (-39) _ _ Ei eq_refl Ev).
    + destruct (integer_value i m e Ei Hi) as (k & Hk & Hv).
      destruct (div_cases i 10_000%float m e 5497558138880000 (-39) Ei eq_refl)
        as [Hinf | [_ Herr]]; [rewrite Hinf in Ev; discriminate|].
      rewrite <- E, value_setter, Hv, value_10000, unit_roundoff in Herr.
      pose proof tiny as Ht. apply Rabs_bounds in Herr.
      destruct (Z.le_gt_cases k 7) as [H7|H8].
      * apply IZR_le in H7. apply IZR_le in Hk. lra.
      * assert (H8' : 8 <= k) by lia. apply IZR_le in H8'. lra.
Qed.

End FourDecimals.

Section ChannelWrites.
Context `{Engine}.

Lemma constructor_fields o c :
  Color.constructor o = Ok c ->
  let convert v := if Options.isLinear o then Value.number v else sRGBToLinear (Value.number v) in
  Color.linearRed c = roundToFourDecimals (convert (Options.red o))
  /\ Color.linearGreen c = roundToFourDecimals (convert (Options.green o))
  /\ Color.linearBlue c = roundToFourDecimals (convert (Options.blue o))
  /\ Color.opacity c
     = roundToFourDecimals
         (clampOpacity (Value.number match Options.opacity o with Undefined => Num 1 | v => v end)).
Proof.
  unfold Color.constructor.
  destruct (validateComponent (Options.red o) "Red") as [[]|]; [|discriminate].
  destruct (validateComponent (Options.green o) "Green") as [[]|]; [|discriminate].
  destruct (validateComponent (Options.blue o) "Blue") as [[]|]; [|discriminate].
  destruct (validateComponent _ "Opacity") as [[]|]; [|discriminate].
  cbn [bind]. intros E. injection E as <-. cbn. auto.
Qed.

(** C3, amended: what the constructor stores as red, green, blue and
    opacity is the converted (or, with [isLinear], the given) value rounded
    to four decimals, and so has at most four decimals whenever it is
    finite: it is the quotient by 10000 of an integer.  Every component
    [toJSON] writes has at most four decimals too.  A setter stores the
    converted value as it is: after [red = 0.01] the stored linear red is
    0.01 / 12.92, which has more than four decimals. *)
Theorem channel_writes (c : Color.t) (o : Options.t) (v : float) :
  (forall c',
      Color.constructor o = Ok c' ->
      let convert x :=
        if Options.isLinear o then Value.number x else sRGBToLinear (Value.number x) in
      Color.linearRed c' = roundToFourDecimals (convert (Options.red o))
      /\ Color.linearGreen c' = roundToFourDecimals (convert (Options.green o))
      /\ Color.linearBlue c' = roundToFourDecimals (convert (Options.blue o))
      /\ Forall (fun x => PrimFloat.is_finite x = true -> four_decimals x)
           [Color.linearRed c'; Color.linearGreen c'; Color.linearBlue c'; Color.opacity c'])
  /\ Forall (fun x => PrimFloat.is_finite x = true -> four_decimals x) (Color.json_components c)
  /\ Color.set_red c (Num v)
     = Ok {| Color.name := Color.name c; Color.linearRed := sRGBToLinear v;
             Color.linearGreen := Color.linearGreen c;
             Color.linearBlue := Color.linearBlue c; Color.opacity := Color.opacity c |}
  /\ Color.set_green c (Num v)
     = Ok {| Color.name := Color.name c; Color.linearRed := Color.linearRed c;
             Color.linearGreen := sRGBToLinear v;
             Color.linearBlue := Color.linearBlue c; Color.opacity := Color.opacity c |}
  /\ Color.set_blue c (Num v)
     = Ok {| Color.name := Color.name c; Color.linearRed := Color.linearRed c;
             Color.linearGreen := Color.linearGreen c;
             Color.linearBlue := sRGBToLinear v; Color.opacity := Color.opacity c |}
  /\ (exists c',
        Color.set_red black (Num 0.01) = Ok c'
        /\ Color.linearRed c' = (0.01 / 12.92)%float
        /\ PrimFloat.is_finite (Color.linearRed c') = true
        /\ ~ four_decimals (Color.linearRed c')
        /\ roundToFourDecimals (Color.linearRed c') = 0.0008%float).
Proof.
  split; [|split; [|split; [|split; [|split]]]]; try reflexivity.
  - intros c' Hc. destruct (constructor_fields o c' Hc) as (Hr & Hg & Hb & Ho).
    cbv zeta in *. repeat split; try assumption.
    rewrite Hr, Hg, Hb, Ho.
    repeat (apply Forall_cons; [apply rounded_four_decimals|]). apply Forall_nil.
  - unfold Color.json_components.
    repeat (apply Forall_cons; [apply rounded_four_decimals|]).
    destruct (Number.strict_neq (Color.opacity c) 1).
    + apply Forall_cons; [apply rounded_four_decimals | apply Forall_nil].
    + apply Forall_nil.
  - eexists. split; [reflexivity|]. cbn [Color.linearRed].
    split; [reflexivity|]. split; [reflexivity|]. split; [|reflexivity].
    exact setter_more_decimals.
Qed.

End ChannelWrites.

(** C3 on a constructed colour: the channels of [rgb(0.5, 0.25, 1)]. *)
Lemma channel_writes_half :
  exists c,
    Color.constructor (H := reference_engine) (Options.rgba 0.5 0.25 1 0.5) = Ok c
    /\ PrimFloat.is_finite (Color.linearRed c) = true
    /\ four_decimals (Color.linearRed c).
Proof.
  eexists. split; [vm_compute; reflexivity|]. split; [reflexivity|].
  pose proof (@channel_writes reference_engine black (Options.rgba 0.5 0.25 1 0.5) 0%float)
    as (Hc & _).
  destruct (Hc _ ltac:(vm_compute; reflexivity)) as (_ & _ & _ & Hall).
  apply Forall_inv in Hall. apply Hall. reflexivity.
Defined.


(** ** The round trip of a palette *)

Section Search.
Import NumberToString.







End Search.





Section Settled.



Lemma settle_stable x : stable x = true -> settle x = x.
Proof.
  intros Hs. destruct (stable_spec x Hs) as (_ & _ & _ & Hz & _). unfold settle. now rewrite Hz.
Qed.





End Settled.

Section Documents.














End Documents.

Section Revive.
Context `{Engine}.





End Revive.

